(** * MetaSearch front end

    The search page (Home.jsx) and the source administration page
    (Admin.jsx), embedded as event handlers over an explicit component
    state.  What a handler does to the outside (axios calls, sonner
    notifications, console output, the confirmation dialog) is recorded
    in a log; an awaited call stays pending, with the rest of the async
    function, until it settles.

    - [JS], [JSON]: JavaScript strings as UTF-16 code units, [trim],
      [JSON.stringify] with an indent and [JSON.parse].
    - [Api]: the records and calls of the backend contract.
    - [Handler]: handler programs and how they run.
    - [Home], [Admin]: the two pages, handler by handler, and the events
      their controls raise.
    - the modules named [...Facts]: what is proved of them. *)

From Stdlib Require Import String Ascii NArith ZArith Bool Lia Arith List.
From Stdlib Require Import DecimalN DecimalNat DecimalPos.
Import ListNotations.

Set Implicit Arguments.
Set Primitive Projections.

(* ================================================================= *)
(** * JavaScript strings *)

(** A JavaScript string is a sequence of UTF-16 code units. *)
Module JS.

Definition char := N.
Definition jsstring := list char.

Definition ch (a : ascii) : char := N_of_ascii a.

(** An ASCII literal as a JavaScript string. *)
Definition lit (s : string) : jsstring := map ch (list_ascii_of_string s).

(** An ASCII literal in which the apostrophe stands for the double
    quote. *)
Definition dquoted (s : string) : jsstring :=
  map (fun c => if N.eqb c 39 then 34%N else c) (lit s).

Definition char_eqb (a b : char) : bool := N.eqb a b.

Fixpoint eqb (a b : jsstring) : bool :=
  match a, b with
  | [], [] => true
  | x :: a', y :: b' => char_eqb x y && eqb a' b'
  | _, _ => false
  end.

Definition eq_dec (a b : jsstring) : {a = b} + {a <> b} :=
  list_eq_dec N.eq_dec a b.

(** WhiteSpace and LineTerminator code units, the ones
    [String.prototype.trim] strips. *)
Definition is_whitespace (c : char) : bool :=
  (N.eqb c 9 || N.eqb c 10 || N.eqb c 11 || N.eqb c 12 || N.eqb c 13
   || N.eqb c 32 || N.eqb c 160 || N.eqb c 5760
   || (N.leb 8192 c && N.leb c 8202)
   || N.eqb c 8232 || N.eqb c 8233 || N.eqb c 8239 || N.eqb c 8287
   || N.eqb c 12288 || N.eqb c 65279)%bool.

Fixpoint trimStart (s : jsstring) : jsstring :=
  match s with
  | [] => []
  | c :: r => if is_whitespace c then trimStart r else s
  end.

Definition trimEnd (s : jsstring) : jsstring := rev (trimStart (rev s)).

Definition trim (s : jsstring) : jsstring := trimEnd (trimStart s).

(** ToBoolean on a string: the empty string is the only falsy one. *)
Definition truthy (s : jsstring) : bool :=
  match s with [] => false | _ :: _ => true end.

(** A string made of whitespace only (the empty string included). *)
Definition blank (s : jsstring) : bool := forallb is_whitespace s.

(** [sep.join(parts)]. *)
Fixpoint join (sep : jsstring) (parts : list jsstring) : jsstring :=
  match parts with
  | [] => []
  | [p] => p
  | p :: rest => p ++ sep ++ join sep rest
  end.

(** Decimal digits. *)
Definition is_digit (c : char) : bool := (N.leb 48 c && N.leb c 57)%bool.
Definition digit_val (c : char) : N := (c - 48)%N.
Definition digit_char (d : N) : char := (d + 48)%N.

(** The longest prefix of decimal digits, as digit values, and the rest. *)
Fixpoint span_digits (s : jsstring) : list N * jsstring :=
  match s with
  | [] => ([], [])
  | c :: r =>
    if is_digit c
    then let (ds, rest) := span_digits r in (digit_val c :: ds, rest)
    else ([], s)
  end.

(** Digit values to and from the Standard Library's decimal numerals. *)
Fixpoint uint_of_digits (ds : list N) : Decimal.uint :=
  match ds with
  | [] => Decimal.Nil
  | d :: r =>
    let u := uint_of_digits r in
    match d with
    | 0%N => Decimal.D0 u | 1%N => Decimal.D1 u | 2%N => Decimal.D2 u
    | 3%N => Decimal.D3 u | 4%N => Decimal.D4 u | 5%N => Decimal.D5 u
    | 6%N => Decimal.D6 u | 7%N => Decimal.D7 u | 8%N => Decimal.D8 u
    | _ => Decimal.D9 u
    end
  end.

Fixpoint digits_of_uint (u : Decimal.uint) : list N :=
  match u with
  | Decimal.Nil => []
  | Decimal.D0 r => 0%N :: digits_of_uint r
  | Decimal.D1 r => 1%N :: digits_of_uint r
  | Decimal.D2 r => 2%N :: digits_of_uint r
  | Decimal.D3 r => 3%N :: digits_of_uint r
  | Decimal.D4 r => 4%N :: digits_of_uint r
  | Decimal.D5 r => 5%N :: digits_of_uint r
  | Decimal.D6 r => 6%N :: digits_of_uint r
  | Decimal.D7 r => 7%N :: digits_of_uint r
  | Decimal.D8 r => 8%N :: digits_of_uint r
  | Decimal.D9 r => 9%N :: digits_of_uint r
  end.

(** The value of a digit sequence, and the digits of a natural number
    (no leading zero; [0] for zero). *)
Definition N_of_digits (ds : list N) : N := N.of_uint (uint_of_digits ds).
Definition digits_of_N (n : N) : list N := digits_of_uint (N.to_uint n).

(** Number::toString on a non-negative integer. *)
Definition N_toString (n : N) : jsstring := map digit_char (digits_of_N n).

End JS.

Import JS.

(* ================================================================= *)
(** * JSON values, [JSON.stringify] and [JSON.parse] *)

Module JSON.

(** A JSON number, kept as an exact decimal: the value is
    [(-1)^negative * 0.d1 d2 ... dk * 10^point], where [digits] holds the
    digit values [d1 .. dk]; zero has no digits.  This is the triple
    (s, k, n) of Number::toString. *)
Record number : Type := Number {
  negative : bool;
  digits : list N;
  point : Z
}.

Definition zero : number := Number false [] 0.

(** Leading zeros: how many there are, and the digits after them. *)
Fixpoint drop_zeros (ds : list N) : nat * list N :=
  match ds with
  | [] => (0, [])
  | d :: r =>
    if N.eqb d 0 then let (n, r') := drop_zeros r in (S n, r') else (0, ds)
  end.

(** The digits without their trailing zeros. *)
Definition strip_zeros (ds : list N) : list N :=
  rev (snd (drop_zeros (rev ds))).

(** The significant digits are decimal digits, the first and the last of
    them are not zero, and zero is written in one way. *)
Definition number_ok (x : number) : bool :=
  match digits x with
  | [] => (negb (negative x) && Z.eqb (point x) 0)%bool
  | d :: ds =>
    (negb (N.eqb d 0) && negb (N.eqb (last (d :: ds) 0%N) 0)
     && forallb (fun c => N.ltb c 10) (d :: ds))%bool
  end.

(** The number denoted by an integer. *)
Definition of_Z (z : Z) : number :=
  match z with
  | Z0 => zero
  | _ => let ds := digits_of_N (Z.abs_N z) in
         Number (Z.ltb z 0) (strip_zeros ds) (Z.of_nat (length ds))
  end.

Unset Elimination Schemes.
Inductive value : Type :=
| JNull
| JBool (b : bool)
| JNumber (x : number)
| JString (s : jsstring)
| JArray (elements : list value)
| JObject (members : list (jsstring * value)).
Set Elimination Schemes.

(** Structural induction through the element and member lists. *)
Section value_ind.
Variable P : value -> Prop.
Hypothesis HNull : P JNull.
Hypothesis HBool : forall b, P (JBool b).
Hypothesis HNumber : forall x, P (JNumber x).
Hypothesis HString : forall s, P (JString s).
Hypothesis HArray : forall l, Forall P l -> P (JArray l).
Hypothesis HObject : forall l, Forall (fun kv => P (snd kv)) l -> P (JObject l).

Fixpoint value_ind (v : value) : P v :=
  match v with
  | JNull => HNull
  | JBool b => HBool b
  | JNumber x => HNumber x
  | JString s => HString s
  | JArray l =>
    HArray ((fix all (l : list value) : Forall P l :=
               match l with
               | [] => Forall_nil _
               | x :: r => Forall_cons x (value_ind x) (all r)
               end) l)
  | JObject l =>
    HObject ((fix all (l : list (jsstring * value))
               : Forall (fun kv => P (snd kv)) l :=
                match l with
                | [] => Forall_nil _
                | kv :: r => Forall_cons kv (value_ind (snd kv)) (all r)
                end) l)
  end.
End value_ind.

(* ----------------------------------------------------------------- *)
(** ** Property keys *)

(** An array index is a canonical numeric string below 2^32 - 1:
    [ToString(ToUint32(k)) = k]. *)
Definition array_index (k : jsstring) : option N :=
  match k with
  | [] => None
  | _ :: _ =>
    if forallb is_digit k then
      let n := N_of_digits (map digit_val k) in
      if (JS.eqb (N_toString n) k && N.leb n 4294967294)%bool
      then Some n else None
    else None
  end.

(** [precedes k k'] : a new key [k] is enumerated before the existing key
    [k'] (OrdinaryOwnPropertyKeys: array indices in ascending order, then
    the other keys in creation order). *)
Definition precedes (k k' : jsstring) : bool :=
  match array_index k, array_index k' with
  | Some i, Some j => N.ltb i j
  | Some _, None => true
  | None, _ => false
  end.

Section Properties.
Variable V : Type.

Fixpoint has_key (k : jsstring) (o : list (jsstring * V)) : bool :=
  match o with
  | [] => false
  | (k', _) :: r => (JS.eqb k' k || has_key k r)%bool
  end.

Fixpoint replace_key (k : jsstring) (v : V) (o : list (jsstring * V))
  : list (jsstring * V) :=
  match o with
  | [] => []
  | (k', v') :: r =>
    if JS.eqb k' k then (k', v) :: r else (k', v') :: replace_key k v r
  end.

Fixpoint add_key (k : jsstring) (v : V) (o : list (jsstring * V))
  : list (jsstring * V) :=
  match o with
  | [] => [(k, v)]
  | (k', v') :: r =>
    if precedes k k' then (k, v) :: o else (k', v') :: add_key k v r
  end.

(** CreateDataProperty on an object whose properties are listed in
    enumeration order. *)
Definition set_property (o : list (jsstring * V)) (k : jsstring) (v : V)
  : list (jsstring * V) :=
  if has_key k o then replace_key k v o else add_key k v o.
End Properties.

(** The keys are listed in enumeration order, each once: no later key is
    equal to an earlier one or would be enumerated before it. *)
Fixpoint keys_ok (ks : list jsstring) : bool :=
  match ks with
  | [] => true
  | k :: r =>
    (forallb (fun k' => negb (JS.eqb k k') && negb (precedes k' k)) r
     && keys_ok r)%bool
  end.

(** The values [JSON.parse] can produce. *)
Fixpoint value_ok (v : value) : bool :=
  match v with
  | JNull | JBool _ | JString _ => true
  | JNumber x => number_ok x
  | JArray l => forallb value_ok l
  | JObject l =>
    (keys_ok (map fst l) && forallb (fun kv => value_ok (snd kv)) l)%bool
  end.

(* ----------------------------------------------------------------- *)
(** ** [JSON.stringify(value, null, space)] *)

Definition zeros (n : nat) : jsstring := repeat (ch "0") n.

(** Number::toString, radix 10. *)
Definition Number_toString (x : number) : jsstring :=
  match digits x with
  | [] => lit "0"
  | d1 :: ds =>
    let s := map digit_char (d1 :: ds) in
    let k := Z.of_nat (List.length s) in
    let n := point x in
    (if negative x then lit "-" else []) ++
    (if ((k <=? n) && (n <=? 21))%Z then
       s ++ zeros (Z.to_nat (n - k))
     else if ((0 <? n) && (n <=? 21))%Z then
       firstn (Z.to_nat n) s ++ lit "." ++ skipn (Z.to_nat n) s
     else if ((-6 <? n) && (n <=? 0))%Z then
       lit "0." ++ zeros (Z.to_nat (- n)) ++ s
     else
       let e := (n - 1)%Z in
       let expo := (if (e <? 0)%Z then lit "-" else lit "+")
                   ++ N_toString (Z.abs_N e) in
       match ds with
       | [] => [digit_char d1] ++ lit "e" ++ expo
       | _ :: _ =>
         [digit_char d1] ++ lit "." ++ map digit_char ds ++ lit "e" ++ expo
       end)
  end.

Definition is_high_surrogate (c : char) : bool :=
  (N.leb 55296 c && N.leb c 56319)%bool.
Definition is_low_surrogate (c : char) : bool :=
  (N.leb 56320 c && N.leb c 57343)%bool.

Definition hex_digit (d : N) : char :=
  if N.ltb d 10 then (d + 48)%N else (d + 87)%N.

(** UnicodeEscape: a backslash, [u] and four lowercase hexadecimal digits. *)
Definition unicode_escape (c : char) : jsstring :=
  [92; 117;
   hex_digit (c / 4096); hex_digit ((c / 256) mod 16);
   hex_digit ((c / 16) mod 16); hex_digit (c mod 16)]%N.

(** One code unit that is not the first half of a surrogate pair. *)
Definition quote_unit (c : char) : jsstring :=
  if N.eqb c 8 then [92; 98]%N
  else if N.eqb c 9 then [92; 116]%N
  else if N.eqb c 10 then [92; 110]%N
  else if N.eqb c 12 then [92; 102]%N
  else if N.eqb c 13 then [92; 114]%N
  else if N.eqb c 34 then [92; 34]%N
  else if N.eqb c 92 then [92; 92]%N
  else if (N.ltb c 32 || is_high_surrogate c || is_low_surrogate c)%bool
  then unicode_escape c
  else [c].

Fixpoint quote_units (s : jsstring) : jsstring :=
  match s with
  | [] => []
  | c :: r =>
    if is_high_surrogate c then
      match r with
      | d :: r' =>
        if is_low_surrogate d then c :: d :: quote_units r'
        else quote_unit c ++ quote_units r
      | [] => quote_unit c
      end
    else quote_unit c ++ quote_units r
  end.

(** QuoteJSONString. *)
Definition quote (s : jsstring) : jsstring :=
  [34%N] ++ quote_units s ++ [34%N].

(** SerializeJSONProperty with the current indentation; [gap] is the
    indentation unit.  With an empty gap no line break is produced. *)
Fixpoint serialize (gap indent : jsstring) (v : value) : jsstring :=
  match v with
  | JNull => lit "null"
  | JBool true => lit "true"
  | JBool false => lit "false"
  | JNumber x => Number_toString x
  | JString s => quote s
  | JArray [] => lit "[]"
  | JArray ((_ :: _) as l) =>
    let stepback := indent in
    let indent := indent ++ gap in
    let partial := map (serialize gap indent) l in
    match gap with
    | [] => lit "[" ++ join (lit ",") partial ++ lit "]"
    | _ :: _ =>
      let separator := lit "," ++ [10%N] ++ indent in
      lit "[" ++ [10%N] ++ indent ++ join separator partial
        ++ [10%N] ++ stepback ++ lit "]"
    end
  | JObject [] => lit "{}"
  | JObject ((_ :: _) as l) =>
    let stepback := indent in
    let indent := indent ++ gap in
    let partial :=
      map (fun kv =>
             quote (fst kv) ++ lit ":"
               ++ match gap with [] => [] | _ :: _ => lit " " end
               ++ serialize gap indent (snd kv)) l in
    match gap with
    | [] => lit "{" ++ join (lit ",") partial ++ lit "}"
    | _ :: _ =>
      let separator := lit "," ++ [10%N] ++ indent in
      lit "{" ++ [10%N] ++ indent ++ join separator partial
        ++ [10%N] ++ stepback ++ lit "}"
    end
  end.

(** [JSON.stringify(value, null, space)] for a numeric [space]: the gap is
    [min(10, space)] spaces. *)
Definition stringify (v : value) (space : nat) : jsstring :=
  serialize (repeat 32%N (Nat.min 10 space)) [] v.

(* ----------------------------------------------------------------- *)
(** ** [JSON.parse(text)] *)

(** JSON whitespace: tab, line feed, carriage return, space. *)
Definition is_ws (c : char) : bool :=
  (N.eqb c 9 || N.eqb c 10 || N.eqb c 13 || N.eqb c 32)%bool.

Fixpoint skip_ws (s : jsstring) : jsstring :=
  match s with
  | [] => []
  | c :: r => if is_ws c then skip_ws r else s
  end.

(** [expect p s] : [s] without its prefix [p]. *)
Fixpoint expect (p s : jsstring) : option jsstring :=
  match p, s with
  | [], _ => Some s
  | a :: p', b :: s' => if char_eqb a b then expect p' s' else None
  | _ :: _, [] => None
  end.

(** The number denoted by the digits [ds] with the decimal point after
    the first [p] of them: leading and trailing zeros are dropped. *)
Definition normalize (neg : bool) (ds : list N) (p : Z) : number :=
  let (lead, ds') := drop_zeros ds in
  match strip_zeros ds' with
  | [] => zero
  | sig => Number neg sig (p - Z.of_nat lead)
  end.

(** The optional exponent part of a numeral. *)
Definition parse_exponent (s : jsstring) : option (Z * jsstring) :=
  match s with
  | c :: r =>
    if (N.eqb c 101 || N.eqb c 69)%bool then
      let (sign, r1) :=
        match r with
        | c' :: r' =>
          if N.eqb c' 45 then (true, r')
          else if N.eqb c' 43 then (false, r')
          else (false, r)
        | [] => (false, r)
        end in
      match span_digits r1 with
      | ([], _) => None
      | (ds, rest) =>
        let e := Z.of_N (N_of_digits ds) in
        Some (if sign then (- e)%Z else e, rest)
      end
    else Some (0%Z, s)
  | [] => Some (0%Z, s)
  end.

(** The optional fraction part of a numeral. *)
Definition parse_fraction (s : jsstring) : option (list N * jsstring) :=
  match s with
  | c :: r =>
    if N.eqb c 46 then
      match span_digits r with
      | ([], _) => None
      | (ds, rest) => Some (ds, rest)
      end
    else Some ([], s)
  | [] => Some ([], s)
  end.

(** The optional minus sign of a numeral. *)
Definition parse_sign (s : jsstring) : bool * jsstring :=
  match s with
  | c :: r => if N.eqb c 45 then (true, r) else (false, s)
  | [] => (false, s)
  end.

(** The integer part of a numeral: a single 0, or a digit other than 0
    followed by digits. *)
Definition parse_int_part (s : jsstring) : option (list N * jsstring) :=
  match s with
  | c :: r =>
    if N.eqb c 48 then Some ([0%N], r)
    else if is_digit c then Some (span_digits s)
    else None
  | [] => None
  end.

(** JSON numeral: sign, integer part, fraction, exponent. *)
Definition parse_number (s : jsstring) : option (number * jsstring) :=
  let (neg, s1) := parse_sign s in
  match parse_int_part s1 with
  | None => None
  | Some (ipart, s2) =>
    match parse_fraction s2 with
    | None => None
    | Some (fpart, s3) =>
      match parse_exponent s3 with
      | None => None
      | Some (e, s4) =>
        Some (normalize neg (ipart ++ fpart)
                (Z.of_nat (List.length ipart) + e), s4)
      end
    end
  end.

Definition hex_val (c : char) : option N :=
  if is_digit c then Some (c - 48)%N
  else if (N.leb 97 c && N.leb c 102)%bool then Some (c - 87)%N
  else if (N.leb 65 c && N.leb c 70)%bool then Some (c - 55)%N
  else None.

Definition hex4 (a b c d : char) : option char :=
  match hex_val a, hex_val b, hex_val c, hex_val d with
  | Some x, Some y, Some z, Some w => Some (x * 4096 + y * 256 + z * 16 + w)%N
  | _, _, _, _ => None
  end.

(** The code unit of a single-character escape. *)
Definition simple_escape (e : char) : option char :=
  if N.eqb e 34 then Some 34%N
  else if N.eqb e 92 then Some 92%N
  else if N.eqb e 47 then Some 47%N
  else if N.eqb e 98 then Some 8%N
  else if N.eqb e 102 then Some 12%N
  else if N.eqb e 110 then Some 10%N
  else if N.eqb e 114 then Some 13%N
  else if N.eqb e 116 then Some 9%N
  else None.

Definition cons_result (c : char) (r : option (jsstring * jsstring))
  : option (jsstring * jsstring) :=
  match r with
  | Some (s, rest) => Some (c :: s, rest)
  | None => None
  end.

(** The characters of a string literal after its opening quote, up to and
    including the closing quote. *)
Fixpoint parse_string (s : jsstring) : option (jsstring * jsstring) :=
  match s with
  | [] => None
  | c :: r =>
    if N.eqb c 34 then Some ([], r)
    else if N.eqb c 92 then
      match r with
      | [] => None
      | e :: r1 =>
        if N.eqb e 117 then
          match r1 with
          | h1 :: h2 :: h3 :: h4 :: r2 =>
            match hex4 h1 h2 h3 h4 with
            | Some u => cons_result u (parse_string r2)
            | None => None
            end
          | _ => None
          end
        else
          match simple_escape e with
          | Some u => cons_result u (parse_string r1)
          | None => None
          end
      end
    else if N.ltb c 32 then None
    else cons_result c (parse_string r)
  end.

(** Recursive descent; [fuel] bounds the depth of the calls. *)
Fixpoint parse_value (fuel : nat) (s : jsstring) {struct fuel}
  : option (value * jsstring) :=
  match fuel with
  | O => None
  | S f =>
    match skip_ws s with
    | [] => None
    | c :: r =>
      if N.eqb c 123 then
        match skip_ws r with
        | c' :: r' =>
          if N.eqb c' 125 then Some (JObject [], r')
          else match parse_members f [] (c' :: r') with
               | Some (o, rest) => Some (JObject o, rest)
               | None => None
               end
        | [] => None
        end
      else if N.eqb c 91 then
        match skip_ws r with
        | c' :: r' =>
          if N.eqb c' 93 then Some (JArray [], r')
          else match parse_elements f (c' :: r') with
               | Some (l, rest) => Some (JArray l, rest)
               | None => None
               end
        | [] => None
        end
      else if N.eqb c 34 then
        match parse_string r with
        | Some (str, rest) => Some (JString str, rest)
        | None => None
        end
      else if N.eqb c 110 then
        match expect (lit "ull") r with
        | Some rest => Some (JNull, rest)
        | None => None
        end
      else if N.eqb c 116 then
        match expect (lit "rue") r with
        | Some rest => Some (JBool true, rest)
        | None => None
        end
      else if N.eqb c 102 then
        match expect (lit "alse") r with
        | Some rest => Some (JBool false, rest)
        | None => None
        end
      else
        match parse_number (c :: r) with
        | Some (x, rest) => Some (JNumber x, rest)
        | None => None
        end
    end
  end

(* The elements of a non-empty array, up to and including the bracket. *)
with parse_elements (fuel : nat) (s : jsstring) {struct fuel}
  : option (list value * jsstring) :=
  match fuel with
  | O => None
  | S f =>
    match parse_value f s with
    | None => None
    | Some (v, r) =>
      match skip_ws r with
      | c :: r' =>
        if N.eqb c 44 then
          match parse_elements f r' with
          | Some (l, rest) => Some (v :: l, rest)
          | None => None
          end
        else if N.eqb c 93 then Some ([v], r')
        else None
      | [] => None
      end
    end
  end

(* The members of a non-empty object, added to [acc] in source order, up
   to and including the brace. *)
with parse_members (fuel : nat) (acc : list (jsstring * value))
                   (s : jsstring) {struct fuel}
  : option (list (jsstring * value) * jsstring) :=
  match fuel with
  | O => None
  | S f =>
    match skip_ws s with
    | c :: r =>
      if N.eqb c 34 then
        match parse_string r with
        | None => None
        | Some (k, r1) =>
          match skip_ws r1 with
          | c1 :: r2 =>
            if N.eqb c1 58 then
              match parse_value f r2 with
              | None => None
              | Some (v, r3) =>
                let acc' := set_property acc k v in
                match skip_ws r3 with
                | c3 :: r4 =>
                  if N.eqb c3 44 then parse_members f acc' r4
                  else if N.eqb c3 125 then Some (acc', r4)
                  else None
                | [] => None
                end
              end
            else None
          | [] => None
          end
        end
      else None
    | [] => None
    end
  end.

(** [JSON.parse(text)]; [None] stands for the SyntaxError it throws. *)
Definition parse (text : jsstring) : option value :=
  match parse_value (2 * List.length text + 2) text with
  | Some (v, rest) =>
    match skip_ws rest with
    | [] => Some v
    | _ :: _ => None
    end
  | None => None
  end.

End JSON.

Import JSON.

(* ----------------------------------------------------------------- *)
(** ** The shape of serialized text *)

Module JSONText.

Definition small (ds : list N) : Prop := Forall (fun d => (d < 10)%N) ds.

(** A text that does not continue a run of digits. *)
Definition no_digit_ahead (s : jsstring) : Prop :=
  match s with
  | [] => True
  | c :: _ => is_digit c = false
  end.

(** A text that does not continue a numeral. *)
Definition ends_numeral (s : jsstring) : Prop :=
  match s with
  | [] => True
  | c :: _ => is_digit c = false /\ c <> 46%N /\ c <> 101%N /\ c <> 69%N
  end.

Definition ws_only (w : jsstring) : Prop := Forall (fun c => is_ws c = true) w.

(** The line break and indentation [serialize] puts before an element
    (none when the gap is empty). *)
Definition pad (gap indent : jsstring) : jsstring :=
  match gap with
  | [] => []
  | _ :: _ => 10%N :: indent
  end.

(** The text of one member. *)
Definition member_text (gap indent : jsstring) (kv : jsstring * value)
  : jsstring :=
  quote (fst kv) ++ lit ":" ++ match gap with [] => [] | _ :: _ => lit " " end
    ++ serialize gap indent (snd kv).

(** The first character of a serialized value is visible and closes
    neither an array nor an object. *)
Definition opens (s : jsstring) : Prop :=
  exists c r, s = c :: r /\ is_ws c = false /\ c <> 93%N /\ c <> 125%N.

(** [reads gap indent v] : the text of [v] is read back as [v], whatever
    follows it, with fuel at least twice its length. *)
Definition reads (gap indent : jsstring) (v : value) : Prop :=
  forall rest fuel,
    ends_numeral rest ->
    2 * List.length (serialize gap indent v) <= fuel ->
    parse_value fuel (serialize gap indent v ++ rest) = Some (v, rest).

Definition fresh (k : jsstring) (ks : list jsstring) : Prop :=
  Forall (fun k0 => JS.eqb k0 k = false /\ precedes k k0 = false) ks.

End JSONText.

Import JSONText.

(* ================================================================= *)
(** * The backend contract *)

Module Api.

Definition Id := jsstring.

(** SourceConfig, as the backend returns it. *)
Record Source : Type := {
  id : Id;
  name : jsstring;
  type : jsstring;
  url_base : jsstring;
  search_method : jsstring;
  config : JSON.value;
  enabled : bool
}.

Record ResultItem : Type := {
  item_name : jsstring;
  image : jsstring;
  price : jsstring;
  size : jsstring;
  producer : jsstring;
  release_date : jsstring;
  link : jsstring
}.

(** SearchResultGroup. *)
Record SearchResult : Type := {
  source_name : jsstring;
  error : option jsstring;
  items : list ResultItem
}.

Inductive Method : Type := GET | POST | PUT | DELETE.

(** One axios call: [axios.get(url)], [axios.post(url, body)], ... *)
Record Request : Type := {
  method : Method;
  url : jsstring;
  body : option JSON.value
}.

(** What a rejected promise carries. *)
Inductive Exn : Type := AxiosError (message : string).

(** The outcome of an axios call whose response data has type [X]. *)
Inductive Outcome (X : Type) : Type :=
| Resolved (data : X)
| Rejected (e : Exn).
Arguments Resolved {X} data.
Arguments Rejected {X} e.

End Api.

Import Api.

(* ================================================================= *)
(** * Handlers as programs *)

(** An event handler is a program over the component state [S]: it
    notifies the user (sonner's [toast]), writes to the console, calls a
    state setter, asks [window.confirm], awaits an axios call, or starts
    an async function without awaiting it.  The three [Await] forms differ
    in the response data the call site reads. *)
Module Handler.

Inductive ToastKind : Type := Error | Info | Success.

Inductive Proc (S A : Type) : Type :=
| Ret (a : A)
| Throw (e : Exn)
| Toast (k : ToastKind) (msg : string) (next : Proc S A)
| ConsoleError (msg : string) (e : Exn) (next : Proc S A)
| SetState (f : S -> S) (next : Proc S A)
| Confirm (msg : string) (next : bool -> Proc S A)
| AwaitSources (r : Request) (next : Outcome (list Source) -> Proc S A)
| AwaitResults (r : Request) (next : Outcome (list SearchResult) -> Proc S A)
| AwaitDone (r : Request) (next : Outcome unit -> Proc S A)
| Spawn (p : Proc S unit) (next : Proc S A).

Arguments Ret {S A} a.
Arguments Throw {S A} e.
Arguments Toast {S A} k msg next.
Arguments ConsoleError {S A} msg e next.
Arguments SetState {S A} f next.
Arguments Confirm {S A} msg next.
Arguments AwaitSources {S A} r next.
Arguments AwaitResults {S A} r next.
Arguments AwaitDone {S A} r next.
Arguments Spawn {S A} p next.

Fixpoint bind {S A B} (p : Proc S A) (f : A -> Proc S B) : Proc S B :=
  match p with
  | Ret a => f a
  | Throw e => Throw e
  | Toast k m n => Toast k m (bind n f)
  | ConsoleError m e n => ConsoleError m e (bind n f)
  | SetState g n => SetState g (bind n f)
  | Confirm m k => Confirm m (fun b => bind (k b) f)
  | AwaitSources r k => AwaitSources r (fun o => bind (k o) f)
  | AwaitResults r k => AwaitResults r (fun o => bind (k o) f)
  | AwaitDone r k => AwaitDone r (fun o => bind (k o) f)
  | Spawn q n => Spawn q (bind n f)
  end.

(** [try { p } catch (error) { h error }].  A program started without
    [await] keeps its own errors. *)
Fixpoint try_catch {S A} (p : Proc S A) (h : Exn -> Proc S A) : Proc S A :=
  match p with
  | Ret a => Ret a
  | Throw e => h e
  | Toast k m n => Toast k m (try_catch n h)
  | ConsoleError m e n => ConsoleError m e (try_catch n h)
  | SetState g n => SetState g (try_catch n h)
  | Confirm m k => Confirm m (fun b => try_catch (k b) h)
  | AwaitSources r k => AwaitSources r (fun o => try_catch (k o) h)
  | AwaitResults r k => AwaitResults r (fun o => try_catch (k o) h)
  | AwaitDone r k => AwaitDone r (fun o => try_catch (k o) h)
  | Spawn q n => Spawn q (try_catch n h)
  end.

(** [try { p } finally { c }]: [c] runs on both exits. *)
Fixpoint try_finally {S A} (p : Proc S A) (c : Proc S unit) : Proc S A :=
  match p with
  | Ret a => bind c (fun _ => Ret a)
  | Throw e => bind c (fun _ => Throw e)
  | Toast k m n => Toast k m (try_finally n c)
  | ConsoleError m e n => ConsoleError m e (try_finally n c)
  | SetState g n => SetState g (try_finally n c)
  | Confirm m k => Confirm m (fun b => try_finally (k b) c)
  | AwaitSources r k => AwaitSources r (fun o => try_finally (k o) c)
  | AwaitResults r k => AwaitResults r (fun o => try_finally (k o) c)
  | AwaitDone r k => AwaitDone r (fun o => try_finally (k o) c)
  | Spawn q n => Spawn q (try_finally n c)
  end.

Declare Scope proc_scope.
Delimit Scope proc_scope with proc.
Notation "x <- p ;; k" := (bind p (fun x => k))
  (at level 61, p at next level, right associativity) : proc_scope.
Notation "p ;; k" := (bind p (fun _ => k))
  (at level 61, right associativity) : proc_scope.

Section Primitives.
Context {S : Type}.

Definition toast_error (msg : string) : Proc S unit := Toast Error msg (Ret tt).
Definition toast_info (msg : string) : Proc S unit := Toast Info msg (Ret tt).
Definition toast_success (msg : string) : Proc S unit :=
  Toast Success msg (Ret tt).
Definition console_error (msg : string) (e : Exn) : Proc S unit :=
  ConsoleError msg e (Ret tt).
Definition set (f : S -> S) : Proc S unit := SetState f (Ret tt).
Definition window_confirm (msg : string) : Proc S bool :=
  Confirm msg (fun b => Ret b).
(** Calling an async function without [await]. *)
Definition call (p : Proc S unit) : Proc S unit := Spawn p (Ret tt).

(** An awaited promise: the data when it resolves, a throw when it
    rejects. *)
Definition settle {X} (o : Outcome X) : Proc S X :=
  match o with
  | Resolved d => Ret d
  | Rejected e => Throw e
  end.

Definition get_sources (u : jsstring) : Proc S (list Source) :=
  AwaitSources {| method := GET; url := u; body := None |} settle.
Definition post_search (u : jsstring) (b : JSON.value)
  : Proc S (list SearchResult) :=
  AwaitResults {| method := POST; url := u; body := Some b |} settle.
Definition axios_post (u : jsstring) (b : option JSON.value) : Proc S unit :=
  AwaitDone {| method := POST; url := u; body := b |} settle.
Definition axios_put (u : jsstring) (b : JSON.value) : Proc S unit :=
  AwaitDone {| method := PUT; url := u; body := Some b |} settle.
Definition axios_delete (u : jsstring) : Proc S unit :=
  AwaitDone {| method := DELETE; url := u; body := None |} settle.
End Primitives.

(* ----------------------------------------------------------------- *)
(** ** Running handlers *)

(** What the page does that can be observed from outside. *)
Inductive Obs : Type :=
| Toasted (k : ToastKind) (msg : string)
| Logged (msg : string) (e : Exn)
| Asked (msg : string) (answer : bool)
| Sent (r : Request).

(** A call that was sent and has not settled, with the rest of the async
    function that awaits it. *)
Inductive Pending (S : Type) : Type :=
| WaitSources (r : Request) (k : Outcome (list Source) -> Proc S unit)
| WaitResults (r : Request) (k : Outcome (list SearchResult) -> Proc S unit)
| WaitDone (r : Request) (k : Outcome unit -> Proc S unit).
Arguments WaitSources {S} r k.
Arguments WaitResults {S} r k.
Arguments WaitDone {S} r k.

Definition request_of {S} (p : Pending S) : Request :=
  match p with
  | WaitSources r _ | WaitResults r _ | WaitDone r _ => r
  end.

Record World (S : Type) : Type := {
  state : S;
  pending : list (Pending S);
  log : list Obs
}.
Arguments state {S} w.
Arguments pending {S} w.
Arguments log {S} w.

Section Run.
Context {S : Type}.

Definition observe (o : Obs) (w : World S) : World S :=
  {| state := state w; pending := pending w; log := log w ++ [o] |}.

Definition suspend (r : Request) (p : Pending S) (w : World S) : World S :=
  {| state := state w; pending := pending w ++ [p];
     log := log w ++ [Sent r] |}.

(** Run a program up to its end or its first [await]; [answer] is what
    the user replies to [window.confirm].  An awaited call is sent and
    the rest of the program waits for it. *)
Fixpoint exec (answer : bool) (p : Proc S unit) (w : World S) : World S :=
  match p with
  | Ret _ => w
  | Throw _ => w
  | Toast k m n => exec answer n (observe (Toasted k m) w)
  | ConsoleError m e n => exec answer n (observe (Logged m e) w)
  | SetState f n =>
    exec answer n
      {| state := f (state w); pending := pending w; log := log w |}
  | Confirm m k => exec answer (k answer) (observe (Asked m answer) w)
  | AwaitSources r k => suspend r (WaitSources r k) w
  | AwaitResults r k => suspend r (WaitResults r k) w
  | AwaitDone r k => suspend r (WaitDone r k) w
  | Spawn q n => exec answer n (exec answer q w)
  end.

(** How a pending call settles. *)
Inductive Reply : Type :=
| SourcesReply (o : Outcome (list Source))
| ResultsReply (o : Outcome (list SearchResult))
| DoneReply (o : Outcome unit).

Definition resume (p : Pending S) (rep : Reply) : option (Proc S unit) :=
  match p, rep with
  | WaitSources _ k, SourcesReply o => Some (k o)
  | WaitResults _ k, ResultsReply o => Some (k o)
  | WaitDone _ k, DoneReply o => Some (k o)
  | _, _ => None
  end.

Fixpoint remove_nth {X} (i : nat) (l : list X) : list X :=
  match i, l with
  | _, [] => []
  | O, _ :: r => r
  | Datatypes.S j, x :: r => x :: remove_nth j r
  end.

(** The [i]-th pending call settles with [rep]: the function awaiting it
    runs on.  Nothing happens when there is no such call or the reply is
    not of the kind the call site reads. *)
Definition settled (i : nat) (rep : Reply) (w : World S) : World S :=
  match nth_error (pending w) i with
  | Some p =>
    match resume p rep with
    | Some k =>
      exec false k
        {| state := state w; pending := remove_nth i (pending w);
           log := log w |}
    | None => w
    end
  | None => w
  end.
End Run.

End Handler.

Import Handler.

(* ================================================================= *)
(** * Home.jsx: the search page *)

Module Home.

Record State : Type := {
  query : jsstring;
  contentType : jsstring;
  sources : list Source;
  selectedSources : list Id;
  searching : bool;
  results : list SearchResult;
  hasSearched : bool
}.

(** The [useState] initial values. *)
Definition initial : State := {|
  query := [];
  contentType := lit "game";
  sources := [];
  selectedSources := [];
  searching := false;
  results := [];
  hasSearched := false
|}.

Definition setQuery (v : jsstring) (st : State) : State :=
  {| query := v; contentType := contentType st; sources := sources st;
     selectedSources := selectedSources st; searching := searching st;
     results := results st; hasSearched := hasSearched st |}.
Definition setContentType (v : jsstring) (st : State) : State :=
  {| query := query st; contentType := v; sources := sources st;
     selectedSources := selectedSources st; searching := searching st;
     results := results st; hasSearched := hasSearched st |}.
Definition setSources (v : list Source) (st : State) : State :=
  {| query := query st; contentType := contentType st; sources := v;
     selectedSources := selectedSources st; searching := searching st;
     results := results st; hasSearched := hasSearched st |}.
Definition setSelectedSources (f : list Id -> list Id) (st : State) : State :=
  {| query := query st; contentType := contentType st; sources := sources st;
     selectedSources := f (selectedSources st); searching := searching st;
     results := results st; hasSearched := hasSearched st |}.
Definition setSearching (v : bool) (st : State) : State :=
  {| query := query st; contentType := contentType st; sources := sources st;
     selectedSources := selectedSources st; searching := v;
     results := results st; hasSearched := hasSearched st |}.
Definition setResults (v : list SearchResult) (st : State) : State :=
  {| query := query st; contentType := contentType st; sources := sources st;
     selectedSources := selectedSources st; searching := searching st;
     results := v; hasSearched := hasSearched st |}.
Definition setHasSearched (v : bool) (st : State) : State :=
  {| query := query st; contentType := contentType st; sources := sources st;
     selectedSources := selectedSources st; searching := searching st;
     results := results st; hasSearched := v |}.

(** [prev.includes(sourceId)]. *)
Definition includes (sourceId : Id) (prev : list Id) : bool :=
  existsb (JS.eqb sourceId) prev.

(** The updater [toggleSource] hands to [setSelectedSources]. *)
Definition toggled (sourceId : Id) (prev : list Id) : list Id :=
  if includes sourceId prev
  then filter (fun id => negb (JS.eqb id sourceId)) prev
  else prev ++ [sourceId].

(** The body of the POST /search call. *)
Definition search_body (q t : jsstring) (ids : list Id) : JSON.value :=
  JObject [(lit "query", JString q);
           (lit "type", JString t);
           (lit "source_ids", JArray (map JString ids))].

Section Handlers.
(** [process.env.REACT_APP_BACKEND_URL]. *)
Variable BACKEND_URL : jsstring.

Definition API : jsstring := BACKEND_URL ++ lit "/api".

Local Open Scope proc_scope.

(** A handler reads the state of the render that created it ([st]) and
    writes through the setters. *)
Definition loadSources (st : State) : Proc State unit :=
  try_catch
    (data <- get_sources (API ++ lit "/sources/by-type/" ++ contentType st) ;;
     set (setSources data) ;;
     set (setSelectedSources (fun _ => map id data)))
    (fun error =>
       console_error "Error loading sources:" error ;;
       toast_error "Erro ao carregar fontes").

Definition toggleSource (sourceId : Id) : Proc State unit :=
  set (setSelectedSources (toggled sourceId)).

Definition handleSearch (st : State) : Proc State unit :=
  if negb (truthy (trim (query st))) then
    toast_error "Digite algo para buscar"
  else if Nat.eqb (List.length (selectedSources st)) 0 then
    toast_error "Selecione ao menos uma fonte"
  else
    set (setSearching true) ;;
    set (setHasSearched true) ;;
    try_finally
      (try_catch
         (data <- post_search (API ++ lit "/search")
                    (search_body (trim (query st)) (contentType st)
                                 (selectedSources st)) ;;
          set (setResults data) ;;
          if forallb (fun r => Nat.eqb (List.length (items r)) 0) data
          then toast_info "Nenhum resultado encontrado"
          else Ret tt)
         (fun error =>
            console_error "Search error:" error ;;
            toast_error "Erro ao realizar busca"))
      (set (setSearching false)).

Definition handleKeyPress (key : jsstring) (st : State) : Proc State unit :=
  if JS.eqb key (lit "Enter") then call (handleSearch st) else Ret tt.

(* --------------------------------------------------------------- *)
(** ** The page as a transition system *)

(** What can happen to the page: the user acts on one of its controls,
    or a pending call settles. *)
Inductive Event : Type :=
| InputChanged (value : jsstring)        (* search-input onChange *)
| InputKeyPressed (key : jsstring)       (* search-input onKeyPress *)
| ButtonClicked                          (* search-button onClick *)
| TypeSelected (value : jsstring)        (* content-type-select *)
| SourceClicked (sourceId : Id)          (* a source row or its checkbox *)
| Settled (i : nat) (rep : Reply).

(** The first render: [useEffect(..., [contentType])] runs its effect. *)
Definition mount : World State :=
  exec false (call (loadSources initial))
    {| state := initial; pending := []; log := [] |}.

(** The program an event runs in state [st].  The search button is
    rendered with [disabled={searching}], and a disabled button does not
    fire [onClick]; the effect on [contentType] runs again when a render
    sees a changed value. *)
Definition on_event (ev : Event) (st : State) : Proc State unit :=
  match ev with
  | InputChanged v => set (setQuery v)
  | InputKeyPressed key => handleKeyPress key st
  | ButtonClicked => if searching st then Ret tt else call (handleSearch st)
  | TypeSelected v =>
    set (setContentType v) ;;
    if JS.eqb v (contentType st) then Ret tt
    else call (loadSources (setContentType v st))
  | SourceClicked sourceId => toggleSource sourceId
  | Settled _ _ => Ret tt
  end.

Definition step (ev : Event) (w : World State) : World State :=
  match ev with
  | Settled i rep => settled i rep w
  | _ => exec false (on_event ev (state w)) w
  end.

Definition run (evs : list Event) : World State :=
  fold_left (fun w ev => step ev w) evs mount.
(** The POST /search call for the state [st]. *)
Definition search_request (st : State) : Request :=
  {| method := POST; url := API ++ lit "/search";
     body := Some (search_body (trim (query st)) (contentType st)
                               (selectedSources st)) |}.
End Handlers.

End Home.

(* ================================================================= *)
(** * Admin.jsx: the source administration page *)

Module Admin.

(** The draft edited in the dialog; [config] is the text of the textarea. *)
Record FormData : Type := {
  name : jsstring;
  type : jsstring;
  url_base : jsstring;
  search_method : jsstring;
  config : jsstring;
  enabled : bool
}.

Record State : Type := {
  sources : list Source;
  loading : bool;
  dialogOpen : bool;
  editingSource : option Source;
  formData : FormData
}.

Definition emptyForm : FormData := {|
  name := [];
  type := lit "game";
  url_base := [];
  search_method := lit "scraping";
  config := lit "{}";
  enabled := true
|}.

(** The [useState] initial values. *)
Definition initial : State := {|
  sources := [];
  loading := true;
  dialogOpen := false;
  editingSource := None;
  formData := emptyForm
|}.

Definition setSources (v : list Source) (st : State) : State :=
  {| sources := v; loading := loading st; dialogOpen := dialogOpen st;
     editingSource := editingSource st; formData := formData st |}.
Definition setLoading (v : bool) (st : State) : State :=
  {| sources := sources st; loading := v; dialogOpen := dialogOpen st;
     editingSource := editingSource st; formData := formData st |}.
Definition setDialogOpen (v : bool) (st : State) : State :=
  {| sources := sources st; loading := loading st; dialogOpen := v;
     editingSource := editingSource st; formData := formData st |}.
Definition setEditingSource (v : option Source) (st : State) : State :=
  {| sources := sources st; loading := loading st;
     dialogOpen := dialogOpen st; editingSource := v;
     formData := formData st |}.
Definition setFormData (v : FormData) (st : State) : State :=
  {| sources := sources st; loading := loading st;
     dialogOpen := dialogOpen st; editingSource := editingSource st;
     formData := v |}.

(** [{ ...formData, config: configObj }] as the JSON body axios sends. *)
Definition draft_body (fd : FormData) (configObj : JSON.value) : JSON.value :=
  JObject [(lit "name", JString (name fd));
           (lit "type", JString (type fd));
           (lit "url_base", JString (url_base fd));
           (lit "search_method", JString (search_method fd));
           (lit "config", configObj);
           (lit "enabled", JBool (enabled fd))].

(** [{ enabled: !source.enabled }]. *)
Definition toggle_body (source : Source) : JSON.value :=
  JObject [(lit "enabled", JBool (negb (Api.enabled source)))].

(** The form [handleEdit] fills in for a source. *)
Definition form_of (source : Source) : FormData := {|
  name := Api.name source;
  type := Api.type source;
  url_base := Api.url_base source;
  search_method := Api.search_method source;
  config := JSON.stringify (Api.config source) 2;
  enabled := Api.enabled source
|}.

Section Handlers.
(** [process.env.REACT_APP_BACKEND_URL]. *)
Variable BACKEND_URL : jsstring.

Definition API : jsstring := BACKEND_URL ++ lit "/api".

Local Open Scope proc_scope.

Definition seedDatabase : Proc State unit :=
  try_catch
    (axios_post (API ++ lit "/seed") None)
    (fun error => console_error "Error seeding:" error).

Definition loadSources : Proc State unit :=
  try_finally
    (try_catch
       (data <- get_sources (API ++ lit "/sources") ;;
        set (setSources data))
       (fun error =>
          console_error "Error loading sources:" error ;;
          toast_error "Erro ao carregar fontes"))
    (set (setLoading false)).

Definition resetForm : Proc State unit :=
  set (setEditingSource None) ;;
  set (setFormData emptyForm).

(** The inner [try] around [JSON.parse] returns from the handler when
    the text does not parse. *)
Definition handleSubmit (st : State) : Proc State unit :=
  try_catch
    (match JSON.parse (config (formData st)) with
     | None => toast_error "Configuração JSON inválida"
     | Some configObj =>
       let data := draft_body (formData st) configObj in
       match editingSource st with
       | Some editing =>
         axios_put (API ++ lit "/sources/" ++ id editing) data ;;
         toast_success "Fonte atualizada com sucesso"
       | None =>
         axios_post (API ++ lit "/sources") (Some data) ;;
         toast_success "Fonte criada com sucesso"
       end ;;
       set (setDialogOpen false) ;;
       resetForm ;;
       call loadSources
     end)
    (fun error =>
       console_error "Error saving source:" error ;;
       toast_error "Erro ao salvar fonte").

Definition handleEdit (source : Source) : Proc State unit :=
  set (setEditingSource (Some source)) ;;
  set (setFormData (form_of source)) ;;
  set (setDialogOpen true).

Definition handleDelete (sourceId : Id) : Proc State unit :=
  ok <- window_confirm "Tem certeza que deseja excluir esta fonte?" ;;
  if negb ok then Ret tt
  else
    try_catch
      (axios_delete (API ++ lit "/sources/" ++ sourceId) ;;
       toast_success "Fonte excluída com sucesso" ;;
       call loadSources)
      (fun error =>
         console_error "Error deleting source:" error ;;
         toast_error "Erro ao excluir fonte").

Definition handleToggleEnabled (source : Source) : Proc State unit :=
  try_catch
    (axios_put (API ++ lit "/sources/" ++ id source) (toggle_body source) ;;
     call loadSources)
    (fun error =>
       console_error "Error toggling source:" error ;;
       toast_error "Erro ao atualizar fonte").

Definition handleDialogOpenChange (open : bool) : Proc State unit :=
  set (setDialogOpen open) ;;
  if negb open then resetForm else Ret tt.

(* --------------------------------------------------------------- *)
(** ** The page as a transition system *)

Inductive Field : Type :=
| NameField (v : jsstring)
| TypeField (v : jsstring)
| UrlField (v : jsstring)
| MethodField (v : jsstring)
| ConfigField (v : jsstring)
| EnabledField (v : bool).

(** [{ ...formData, field: value }]. *)
Definition with_field (fd : FormData) (f : Field) : FormData :=
  match f with
  | NameField v =>
    {| name := v; type := type fd; url_base := url_base fd;
       search_method := search_method fd; config := config fd;
       enabled := enabled fd |}
  | TypeField v =>
    {| name := name fd; type := v; url_base := url_base fd;
       search_method := search_method fd; config := config fd;
       enabled := enabled fd |}
  | UrlField v =>
    {| name := name fd; type := type fd; url_base := v;
       search_method := search_method fd; config := config fd;
       enabled := enabled fd |}
  | MethodField v =>
    {| name := name fd; type := type fd; url_base := url_base fd;
       search_method := v; config := config fd; enabled := enabled fd |}
  | ConfigField v =>
    {| name := name fd; type := type fd; url_base := url_base fd;
       search_method := search_method fd; config := v;
       enabled := enabled fd |}
  | EnabledField v =>
    {| name := name fd; type := type fd; url_base := url_base fd;
       search_method := search_method fd; config := config fd;
       enabled := v |}
  end.

Inductive Event : Type :=
| DialogToggled (open : bool)       (* add-source-button, cancel-button *)
| FieldChanged (f : Field)          (* the inputs of the dialog *)
| SaveClicked                       (* save-source-button *)
| EditClicked (source : Source)     (* edit-source-{id} *)
| DeleteClicked (sourceId : Id) (answer : bool)   (* delete-source-{id} *)
| SwitchToggled (source : Source)   (* the switch of a source row *)
| Settled (i : nat) (rep : Reply).

(** The first render: [useEffect(..., [])] runs its effect once. *)
Definition on_mount : Proc State unit :=
  call loadSources ;;
  call seedDatabase.

Definition mount : World State :=
  exec false on_mount {| state := initial; pending := []; log := [] |}.

Definition on_event (ev : Event) (st : State) : Proc State unit :=
  match ev with
  | DialogToggled open => handleDialogOpenChange open
  | FieldChanged f => set (setFormData (with_field (formData st) f))
  | SaveClicked => call (handleSubmit st)
  | EditClicked source => handleEdit source
  | DeleteClicked sourceId _ => call (handleDelete sourceId)
  | SwitchToggled source => call (handleToggleEnabled source)
  | Settled _ _ => Ret tt
  end.

Definition step (ev : Event) (w : World State) : World State :=
  match ev with
  | Settled i rep => settled i rep w
  | DeleteClicked _ answer => exec answer (on_event ev (state w)) w
  | _ => exec false (on_event ev (state w)) w
  end.

Definition run (evs : list Event) : World State :=
  fold_left (fun w ev => step ev w) evs mount.
(* --------------------------------------------------------------- *)
(** ** The calls of the page *)

Definition list_request : Request :=
  {| method := GET; url := API ++ lit "/sources"; body := None |}.
Definition seed_request : Request :=
  {| method := POST; url := API ++ lit "/seed"; body := None |}.
Definition create_request (b : JSON.value) : Request :=
  {| method := POST; url := API ++ lit "/sources"; body := Some b |}.
Definition update_request (sourceId : Id) (b : JSON.value) : Request :=
  {| method := PUT; url := API ++ lit "/sources/" ++ sourceId;
     body := Some b |}.
Definition delete_request (sourceId : Id) : Request :=
  {| method := DELETE; url := API ++ lit "/sources/" ++ sourceId;
     body := None |}.
Definition toggle_request (source : Source) : Request :=
  update_request (id source) (toggle_body source).

(** The call [handleSubmit] makes for a parsed config. *)
Definition submit_request (st : State) (configObj : JSON.value) : Request :=
  match editingSource st with
  | Some editing =>
    update_request (id editing) (draft_body (formData st) configObj)
  | None => create_request (draft_body (formData st) configObj)
  end.

(** The observation is a POST /seed call. *)
Definition is_seed (o : Obs) : bool :=
  match o with
  | Sent r =>
    match method r with
    | POST => JS.eqb (url r) (API ++ lit "/seed")
    | _ => false
    end
  | _ => false
  end.

(** How many times POST /seed was sent. *)
Definition seeds (l : list Obs) : nat := List.length (filter is_seed l).

(** A program that never sends POST /seed. *)
Inductive Seedless {S : Type} : Proc S unit -> Prop :=
| SL_Ret a : Seedless (Ret a)
| SL_Throw e : Seedless (Throw e)
| SL_Toast k m n : Seedless n -> Seedless (Toast k m n)
| SL_ConsoleError m e n : Seedless n -> Seedless (ConsoleError m e n)
| SL_SetState f n : Seedless n -> Seedless (SetState f n)
| SL_Confirm m k : (forall b, Seedless (k b)) -> Seedless (Confirm m k)
| SL_AwaitSources r k :
    is_seed (Sent r) = false -> (forall o, Seedless (k o)) ->
    Seedless (AwaitSources r k)
| SL_AwaitResults r k :
    is_seed (Sent r) = false -> (forall o, Seedless (k o)) ->
    Seedless (AwaitResults r k)
| SL_AwaitDone r k :
    is_seed (Sent r) = false -> (forall o, Seedless (k o)) ->
    Seedless (AwaitDone r k)
| SL_Spawn p n : Seedless p -> Seedless n -> Seedless (Spawn p n).

(** A waiting function that never sends POST /seed, however its call
    settles. *)
Definition seedless_pending {S : Type} (p : Pending S) : Prop :=
  forall rep k, resume p rep = Some k -> Seedless k.
End Handlers.

End Admin.

(* ================================================================= *)
(** * Sample data *)

Module Sample.

Definition backend : jsstring := lit "http://localhost:8001".

(** A source whose config is the object with the one member a: 1. *)
Definition steam : Source := {|
  id := lit "s1";
  name := lit "Steam";
  type := lit "game";
  url_base := lit "https://store.steampowered.com/search/?term={query}";
  search_method := lit "scraping";
  config := JObject [(lit "a", JNumber (of_Z 1))];
  enabled := true
|}.

(** The search page with a query typed, its sources loaded and a search
    started from the button. *)
Definition searching : list Home.Event :=
  [Home.InputChanged (lit "zelda");
   Home.Settled 0 (SourcesReply (Resolved [steam]));
   Home.ButtonClicked].

(** The search call of that page. *)
Definition zelda_request (BACKEND_URL : jsstring) : Request :=
  {| method := POST; url := Home.API BACKEND_URL ++ lit "/search";
     body := Some (Home.search_body (lit "zelda") (lit "game") [lit "s1"]) |}.

(** The admin page with a config text that is not JSON. *)
Definition broken_form : World Admin.State :=
  {| state := Admin.setFormData
                (Admin.with_field Admin.emptyForm
                   (Admin.ConfigField (lit "{invalid")))
                Admin.initial;
     pending := []; log := [] |}.

End Sample.

(* ================================================================= *)
(** * What a program can write and send *)

Module Frame.

Section Frame.
Context {S : Type}.

(** The state updates and the calls a page is allowed. *)
Variable writes : (S -> S) -> Prop.
Variable sends : Request -> Prop.

(** Every setter call of the program, on every path and after every
    await, is one of [writes], and every call it sends is one of
    [sends]. *)
Inductive Within : Proc S unit -> Prop :=
| W_Ret a : Within (Ret a)
| W_Throw e : Within (Throw e)
| W_Toast k m n : Within n -> Within (Toast k m n)
| W_ConsoleError m e n : Within n -> Within (ConsoleError m e n)
| W_SetState f n : writes f -> Within n -> Within (SetState f n)
| W_Confirm m k : (forall b, Within (k b)) -> Within (Confirm m k)
| W_AwaitSources r k :
    sends r -> (forall o, Within (k o)) -> Within (AwaitSources r k)
| W_AwaitResults r k :
    sends r -> (forall o, Within (k o)) -> Within (AwaitResults r k)
| W_AwaitDone r k :
    sends r -> (forall o, Within (k o)) -> Within (AwaitDone r k)
| W_Spawn p n : Within p -> Within n -> Within (Spawn p n).

(** A waiting function that stays within the bounds, however its call
    settles. *)
Definition within_pending (p : Pending S) : Prop :=
  forall rep k, resume p rep = Some k -> Within k.

(** A property of the state that every allowed update keeps. *)
Definition kept (Q : S -> Prop) : Prop :=
  forall f st, writes f -> Q st -> Q (f st).

(** An observation that is not a call, or is an allowed call. *)
Definition allowed (o : Obs) : Prop :=
  match o with
  | Sent r => sends r
  | _ => True
  end.
End Frame.

End Frame.

(* ================================================================= *)
(** * The search page: what stays true along its runs *)

Module HomeShape.
Import Home.

(** A function waiting for search results. *)
Definition is_search (p : Pending State) : bool :=
  match p with
  | WaitResults _ _ => true
  | _ => false
  end.

(** An update that does not hide the results section. *)
Definition keeps_results_shown (f : State -> State) : Prop :=
  forall st, hasSearched st = true -> hasSearched (f st) = true.

(** The query [c :: q] is what [trim] leaves of a query that is not
    blank. *)
Definition trimmed (c : char) (q : jsstring) : Prop :=
  is_whitespace c = false
  /\ is_whitespace (last (c :: q) c) = false
  /\ trim (c :: q) = c :: q.

Section Calls.
Variable BACKEND_URL : jsstring.

(** What the functions waiting on the search page do to the in-flight
    flag when their call settles: the one that awaits a source list
    leaves it alone, the one that awaits search results, which is a POST
    /search call, clears it, and neither sends anything. *)
Definition settles_flag (p : Pending State) : Prop :=
  match p with
  | WaitSources _ k =>
    forall o w, searching (state (exec false (k o) w)) = searching (state w)
                /\ pending (exec false (k o) w) = pending w
  | WaitResults r k =>
    method r = POST /\ url r = API BACKEND_URL ++ lit "/search"
    /\ forall o w, searching (state (exec false (k o) w)) = false
                   /\ pending (exec false (k o) w) = pending w
  | WaitDone _ _ => False
  end.

(** While the in-flight flag is set a search call is pending, and every
    waiting function treats the flag as [settles_flag] says. *)
Definition flag_backed (w : World State) : Prop :=
  (searching (state w) = true -> existsb is_search (pending w) = true)
  /\ Forall settles_flag (pending w).

(** The two calls of the search page: the source list of a type, and a
    search whose body holds a trimmed query, a type and at least one
    source id. *)
Definition home_call (r : Request) : Prop :=
  (method r = GET /\ body r = None
   /\ exists t, url r = API BACKEND_URL ++ lit "/sources/by-type/" ++ t)
  \/ (method r = POST /\ url r = API BACKEND_URL ++ lit "/search"
      /\ exists c q t ids,
          body r = Some (JObject
                           [(lit "query", JString (c :: q));
                            (lit "type", JString t);
                            (lit "source_ids", JArray (map JString ids))])
          /\ trimmed c q /\ ids <> []).

(** Only such calls were sent, and only functions that stay within the
    bounds of the page are waiting. *)
Definition home_bounded (w : World State) : Prop :=
  Forall (Frame.within_pending keeps_results_shown home_call) (pending w)
  /\ Forall (Frame.allowed home_call) (log w).
End Calls.

End HomeShape.

(* ================================================================= *)
(** * The administration page: what stays true along its runs *)

Module AdminShape.
Import Admin.

(** An update that does not bring the loading placeholder back. *)
Definition keeps_loaded (f : State -> State) : Prop :=
  forall st, loading st = false -> loading (f st) = false.

(** A call other than DELETE. *)
Definition not_delete (r : Request) : Prop := method r <> DELETE.

(** A DELETE call. *)
Definition is_delete (o : Obs) : bool :=
  match o with
  | Sent r => match method r with DELETE => true | _ => false end
  | _ => false
  end.

(** A confirmation dialog the user accepted. *)
Definition is_consent (o : option Obs) : bool :=
  match o with
  | Some (Asked _ true) => true
  | _ => false
  end.

(** In the log [l], read after the observation [prev], every DELETE call
    comes right after an accepted confirmation dialog. *)
Fixpoint deletes_confirmed (prev : option Obs) (l : list Obs) : bool :=
  match l with
  | [] => true
  | o :: r =>
    ((if is_delete o then is_consent prev else true)
     && deletes_confirmed (Some o) r)%bool
  end.

(** The last observation of [l], or [prev] when there is none. *)
Fixpoint last_seen (prev : option Obs) (l : list Obs) : option Obs :=
  match l with
  | [] => prev
  | o :: r => last_seen (Some o) r
  end.

(** Only functions that keep the page loaded and send no DELETE are
    waiting, and the DELETE calls of the log were confirmed. *)
Definition admin_bounded (w : World State) : Prop :=
  Forall (Frame.within_pending keeps_loaded not_delete) (pending w)
  /\ deletes_confirmed None (log w) = true.

End AdminShape.

(* ================================================================= *)
(** * The results section of the search page *)

(** What the search page renders below the form: one group per source
    result, and in a group one card per item.  Elements are kept with the
    data the JSX puts in them; styling is left out. *)
Module HomeView.

Import Home.

(** [list.map((x, idx) => f(x, idx))], the index counted from [i]. *)
Fixpoint map_from {A B : Type} (f : A -> N -> B) (i : N) (l : list A)
  : list B :=
  match l with
  | [] => []
  | x :: r => f x i :: map_from f (N.succ i) r
  end.

Definition map_indexed {A B : Type} (f : A -> N -> B) (l : list A) : list B :=
  map_from f 0 l.

(** [v !== 'N/A' && <p>... v ...</p>]. *)
Definition unless_NA (v : jsstring) : option jsstring :=
  if JS.eqb v (lit "N/A") then None else Some v.

Record Card : Type := {
  card_testid : jsstring;
  picture : option jsstring;        (* the [img] source, or the icon *)
  title : jsstring;
  price_line : option jsstring;
  size_line : option jsstring;
  producer_line : option jsstring;
  release_date_line : option jsstring;
  button_testid : jsstring;
  opens : jsstring                  (* [window.open(item.link, '_blank')] *)
}.

Definition card (idx : N) (item : ResultItem) (itemIdx : N) : Card := {|
  card_testid :=
    lit "result-card-" ++ N_toString idx ++ lit "-" ++ N_toString itemIdx;
  picture :=
    if (truthy (image item) && negb (JS.eqb (image item) (lit "N/A")))%bool
    then Some (image item) else None;
  title := item_name item;
  price_line := unless_NA (price item);
  size_line := unless_NA (size item);
  producer_line := unless_NA (producer item);
  release_date_line := unless_NA (release_date item);
  button_testid :=
    lit "view-button-" ++ N_toString idx ++ lit "-" ++ N_toString itemIdx;
  opens := link item
|}.

(** What a group shows under its heading. *)
Inductive Body : Type :=
| Grid (cards : list Card)
| NoneFound                 (* "Nenhum resultado encontrado nesta fonte" *)
| Blank.

Record Group : Type := {
  heading : jsstring;
  counter : nat;                    (* "(n resultados)" *)
  banner : option jsstring;         (* "Erro: ..." *)
  body : Body
}.

(** ToBoolean on [sourceResult.error]. *)
Definition failed (sourceResult : SearchResult) : bool :=
  match error sourceResult with
  | Some e => truthy e
  | None => false
  end.

Definition group (sourceResult : SearchResult) (idx : N) : Group := {|
  heading := source_name sourceResult;
  counter := List.length (items sourceResult);
  banner := if failed sourceResult then error sourceResult else None;
  body :=
    if Nat.ltb 0 (List.length (items sourceResult))
    then Grid (map_indexed (card idx) (items sourceResult))
    else if negb (failed sourceResult) then NoneFound else Blank
|}.

Definition groups (results : list SearchResult) : list Group :=
  map_indexed group results.

(** [hasSearched && <div> ... </div>]. *)
Definition results_section (st : State) : option (list Group) :=
  if hasSearched st then Some (groups (results st)) else None.

Definition cards_in (g : Group) : list Card :=
  match body g with
  | Grid cards => cards
  | _ => []
  end.

Definition all_cards (gs : list Group) : list Card := flat_map cards_in gs.

Definition is_nil {A : Type} (l : list A) : bool :=
  match l with [] => true | _ :: _ => false end.

End HomeView.

(* ================================================================= *)
(** * More concrete cases *)

Module Scenario.

(** The search form with a padded query and one source selected. *)
Definition typed : Home.State :=
  Home.setSelectedSources (fun _ => [lit "s1"])
    (Home.setQuery (lit " zelda ") Home.initial).

(** A search that fails after it was started from the button. *)
Definition failed_search : list Home.Event :=
  [Home.Settled 0 (ResultsReply (Rejected (AxiosError "Network Error")))].

(** The admin page once its list has arrived. *)
Definition listed : list Admin.Event :=
  [Admin.Settled 0 (SourcesReply (Resolved [Sample.steam]))].

Definition network_error : Exn := AxiosError "Network Error".

(** The search page right after a search was started from that form. *)
Definition searched : World Home.State :=
  exec false (Home.handleSearch Sample.backend typed)
    (Home.mount Sample.backend).

(** The admin page right after Save, after an accepted delete and after
    a switch was flipped. *)
Definition saving : World Admin.State :=
  Admin.step Sample.backend Admin.SaveClicked (Admin.mount Sample.backend).

Definition deleting : World Admin.State :=
  Admin.step Sample.backend (Admin.DeleteClicked (lit "s1") true)
    (Admin.mount Sample.backend).

Definition switching : World Admin.State :=
  Admin.step Sample.backend (Admin.SwitchToggled Sample.steam)
    (Admin.mount Sample.backend).

End Scenario.

Unset Implicit Arguments.

(* ================================================================= *)
(** * Facts about JavaScript strings *)

Module JSFacts.

Lemma eqb_eq (a b : jsstring) : JS.eqb a b = true <-> a = b.
Proof.
  revert b; induction a as [|x a IH]; intros [|y b]; simpl; split;
    try congruence; try reflexivity.
  - rewrite andb_true_iff. intros [Hxy Hab].
    apply N.eqb_eq in Hxy. apply IH in Hab. congruence.
  - intros E. injection E as -> ->. rewrite andb_true_iff. split.
    + apply N.eqb_refl.
    + now apply IH.
Qed.

Lemma eqb_refl (a : jsstring) : JS.eqb a a = true.
Proof. now apply eqb_eq. Qed.

Lemma eqb_neq (a b : jsstring) : JS.eqb a b = false <-> a <> b.
Proof.
  split.
  - intros H E. apply eqb_eq in E. congruence.
  - intros H. destruct (JS.eqb a b) eqn:E; [|reflexivity].
    apply eqb_eq in E. contradiction.
Qed.

Lemma trimStart_blank (s : jsstring) : blank s = true -> trimStart s = [].
Proof.
  induction s as [|c r IH]; simpl; [reflexivity|].
  rewrite andb_true_iff. intros [Hc Hr]. now rewrite Hc, IH.
Qed.

(** What [trimStart] leaves is empty or starts with a visible character. *)
Lemma trimStart_head (s : jsstring) :
  trimStart s = [] /\ blank s = true
  \/ exists c r, trimStart s = c :: r /\ is_whitespace c = false.
Proof.
  induction s as [|c r IH]; simpl.
  - now left.
  - destruct (is_whitespace c) eqn:Hc.
    + destruct IH as [[E B]|(c' & r' & E & Hc')].
      * left. now rewrite E, B.
      * right. exists c', r'. now split.
    + right. exists c, r. now split.
Qed.

Lemma blank_app (a b : jsstring) : blank (a ++ b) = (blank a && blank b)%bool.
Proof. apply forallb_app. Qed.

Lemma blank_rev (s : jsstring) : blank (rev s) = blank s.
Proof.
  induction s as [|c r IH]; [reflexivity|].
  simpl rev. rewrite blank_app, IH. simpl.
  rewrite andb_true_r. apply andb_comm.
Qed.

(** A string trims to the empty string exactly when it is blank. *)
Lemma trim_blank (s : jsstring) : trim s = [] <-> blank s = true.
Proof.
  unfold trim, trimEnd. split.
  - intros H.
    destruct (trimStart_head s) as [[_ B]|(c & r & E & Hc)]; [exact B|].
    rewrite E in H.
    assert (H1 : trimStart (rev (c :: r)) = []).
    { rewrite <- (rev_involutive (trimStart (rev (c :: r)))), H.
      reflexivity. }
    destruct (trimStart_head (rev (c :: r)))
      as [[_ B]|(c' & r' & E' & _)]; [|congruence].
    rewrite blank_rev in B. simpl in B. rewrite Hc in B. discriminate.
  - intros B. now rewrite (trimStart_blank _ B).
Qed.

Lemma truthy_trim (s : jsstring) : truthy (trim s) = negb (blank s).
Proof.
  destruct (blank s) eqn:B.
  - apply trim_blank in B. now rewrite B.
  - destruct (trim s) eqn:E; [|reflexivity].
    apply trim_blank in E. congruence.
Qed.

End JSFacts.

(* ================================================================= *)
(** * Numbers: reading back what Number::toString prints *)

Module NumberFacts.

Lemma digit_val_char (d : N) : digit_val (digit_char d) = d.
Proof. unfold digit_val, digit_char. lia. Qed.

Lemma is_digit_char (d : N) : (d < 10)%N -> is_digit (digit_char d) = true.
Proof.
  unfold is_digit, digit_char. intros H.
  apply andb_true_iff. split; apply N.leb_le; lia.
Qed.

Lemma span_digits_app (ds : list N) (rest : jsstring) :
  small ds -> no_digit_ahead rest ->
  span_digits (map digit_char ds ++ rest) = (ds, rest).
Proof.
  intros Hds Hrest. induction Hds as [|d ds Hd _ IH]; simpl.
  - destruct rest as [|c r]; [reflexivity|].
    simpl in Hrest. simpl. now rewrite Hrest.
  - now rewrite (is_digit_char d Hd), IH, digit_val_char.
Qed.

Lemma uint_of_digits_of_uint (u : Decimal.uint) :
  uint_of_digits (digits_of_uint u) = u.
Proof. induction u; simpl; congruence. Qed.

Lemma small_digits_of_uint (u : Decimal.uint) : small (digits_of_uint u).
Proof. induction u; simpl; constructor; (lia || assumption). Qed.

Lemma N_of_digits_of_N (n : N) : N_of_digits (digits_of_N n) = n.
Proof.
  unfold N_of_digits, digits_of_N.
  rewrite uint_of_digits_of_uint. apply DecimalN.Unsigned.of_to.
Qed.

Lemma small_digits_of_N (n : N) : small (digits_of_N n).
Proof. apply small_digits_of_uint. Qed.

Lemma digits_of_N_nonempty (n : N) : digits_of_N n <> [].
Proof.
  unfold digits_of_N. destruct n as [|p]; simpl; [discriminate|].
  pose proof (Unsigned.to_uint_nonnil p) as H.
  destruct (Pos.to_uint p); simpl; congruence.
Qed.

(** Reading back a printed natural number. *)
Lemma span_digits_N_toString (n : N) (rest : jsstring) :
  no_digit_ahead rest ->
  span_digits (N_toString n ++ rest) = (digits_of_N n, rest).
Proof. intros H. apply span_digits_app; [apply small_digits_of_N|exact H]. Qed.

Lemma zeros_map (m : nat) : zeros m = map digit_char (repeat 0%N m).
Proof. unfold zeros. now rewrite map_repeat. Qed.

Lemma small_repeat_0 (m : nat) : small (repeat 0%N m).
Proof. induction m; simpl; constructor; (lia || assumption). Qed.

Lemma drop_zeros_repeat (m : nat) (ds : list N) :
  (forall d r, ds = d :: r -> d <> 0%N) ->
  drop_zeros (repeat 0%N m ++ ds) = (m, ds).
Proof.
  intros H. induction m as [|m IH]; simpl.
  - destruct ds as [|d r]; [reflexivity|].
    simpl. specialize (H d r eq_refl).
    apply N.eqb_neq in H. now rewrite H.
  - now rewrite IH.
Qed.

Lemma strip_zeros_app (ds : list N) (m : nat) :
  ds <> [] -> last ds 0%N <> 0%N ->
  strip_zeros (ds ++ repeat 0%N m) = ds.
Proof.
  intros Hne Hlast. unfold strip_zeros.
  rewrite rev_app_distr, rev_repeat.
  rewrite drop_zeros_repeat.
  - simpl. apply rev_involutive.
  - intros d r E.
    rewrite (app_removelast_last 0%N Hne) in E.
    rewrite rev_app_distr in E. simpl in E. congruence.
Qed.

Lemma strip_zeros_id (ds : list N) :
  ds <> [] -> last ds 0%N <> 0%N -> strip_zeros ds = ds.
Proof.
  intros Hne Hlast.
  rewrite <- (List.app_nil_r ds) at 1. apply (strip_zeros_app ds 0 Hne Hlast).
Qed.

Lemma normalize_leading (neg : bool) (m : nat) (d : N) (ds : list N) (p : Z) :
  d <> 0%N -> last (d :: ds) 0%N <> 0%N ->
  normalize neg (repeat 0%N m ++ d :: ds) p
  = Number neg (d :: ds) (p - Z.of_nat m).
Proof.
  intros Hd Hlast. unfold normalize.
  rewrite drop_zeros_repeat by (intros d' r E; congruence).
  rewrite strip_zeros_id by (assumption || discriminate). reflexivity.
Qed.

Lemma normalize_trailing (neg : bool) (m : nat) (d : N) (ds : list N) (p : Z) :
  d <> 0%N -> last (d :: ds) 0%N <> 0%N ->
  normalize neg (d :: ds ++ repeat 0%N m) p = Number neg (d :: ds) p.
Proof.
  intros Hd Hlast. unfold normalize. cbn [drop_zeros].
  apply N.eqb_neq in Hd. rewrite Hd.
  change (d :: ds ++ repeat 0%N m) with ((d :: ds) ++ repeat 0%N m).
  rewrite strip_zeros_app by (assumption || discriminate).
  f_equal. lia.
Qed.

Lemma normalize_plain (neg : bool) (d : N) (ds : list N) (p : Z) :
  d <> 0%N -> last (d :: ds) 0%N <> 0%N ->
  normalize neg (d :: ds) p = Number neg (d :: ds) p.
Proof.
  intros Hd Hlast.
  rewrite <- (normalize_trailing neg 0 d ds p Hd Hlast).
  cbn [repeat]. now rewrite List.app_nil_r.
Qed.

(** What [number_ok] says of a number other than zero. *)
Lemma number_ok_digits (neg : bool) (d : N) (ds : list N) (p : Z) :
  number_ok (Number neg (d :: ds) p) = true ->
  d <> 0%N /\ last (d :: ds) 0%N <> 0%N /\ small (d :: ds).
Proof.
  unfold number_ok. cbn [digits].
  rewrite !andb_true_iff, !negb_true_iff, !N.eqb_neq.
  intros [[H1 H2] H3]. repeat split; try assumption.
  apply Forall_forall. rewrite forallb_forall in H3.
  intros c Hc. apply N.ltb_lt. now apply H3.
Qed.

Lemma digit_char_range (d : N) : (d < 10)%N -> (48 <= digit_char d <= 57)%N.
Proof. unfold digit_char. lia. Qed.

Lemma parse_sign_digits (neg : bool) (c : char) (r : jsstring) :
  is_digit c = true ->
  parse_sign ((if neg then lit "-" else []) ++ c :: r) = (neg, c :: r).
Proof.
  intros Hc. destruct neg; [reflexivity|]. simpl.
  destruct (N.eqb c 45) eqn:E; [|reflexivity].
  apply N.eqb_eq in E. subst c. discriminate.
Qed.

Lemma parse_int_part_digits (d : N) (ds : list N) (rest : jsstring) :
  d <> 0%N -> small (d :: ds) -> no_digit_ahead rest ->
  parse_int_part (map digit_char (d :: ds) ++ rest) = Some (d :: ds, rest).
Proof.
  intros Hd Hs Hrest. unfold parse_int_part.
  change (map digit_char (d :: ds) ++ rest)
    with (digit_char d :: (map digit_char ds ++ rest)).
  cbv beta iota.
  assert (Hd10 : (d < 10)%N) by now inversion Hs.
  replace (N.eqb (digit_char d) 48) with false
    by (symmetry; apply N.eqb_neq; unfold digit_char; lia).
  rewrite (is_digit_char d Hd10).
  change (digit_char d :: (map digit_char ds ++ rest))
    with (map digit_char (d :: ds) ++ rest).
  now rewrite span_digits_app.
Qed.

Lemma parse_fraction_none (rest : jsstring) :
  ends_numeral rest -> parse_fraction rest = Some ([], rest).
Proof.
  destruct rest as [|c r]; [reflexivity|]. simpl.
  intros (_ & H & _). apply N.eqb_neq in H. now rewrite H.
Qed.

Lemma parse_exponent_none (rest : jsstring) :
  ends_numeral rest -> parse_exponent rest = Some (0%Z, rest).
Proof.
  destruct rest as [|c r]; [reflexivity|]. simpl.
  intros (_ & _ & H1 & H2).
  apply N.eqb_neq in H1, H2. now rewrite H1, H2.
Qed.

Lemma ends_numeral_no_digit (rest : jsstring) :
  ends_numeral rest -> no_digit_ahead rest.
Proof. destruct rest; [trivial|]. now intros []. Qed.

Lemma parse_fraction_digits (ds : list N) (rest : jsstring) :
  ds <> [] -> small ds -> no_digit_ahead rest ->
  parse_fraction (lit "." ++ map digit_char ds ++ rest) = Some (ds, rest).
Proof.
  intros Hne Hs Hrest. unfold parse_fraction.
  change (lit "." ++ map digit_char ds ++ rest)
    with (46%N :: (map digit_char ds ++ rest)).
  change (N.eqb 46 46) with true. cbv iota.
  rewrite span_digits_app by assumption.
  destruct ds; [now elim Hne|reflexivity].
Qed.

Lemma parse_exponent_digits (e : Z) (rest : jsstring) :
  no_digit_ahead rest ->
  parse_exponent (lit "e" ++ (if (e <? 0)%Z then lit "-" else lit "+")
                    ++ N_toString (Z.abs_N e) ++ rest)
  = Some (e, rest).
Proof.
  intros Hrest. unfold parse_exponent.
  assert (Hspan := span_digits_N_toString (Z.abs_N e) rest Hrest).
  pose proof (digits_of_N_nonempty (Z.abs_N e)) as Hne.
  remember (N_toString (Z.abs_N e) ++ rest) as t eqn:Et.
  destruct (e <? 0)%Z eqn:Hneg; simpl; rewrite Hspan;
    destruct (digits_of_N (Z.abs_N e)) as [|d ds] eqn:Ed;
    try congruence; rewrite <- Ed, N_of_digits_of_N;
    f_equal; f_equal; lia.
Qed.

(** Reading back a printed number, when the text after it cannot continue
    the numeral. *)
Lemma parse_number_toString (x : number) (rest : jsstring) :
  number_ok x = true -> ends_numeral rest ->
  parse_number (Number_toString x ++ rest) = Some (x, rest).
Proof.
  intros Hok Hrest.
  pose proof (parse_fraction_none rest Hrest) as Hfrac.
  pose proof (parse_exponent_none rest Hrest) as Hexp.
  pose proof (ends_numeral_no_digit rest Hrest) as Hnd.
  destruct x as [neg ds p]. destruct ds as [|d ds].
  - (* zero *)
    unfold number_ok in Hok. cbn [digits negative point] in Hok.
    apply andb_true_iff in Hok. destruct Hok as [Hneg Hp].
    apply negb_true_iff in Hneg. apply Z.eqb_eq in Hp. subst neg p.
    unfold Number_toString, parse_number. cbn [digits].
    change (lit "0" ++ rest) with (48%N :: rest).
    cbn [parse_sign parse_int_part N.eqb Pos.eqb].
    rewrite Hfrac, Hexp. reflexivity.
  - destruct (number_ok_digits neg d ds p Hok) as (Hd & Hlast & Hsmall).
    assert (Hd10 : (d < 10)%N) by now inversion Hsmall.
    unfold Number_toString. cbn [digits negative point].
    set (k := Z.of_nat (List.length (map digit_char (d :: ds)))).
    assert (Hk : k = Z.of_nat (List.length (d :: ds)))
      by (unfold k; now rewrite length_map).
    unfold parse_number.
    destruct ((k <=? p) && (p <=? 21))%Z eqn:CA.
    { (* digits followed by zeros *)
      apply andb_true_iff in CA. destruct CA as [C1 C2].
      apply Z.leb_le in C1, C2.
      rewrite zeros_map, <- map_app.
      change (map digit_char ((d :: ds) ++ repeat 0%N (Z.to_nat (p - k))))
        with (digit_char d
                :: map digit_char (ds ++ repeat 0%N (Z.to_nat (p - k)))).
      rewrite <- app_assoc.
      change ((digit_char d
                 :: map digit_char (ds ++ repeat 0%N (Z.to_nat (p - k))))
                ++ rest)
        with (digit_char d
                :: (map digit_char (ds ++ repeat 0%N (Z.to_nat (p - k)))
                      ++ rest)).
      rewrite parse_sign_digits by now apply is_digit_char.
      change (digit_char d
                :: (map digit_char (ds ++ repeat 0%N (Z.to_nat (p - k)))
                      ++ rest))
        with (map digit_char (d :: ds ++ repeat 0%N (Z.to_nat (p - k)))
                ++ rest).
      rewrite parse_int_part_digits; try assumption.
      2:{ change (d :: ds ++ repeat 0%N (Z.to_nat (p - k)))
            with ((d :: ds) ++ repeat 0%N (Z.to_nat (p - k))).
          apply Forall_app. split; [assumption|apply small_repeat_0]. }
      rewrite Hfrac, Hexp. rewrite List.app_nil_r.
      rewrite normalize_trailing by assumption.
      f_equal. f_equal. f_equal.
      cbn [List.length]. rewrite length_app, repeat_length.
      cbn [List.length] in Hk. lia. }
    destruct ((0 <? p) && (p <=? 21))%Z eqn:CB.
    { (* a decimal point inside the digits *)
      apply andb_true_iff in CB. destruct CB as [C1 C2].
      apply Z.ltb_lt in C1. apply Z.leb_le in C2.
      apply andb_false_iff in CA.
      assert (Hpk : (p < k)%Z)
        by (destruct CA as [C|C]; [apply Z.leb_gt in C|apply Z.leb_gt in C];
            lia).
      rewrite firstn_map, skipn_map.
      remember (Z.to_nat p) as m eqn:Em.
      assert (Hm : (0 < m < List.length (d :: ds))%nat) by lia.
      destruct m as [|m']; [lia|].
      cbn [firstn skipn].
      assert (Hsplit : d :: ds = (d :: firstn m' ds) ++ skipn m' ds)
        by (cbn [app]; now rewrite firstn_skipn).
      assert (Hskip : skipn m' ds <> []).
      { intros E. apply (f_equal (@List.length N)) in E.
        rewrite length_skipn in E. cbn [List.length] in E, Hm. lia. }
      destruct (skipn m' ds) as [|f fs] eqn:Efs; [congruence|].
      assert (Hs1 : small (d :: firstn m' ds)).
      { rewrite Hsplit in Hsmall. apply Forall_app in Hsmall. tauto. }
      assert (Hs2 : small (f :: fs)).
      { rewrite Hsplit in Hsmall. apply Forall_app in Hsmall. tauto. }
      change (map digit_char (d :: firstn m' ds))
        with (digit_char d :: map digit_char (firstn m' ds)).
      rewrite <- !app_assoc.
      change ((digit_char d :: map digit_char (firstn m' ds))
                ++ lit "." ++ map digit_char (f :: fs) ++ rest)
        with (digit_char d
                :: (map digit_char (firstn m' ds)
                      ++ lit "." ++ map digit_char (f :: fs) ++ rest)).
      rewrite parse_sign_digits by now apply is_digit_char.
      change (digit_char d
                :: (map digit_char (firstn m' ds)
                      ++ lit "." ++ map digit_char (f :: fs) ++ rest))
        with (map digit_char (d :: firstn m' ds)
                ++ lit "." ++ map digit_char (f :: fs) ++ rest).
      rewrite parse_int_part_digits; [|assumption|assumption|reflexivity].
      rewrite parse_fraction_digits by (assumption || discriminate).
      rewrite Hexp. rewrite <- Hsplit.
      rewrite normalize_plain by assumption.
      f_equal. f_equal. f_equal.
      assert (Hlen : List.length (firstn m' ds) = m').
      { apply firstn_length_le. cbn [List.length] in Hm. lia. }
      cbn [List.length]. rewrite Hlen. lia. }
    destruct ((-6 <? p) && (p <=? 0))%Z eqn:CC.
    { (* zeros between the point and the digits *)
      apply andb_true_iff in CC. destruct CC as [C1 C2].
      apply Z.ltb_lt in C1. apply Z.leb_le in C2.
      rewrite zeros_map.
      replace (lit "0." ++ map digit_char (repeat 0%N (Z.to_nat (- p)))
                 ++ map digit_char (d :: ds))
        with (48%N :: (lit "." ++ map digit_char
                         (repeat 0%N (Z.to_nat (- p)) ++ d :: ds)))
        by (now rewrite map_app).
      rewrite <- app_assoc.
      change ((48%N :: (lit "." ++ map digit_char
                          (repeat 0%N (Z.to_nat (- p)) ++ d :: ds))) ++ rest)
        with (48%N :: ((lit "." ++ map digit_char
                          (repeat 0%N (Z.to_nat (- p)) ++ d :: ds)) ++ rest)).
      rewrite parse_sign_digits by reflexivity.
      cbn [parse_int_part N.eqb Pos.eqb].
      rewrite <- app_assoc.
      rewrite parse_fraction_digits; try assumption.
      2:{ destruct (Z.to_nat (- p)); discriminate. }
      2:{ apply Forall_app. split; [apply small_repeat_0|assumption]. }
      rewrite Hexp.
      change ([0%N] ++ repeat 0%N (Z.to_nat (- p)) ++ d :: ds)
        with (repeat 0%N (S (Z.to_nat (- p))) ++ d :: ds).
      rewrite normalize_leading by assumption.
      f_equal. f_equal. f_equal. cbn [List.length]. lia. }
    (* exponent notation *)
    set (expo := (if (p - 1 <? 0)%Z then lit "-" else lit "+")
                   ++ N_toString (Z.abs_N (p - 1)) ++ rest).
    assert (Hexpo : parse_exponent (lit "e" ++ expo) = Some ((p - 1)%Z, rest))
      by (apply parse_exponent_digits; assumption).
    destruct ds as [|f fs].
    + rewrite <- !app_assoc. fold expo.
      change ([digit_char d] ++ lit "e" ++ expo)
        with (digit_char d :: (lit "e" ++ expo)).
      rewrite parse_sign_digits by now apply is_digit_char.
      change (digit_char d :: (lit "e" ++ expo))
        with (map digit_char [d] ++ (lit "e" ++ expo)).
      rewrite parse_int_part_digits; [|assumption|assumption|reflexivity].
      change (parse_fraction (lit "e" ++ expo))
        with (Some (@nil N, lit "e" ++ expo)).
      cbv beta iota. rewrite Hexpo.
      cbn [app]. rewrite normalize_plain by assumption.
      f_equal. f_equal. f_equal. cbn [List.length]. lia.
    + rewrite <- !app_assoc. fold expo.
      change ([digit_char d] ++ lit "." ++ map digit_char (f :: fs)
                ++ lit "e" ++ expo)
        with (digit_char d
                :: (lit "." ++ map digit_char (f :: fs) ++ lit "e" ++ expo)).
      rewrite parse_sign_digits by now apply is_digit_char.
      change (digit_char d
                :: (lit "." ++ map digit_char (f :: fs) ++ lit "e" ++ expo))
        with (map digit_char [d]
                ++ (lit "." ++ map digit_char (f :: fs) ++ lit "e" ++ expo)).
      rewrite parse_int_part_digits;
        [|assumption|constructor; [assumption|constructor]|reflexivity].
      rewrite parse_fraction_digits;
        [|discriminate|now inversion Hsmall|reflexivity].
      rewrite Hexpo.
      cbn [app]. rewrite normalize_plain by assumption.
      f_equal. f_equal. f_equal. cbn [List.length]. lia.
Qed.

End NumberFacts.

(* ================================================================= *)
(** * Strings: reading back what QuoteJSONString prints *)

Module StringFacts.

Lemma hex_val_digit (d : N) : (d < 16)%N -> hex_val (hex_digit d) = Some d.
Proof.
  intros Hd. unfold hex_digit, hex_val, is_digit.
  destruct (N.ltb d 10) eqn:E.
  - apply N.ltb_lt in E.
    replace (N.leb 48 (d + 48)) with true by (symmetry; apply N.leb_le; lia).
    replace (N.leb (d + 48) 57) with true by (symmetry; apply N.leb_le; lia).
    cbn [andb]. f_equal. lia.
  - apply N.ltb_ge in E.
    replace (N.leb (d + 87) 57) with false by (symmetry; apply N.leb_gt; lia).
    rewrite andb_false_r.
    replace (N.leb 97 (d + 87)) with true by (symmetry; apply N.leb_le; lia).
    replace (N.leb (d + 87) 102) with true by (symmetry; apply N.leb_le; lia).
    cbn [andb]. f_equal. lia.
Qed.

Lemma hex4_escape (c : char) :
  (c < 65536)%N ->
  hex4 (hex_digit (c / 4096)) (hex_digit ((c / 256) mod 16))
       (hex_digit ((c / 16) mod 16)) (hex_digit (c mod 16)) = Some c.
Proof.
  intros Hc. unfold hex4.
  rewrite !hex_val_digit.
  - f_equal. zify. Z.to_euclidean_division_equations. lia.
  - zify. Z.to_euclidean_division_equations. lia.
  - zify. Z.to_euclidean_division_equations. lia.
  - zify. Z.to_euclidean_division_equations. lia.
  - zify. Z.to_euclidean_division_equations. lia.
Qed.

Lemma parse_string_escape (c : char) (tail : jsstring) :
  (c < 65536)%N ->
  parse_string (unicode_escape c ++ tail) = cons_result c (parse_string tail).
Proof.
  intros Hc. unfold unicode_escape.
  cbn [app parse_string N.eqb Pos.eqb].
  now rewrite (hex4_escape c Hc).
Qed.

(** A code unit printed on its own reads back as itself. *)
Lemma parse_string_unit (c : char) (tail : jsstring) :
  parse_string (quote_unit c ++ tail) = cons_result c (parse_string tail).
Proof.
  unfold quote_unit.
  destruct (N.eqb c 8) eqn:E8; [apply N.eqb_eq in E8; now subst|].
  destruct (N.eqb c 9) eqn:E9; [apply N.eqb_eq in E9; now subst|].
  destruct (N.eqb c 10) eqn:E10; [apply N.eqb_eq in E10; now subst|].
  destruct (N.eqb c 12) eqn:E12; [apply N.eqb_eq in E12; now subst|].
  destruct (N.eqb c 13) eqn:E13; [apply N.eqb_eq in E13; now subst|].
  destruct (N.eqb c 34) eqn:E34; [apply N.eqb_eq in E34; now subst|].
  destruct (N.eqb c 92) eqn:E92; [apply N.eqb_eq in E92; now subst|].
  destruct (N.ltb c 32 || is_high_surrogate c || is_low_surrogate c)%bool
    eqn:Eesc.
  - apply parse_string_escape.
    unfold is_high_surrogate, is_low_surrogate in Eesc.
    rewrite !orb_true_iff, !andb_true_iff, N.ltb_lt, !N.leb_le in Eesc.
    lia.
  - rewrite !orb_false_iff in Eesc. destruct Eesc as [[E32 _] _].
    cbn [app parse_string]. now rewrite E34, E92, E32.
Qed.

(** A code unit of a surrogate pair is printed as it is. *)
Lemma parse_string_surrogate (c : char) (tail : jsstring) :
  (is_high_surrogate c || is_low_surrogate c)%bool = true ->
  parse_string (c :: tail) = cons_result c (parse_string tail).
Proof.
  intros H. unfold is_high_surrogate, is_low_surrogate in H.
  rewrite !orb_true_iff, !andb_true_iff, !N.leb_le in H.
  cbn [parse_string].
  replace (N.eqb c 34) with false by (symmetry; apply N.eqb_neq; lia).
  replace (N.eqb c 92) with false by (symmetry; apply N.eqb_neq; lia).
  replace (N.ltb c 32) with false by (symmetry; apply N.ltb_ge; lia).
  reflexivity.
Qed.

Lemma parse_string_quote_units (s : jsstring) (rest : jsstring) :
  parse_string (quote_units s ++ 34%N :: rest) = Some (s, rest).
Proof.
  remember (List.length s) as n eqn:Hn.
  revert s Hn. induction n as [n IH] using lt_wf_ind. intros s Hn.
  destruct s as [|c r]; [reflexivity|].
  cbn [quote_units].
  assert (Hr : parse_string (quote_units r ++ 34%N :: rest) = Some (r, rest)).
  { apply (IH (List.length r)); [subst n; simpl; lia|reflexivity]. }
  destruct (is_high_surrogate c) eqn:Hhigh.
  - destruct r as [|d r'].
    + rewrite parse_string_unit. reflexivity.
    + destruct (is_low_surrogate d) eqn:Hlow.
      * cbn [app].
        rewrite parse_string_surrogate by (now rewrite Hhigh).
        rewrite parse_string_surrogate by (rewrite Hlow; apply orb_true_r).
        rewrite (IH (List.length r')); [reflexivity|subst n; simpl; lia|reflexivity].
      * rewrite <- app_assoc, parse_string_unit, Hr. reflexivity.
  - rewrite <- app_assoc, parse_string_unit, Hr. reflexivity.
Qed.

(** Reading back a quoted string. *)
Lemma parse_string_quote (s : jsstring) (rest : jsstring) :
  exists body, quote s ++ rest = 34%N :: body
               /\ parse_string body = Some (s, rest).
Proof.
  exists (quote_units s ++ 34%N :: rest). split.
  - unfold quote. cbn [app]. now rewrite <- app_assoc.
  - apply parse_string_quote_units.
Qed.

End StringFacts.

(* ================================================================= *)
(** * [JSON.parse] after [JSON.stringify] *)

Module ParseFacts.
Import NumberFacts StringFacts.

Lemma skip_ws_app (w s : jsstring) : ws_only w -> skip_ws (w ++ s) = skip_ws s.
Proof.
  induction 1 as [|c w Hc _ IH]; [reflexivity|].
  cbn [app skip_ws]. now rewrite Hc.
Qed.

Lemma ws_only_app (a b : jsstring) : ws_only a -> ws_only b -> ws_only (a ++ b).
Proof. intros Ha Hb. apply Forall_app. now split. Qed.

Lemma ws_only_repeat (n : nat) : ws_only (repeat 32%N n).
Proof. induction n; simpl; constructor; (reflexivity || assumption). Qed.

(** Leading whitespace does not matter to the parser. *)
Lemma parse_value_skip (f : nat) (w s : jsstring) :
  ws_only w -> parse_value f (w ++ s) = parse_value f s.
Proof.
  intros Hw. destruct f as [|f]; [reflexivity|].
  cbn [parse_value]. now rewrite (skip_ws_app w s Hw).
Qed.

Lemma parse_elements_skip (f : nat) (w s : jsstring) :
  ws_only w -> parse_elements f (w ++ s) = parse_elements f s.
Proof.
  intros Hw. destruct f as [|f]; [reflexivity|].
  cbn [parse_elements]. now rewrite (parse_value_skip f w s Hw).
Qed.

Lemma parse_members_skip (f : nat) (acc : list (jsstring * value))
      (w s : jsstring) :
  ws_only w -> parse_members f acc (w ++ s) = parse_members f acc s.
Proof.
  intros Hw. destruct f as [|f]; [reflexivity|].
  cbn [parse_members]. now rewrite (skip_ws_app w s Hw).
Qed.

Lemma ws_only_pad (gap indent : jsstring) : ws_only indent -> ws_only (pad gap indent).
Proof.
  intros H. destruct gap; [constructor|]. constructor; [reflexivity|exact H].
Qed.

Lemma serialize_array (gap indent : jsstring) (x : value) (l : list value) :
  serialize gap indent (JArray (x :: l))
  = lit "[" ++ pad gap (indent ++ gap)
      ++ join (lit "," ++ pad gap (indent ++ gap))
              (map (serialize gap (indent ++ gap)) (x :: l))
      ++ pad gap indent ++ lit "]".
Proof.
  cbn [serialize]. destruct gap as [|g gap]; cbn [pad]; [reflexivity|].
  cbn [app]. now rewrite <- !app_assoc.
Qed.

Lemma serialize_object (gap indent : jsstring) (kv : jsstring * value)
      (l : list (jsstring * value)) :
  serialize gap indent (JObject (kv :: l))
  = lit "{" ++ pad gap (indent ++ gap)
      ++ join (lit "," ++ pad gap (indent ++ gap))
              (map (member_text gap (indent ++ gap)) (kv :: l))
      ++ pad gap indent ++ lit "}".
Proof.
  cbn [serialize]. destruct gap as [|g gap]; cbn [pad]; [reflexivity|].
  cbn [app]. now rewrite <- !app_assoc.
Qed.


Lemma ends_numeral_ws (w s : jsstring) :
  ws_only w -> ends_numeral s -> ends_numeral (w ++ s).
Proof.
  intros Hw Hs. destruct Hw as [|c w Hc _]; [exact Hs|].
  cbn [app ends_numeral]. unfold is_ws in Hc.
  rewrite !orb_true_iff, !N.eqb_eq in Hc.
  unfold is_digit.
  repeat split; try lia.
  apply andb_false_iff. rewrite !N.leb_gt. lia.
Qed.

Lemma ends_numeral_comma (s : jsstring) : ends_numeral (lit "," ++ s).
Proof. cbn. repeat split; discriminate. Qed.

Lemma ends_numeral_bracket (s : jsstring) : ends_numeral (lit "]" ++ s).
Proof. cbn. repeat split; discriminate. Qed.

Lemma ends_numeral_brace (s : jsstring) : ends_numeral (lit "}" ++ s).
Proof. cbn. repeat split; discriminate. Qed.

Lemma Number_toString_head (x : number) :
  number_ok x = true ->
  exists c r, Number_toString x = c :: r
              /\ (c = 45%N \/ is_digit c = true).
Proof.
  intros Hok.
  pose proof (parse_number_toString x [] Hok I) as H.
  rewrite List.app_nil_r in H.
  destruct (Number_toString x) as [|c r]; [discriminate|].
  exists c, r. split; [reflexivity|].
  unfold parse_number, parse_sign in H.
  destruct (N.eqb c 45) eqn:E45; [left; now apply N.eqb_eq|right].
  unfold parse_int_part in H.
  destruct (N.eqb c 48) eqn:E48; [apply N.eqb_eq in E48; now subst|].
  destruct (is_digit c); [reflexivity|discriminate].
Qed.

(** A text that starts with a minus sign or a digit is read as a number. *)
Lemma parse_value_number (f : nat) (c : char) (r : jsstring) :
  c = 45%N \/ is_digit c = true ->
  parse_value (S f) (c :: r)
  = match parse_number (c :: r) with
    | Some (x, rest) => Some (JNumber x, rest)
    | None => None
    end.
Proof.
  intros Hc.
  assert (Hrange : (45 <= c <= 57)%N).
  { destruct Hc as [->|Hc]; [lia|].
    unfold is_digit in Hc. rewrite andb_true_iff, !N.leb_le in Hc. lia. }
  cbn [parse_value skip_ws].
  replace (is_ws c) with false.
  2:{ symmetry. unfold is_ws. rewrite !orb_false_iff, !N.eqb_neq. lia. }
  replace (N.eqb c 123) with false by (symmetry; apply N.eqb_neq; lia).
  replace (N.eqb c 91) with false by (symmetry; apply N.eqb_neq; lia).
  replace (N.eqb c 34) with false by (symmetry; apply N.eqb_neq; lia).
  replace (N.eqb c 110) with false by (symmetry; apply N.eqb_neq; lia).
  replace (N.eqb c 116) with false by (symmetry; apply N.eqb_neq; lia).
  replace (N.eqb c 102) with false by (symmetry; apply N.eqb_neq; lia).
  reflexivity.
Qed.

Lemma serialize_opens (gap indent : jsstring) (v : value) :
  value_ok v = true -> opens (serialize gap indent v).
Proof.
  intros Hok. unfold opens. destruct v as [|[]|x|s|[|e l]|[|kv l]].
  - now exists 110%N, (lit "ull").
  - now exists 116%N, (lit "rue").
  - now exists 102%N, (lit "alse").
  - cbn [value_ok] in Hok.
    destruct (Number_toString_head x Hok) as (c & r & E & Hc).
    exists c, r. cbn [serialize]. split; [exact E|].
    assert (Hrange : (45 <= c <= 57)%N).
    { destruct Hc as [->|Hc]; [lia|].
      unfold is_digit in Hc. rewrite andb_true_iff, !N.leb_le in Hc. lia. }
    unfold is_ws. rewrite !orb_false_iff, !N.eqb_neq. lia.
  - exists 34%N, (quote_units s ++ [34%N]). now cbn.
  - now exists 91%N, (lit "]").
  - rewrite serialize_array. eexists 91%N, _. now cbn.
  - now exists 123%N, (lit "}").
  - rewrite serialize_object. eexists 123%N, _. now cbn.
Qed.

Lemma skip_ws_opens (s : jsstring) : opens s -> skip_ws s = s.
Proof.
  intros (c & r & -> & Hc & _). cbn [skip_ws]. now rewrite Hc.
Qed.


Lemma join_cons2 (sep a b : jsstring) (l : list jsstring) :
  join sep (a :: b :: l) = a ++ sep ++ join sep (b :: l).
Proof. reflexivity. Qed.

Lemma parse_elements_join (gap indent w1 w2 : jsstring) (l : list value) :
  l <> [] ->
  Forall (reads gap indent) l ->
  ws_only w1 -> ws_only w2 ->
  forall rest f,
    2 * List.length (join (lit "," ++ w1) (map (serialize gap indent) l)) + 1
      <= f ->
    parse_elements f (join (lit "," ++ w1) (map (serialize gap indent) l)
                        ++ w2 ++ lit "]" ++ rest)
    = Some (l, rest).
Proof.
  intros Hne Hall Hw1 Hw2.
  induction Hall as [|v l Hv Hall IH]; [congruence|].
  intros rest f Hf. destruct f as [|f]; [lia|].
  destruct l as [|v' l'].
  - (* the last element *)
    cbn [map join] in *. cbn [parse_elements].
    rewrite Hv; [| |lia].
    2:{ apply ends_numeral_ws; [exact Hw2|apply ends_numeral_bracket]. }
    rewrite (skip_ws_app w2 _ Hw2). reflexivity.
  - cbn [map] in *. rewrite join_cons2 in *.
    rewrite length_app in Hf. rewrite <- !app_assoc.
    cbn [parse_elements].
    rewrite Hv; [|apply ends_numeral_comma|lia].
    change (lit "," ++ w1
              ++ join (lit "," ++ w1)
                   (serialize gap indent v' :: map (serialize gap indent) l')
              ++ w2 ++ lit "]" ++ rest)
      with (44%N :: (w1
              ++ join (lit "," ++ w1)
                   (serialize gap indent v' :: map (serialize gap indent) l')
              ++ w2 ++ lit "]" ++ rest)).
    cbn [skip_ws is_ws N.eqb Pos.eqb orb].
    rewrite (parse_elements_skip f w1 _ Hw1).
    rewrite IH; [reflexivity|discriminate|].
    rewrite !length_app in Hf. change (List.length (lit ",")) with 1 in Hf.
    lia.
Qed.

Lemma keys_ok_fresh (a b : list jsstring) (k : jsstring) :
  keys_ok (a ++ k :: b) = true -> fresh k a.
Proof.
  induction a as [|k0 a IH]; intros H; [constructor|].
  cbn [app keys_ok] in H. apply andb_true_iff in H. destruct H as [H1 H2].
  constructor; [|now apply IH].
  rewrite forallb_app in H1. apply andb_true_iff in H1.
  destruct H1 as [_ H1]. cbn [forallb] in H1.
  rewrite !andb_true_iff, !negb_true_iff in H1. tauto.
Qed.

(** A key that is new and enumerated last is added at the end. *)
Lemma set_property_fresh (acc : list (jsstring * value)) (k : jsstring)
      (v : value) :
  fresh k (map fst acc) -> set_property acc k v = acc ++ [(k, v)].
Proof.
  intros H. unfold set_property.
  assert (Hhas : has_key k acc = false).
  { induction acc as [|[k0 v0] acc IH]; [reflexivity|].
    cbn [map fst] in H. inversion H as [|? ? [H1 _] H2]; subst.
    cbn [has_key]. rewrite H1. now apply IH. }
  rewrite Hhas. clear Hhas.
  induction acc as [|[k0 v0] acc IH]; [reflexivity|].
  cbn [map fst] in H. inversion H as [|? ? [_ H1] H2]; subst.
  cbn [add_key app]. rewrite H1. f_equal. now apply IH.
Qed.

Lemma parse_members_join (gap indent w1 w2 : jsstring)
      (l : list (jsstring * value)) :
  l <> [] ->
  Forall (fun kv => reads gap indent (snd kv)) l ->
  ws_only w1 -> ws_only w2 ->
  forall acc rest f,
    keys_ok (map fst (acc ++ l)) = true ->
    2 * List.length (join (lit "," ++ w1) (map (member_text gap indent) l)) + 1
      <= f ->
    parse_members f acc
      (join (lit "," ++ w1) (map (member_text gap indent) l)
         ++ w2 ++ lit "}" ++ rest)
    = Some (acc ++ l, rest).
Proof.
  intros Hne Hall Hw1 Hw2.
  induction Hall as [|[k v] l Hv Hall IH]; [congruence|].
  intros acc rest f Hkeys Hf. destruct f as [|f]; [lia|].
  cbn [snd] in Hv.
  assert (Hfresh : set_property acc k v = acc ++ [(k, v)]).
  { apply set_property_fresh. rewrite map_app in Hkeys. cbn [map fst] in Hkeys.
    exact (keys_ok_fresh _ _ _ Hkeys). }
  assert (Hsp : ws_only match gap with [] => [] | _ :: _ => lit " " end).
  { destruct gap; [constructor|]. constructor; [reflexivity|constructor]. }
  (* the text of the first member, and what is read from it *)
  assert (Hmember : forall tail,
             ends_numeral tail ->
             2 * List.length (member_text gap indent (k, v)) <= f ->
             exists body,
               member_text gap indent (k, v) ++ tail = 34%N :: body
               /\ parse_string body
                  = Some (k, 58%N :: (match gap with
                                      | [] => []
                                      | _ :: _ => lit " "
                                      end ++ serialize gap indent v ++ tail))
               /\ parse_value f (match gap with
                                 | [] => []
                                 | _ :: _ => lit " "
                                 end ++ serialize gap indent v ++ tail)
                  = Some (v, tail)).
  { intros tail Htail Hlen.
    exists (quote_units k ++ 34%N
              :: 58%N :: (match gap with [] => [] | _ :: _ => lit " " end
                            ++ serialize gap indent v ++ tail)).
    split; [|split].
    - unfold member_text, quote. cbn [fst snd].
      rewrite <- !app_assoc. reflexivity.
    - apply parse_string_quote_units.
    - rewrite (parse_value_skip f _ _ Hsp). apply Hv; [exact Htail|].
      unfold member_text in Hlen. rewrite !length_app in Hlen.
      cbn [snd] in Hlen. lia. }
  destruct l as [|kv' l'].
  - (* the last member *)
    cbn [map join] in *.
    destruct (Hmember (w2 ++ lit "}" ++ rest)) as (body & E & Hk & Hval).
    { apply ends_numeral_ws; [exact Hw2|apply ends_numeral_brace]. }
    { lia. }
    rewrite E. cbn [parse_members skip_ws is_ws N.eqb Pos.eqb orb].
    rewrite Hk. cbn [skip_ws is_ws N.eqb Pos.eqb orb].
    rewrite Hval, Hfresh. rewrite (skip_ws_app w2 _ Hw2). reflexivity.
  - cbn [map] in *. rewrite join_cons2 in *.
    rewrite length_app in Hf. rewrite <- !app_assoc.
    destruct (Hmember
                (lit "," ++ w1
                   ++ join (lit "," ++ w1)
                        (member_text gap indent kv'
                           :: map (member_text gap indent) l')
                   ++ w2 ++ lit "}" ++ rest)) as (body & E & Hk & Hval).
    { apply ends_numeral_comma. }
    { lia. }
    rewrite E. cbn [parse_members skip_ws is_ws N.eqb Pos.eqb orb].
    rewrite Hk. cbn [skip_ws is_ws N.eqb Pos.eqb orb].
    rewrite Hval, Hfresh.
    change (lit "," ++ w1
              ++ join (lit "," ++ w1)
                   (member_text gap indent kv'
                      :: map (member_text gap indent) l')
              ++ w2 ++ lit "}" ++ rest)
      with (44%N :: (w1
              ++ join (lit "," ++ w1)
                   (member_text gap indent kv'
                      :: map (member_text gap indent) l')
              ++ w2 ++ lit "}" ++ rest)).
    cbn [skip_ws is_ws N.eqb Pos.eqb orb].
    rewrite (parse_members_skip f _ w1 _ Hw1).
    rewrite IH.
    + now rewrite <- app_assoc.
    + discriminate.
    + now rewrite <- app_assoc.
    + rewrite !length_app in Hf. change (List.length (lit ",")) with 1 in Hf.
      lia.
Qed.

Lemma opens_app (s t : jsstring) : opens s -> opens (s ++ t).
Proof. intros (c & r & -> & H). now exists c, (r ++ t). Qed.

Lemma opens_join (sep a : jsstring) (l : list jsstring) :
  opens a -> opens (join sep (a :: l)).
Proof.
  intros H. destruct l as [|b l]; [exact H|].
  rewrite join_cons2. now apply opens_app.
Qed.

Lemma opens_member (gap indent : jsstring) (kv : jsstring * value) :
  opens (member_text gap indent kv).
Proof. unfold member_text, quote. eexists 34%N, _. now cbn. Qed.

(** Every value [JSON.parse] can produce is read back from its text. *)
Lemma serialize_reads (v : value) :
  value_ok v = true ->
  forall gap indent, ws_only gap -> ws_only indent -> reads gap indent v.
Proof.
  induction v as [|b|x|s|l IH|l IH] using JSON.value_ind;
    intros Hok gap indent Hgap Hindent rest fuel Hrest Hfuel.
  - destruct fuel as [|f]; [cbn in Hfuel; lia|]. reflexivity.
  - destruct fuel as [|f]; [destruct b; cbn in Hfuel; lia|].
    destruct b; reflexivity.
  - cbn [value_ok] in Hok. cbn [serialize] in *.
    destruct (Number_toString_head x Hok) as (c & r & E & Hc).
    destruct fuel as [|f]; [rewrite E in Hfuel; cbn in Hfuel; lia|].
    pose proof (parse_number_toString x rest Hok Hrest) as Hnum.
    rewrite E in *. cbn [app] in *.
    rewrite (parse_value_number f c (r ++ rest) Hc), Hnum. reflexivity.
  - cbn [serialize] in *.
    destruct fuel as [|f]; [cbn in Hfuel; lia|].
    unfold quote. rewrite <- !app_assoc.
    cbn [app parse_value skip_ws is_ws N.eqb Pos.eqb orb].
    now rewrite parse_string_quote_units.
  - destruct l as [|e l].
    { destruct fuel as [|f]; [cbn in Hfuel; lia|]. reflexivity. }
    cbn [value_ok] in Hok.
    assert (Hall : Forall (reads gap (indent ++ gap)) (e :: l)).
    { rewrite forallb_forall in Hok. rewrite Forall_forall in IH.
      apply Forall_forall. intros y Hy.
      apply IH; [exact Hy|now apply Hok|exact Hgap|].
      now apply ws_only_app. }
    rewrite serialize_array in *.
    set (w1 := pad gap (indent ++ gap)) in *.
    set (w2 := pad gap indent) in *.
    set (body := join (lit "," ++ w1)
                   (map (serialize gap (indent ++ gap)) (e :: l))) in *.
    assert (Hw1 : ws_only w1)
      by (apply ws_only_pad; now apply ws_only_app).
    assert (Hw2 : ws_only w2) by now apply ws_only_pad.
    assert (Hopens : opens (body ++ w2 ++ lit "]" ++ rest)).
    { apply opens_app. apply opens_join. apply serialize_opens.
      cbn [forallb] in Hok. apply andb_true_iff in Hok. tauto. }
    rewrite !length_app in Hfuel.
    change (List.length (lit "[")) with 1 in Hfuel.
    destruct fuel as [|f]; [lia|].
    rewrite <- !app_assoc.
    change (lit "[" ++ w1 ++ body ++ w2 ++ lit "]" ++ rest)
      with (91%N :: (w1 ++ body ++ w2 ++ lit "]" ++ rest)).
    cbn [parse_value skip_ws is_ws N.eqb Pos.eqb orb].
    rewrite (skip_ws_app w1 _ Hw1).
    rewrite (skip_ws_opens _ Hopens).
    pose proof (parse_elements_join gap (indent ++ gap) w1 w2 (e :: l)
                  ltac:(discriminate) Hall Hw1 Hw2 rest f) as Hel.
    fold body in Hel.
    destruct Hopens as (c' & r' & E & _ & Hc' & _).
    rewrite E in *. apply N.eqb_neq in Hc'. rewrite Hc'.
    rewrite Hel by lia. reflexivity.
  - destruct l as [|kv l].
    { destruct fuel as [|f]; [cbn in Hfuel; lia|]. reflexivity. }
    cbn [value_ok] in Hok. apply andb_true_iff in Hok.
    destruct Hok as [Hkeys Hok].
    assert (Hall : Forall (fun kv => reads gap (indent ++ gap) (snd kv))
                          (kv :: l)).
    { rewrite forallb_forall in Hok. rewrite Forall_forall in IH.
      apply Forall_forall. intros y Hy.
      apply IH; [exact Hy|now apply Hok|exact Hgap|].
      now apply ws_only_app. }
    rewrite serialize_object in *.
    set (w1 := pad gap (indent ++ gap)) in *.
    set (w2 := pad gap indent) in *.
    set (body := join (lit "," ++ w1)
                   (map (member_text gap (indent ++ gap)) (kv :: l))) in *.
    assert (Hw1 : ws_only w1)
      by (apply ws_only_pad; now apply ws_only_app).
    assert (Hw2 : ws_only w2) by now apply ws_only_pad.
    assert (Hopens : opens (body ++ w2 ++ lit "}" ++ rest)).
    { apply opens_app. apply opens_join. apply opens_member. }
    rewrite !length_app in Hfuel.
    change (List.length (lit "{")) with 1 in Hfuel.
    destruct fuel as [|f]; [lia|].
    rewrite <- !app_assoc.
    change (lit "{" ++ w1 ++ body ++ w2 ++ lit "}" ++ rest)
      with (123%N :: (w1 ++ body ++ w2 ++ lit "}" ++ rest)).
    cbn [parse_value skip_ws is_ws N.eqb Pos.eqb orb].
    rewrite (skip_ws_app w1 _ Hw1).
    rewrite (skip_ws_opens _ Hopens).
    pose proof (parse_members_join gap (indent ++ gap) w1 w2 (kv :: l)
                  ltac:(discriminate) Hall Hw1 Hw2 [] rest f Hkeys) as Hel.
    fold body in Hel.
    destruct Hopens as (c' & r' & E & _ & _ & Hc').
    rewrite E in *. apply N.eqb_neq in Hc'. rewrite Hc'.
    rewrite Hel by lia. reflexivity.
Qed.

(** [JSON.parse(JSON.stringify(v, null, space))] is [v]. *)
Lemma parse_stringify (v : value) (space : nat) :
  value_ok v = true -> JSON.parse (JSON.stringify v space) = Some v.
Proof.
  intros Hok. unfold JSON.parse, JSON.stringify.
  set (gap := repeat 32%N (Nat.min 10 space)).
  pose proof (serialize_reads v Hok gap [] (ws_only_repeat _)
                ltac:(constructor) []
                (2 * List.length (serialize gap [] v) + 2) I
                ltac:(lia)) as H.
  rewrite List.app_nil_r in H. now rewrite H.
Qed.

(** The parser on a few texts. *)
Example parse_numbers :
  JSON.parse (lit " [ 1.50 , -0, 12e+3 , 1E-2, [ ] , { } ] ")
  = Some (JArray [JNumber (Number false [1; 5]%N 1); JNumber zero;
                  JNumber (Number false [1; 2]%N 5);
                  JNumber (Number false [1]%N (-1));
                  JArray []; JObject []]).
Proof. reflexivity. Qed.

Example parse_rejects_leading_zero : JSON.parse (lit "[01]") = None.
Proof. reflexivity. Qed.

Example parse_rejects_trailing_comma : JSON.parse (lit "[1,]") = None.
Proof. reflexivity. Qed.

Example parse_rejects_empty : JSON.parse [] = None.
Proof. reflexivity. Qed.

Example parse_rejects_words : JSON.parse (lit "{invalid") = None.
Proof. reflexivity. Qed.

(** Array indices are enumerated first, the last duplicate wins. *)
Example parse_orders_keys :
  JSON.parse (dquoted "{'b':1,'10':2,'9':3,'b':4}")
  = Some (JObject [(lit "9", JNumber (of_Z 3)); (lit "10", JNumber (of_Z 2));
                   (lit "b", JNumber (of_Z 4))]).
Proof. reflexivity. Qed.

End ParseFacts.

(* ================================================================= *)
(** * What [JSON.parse] returns *)

Module ParsedFacts.
Import JSFacts NumberFacts StringFacts ParseFacts.

Lemma drop_zeros_spec (l : list N) :
  l = repeat 0%N (fst (drop_zeros l)) ++ snd (drop_zeros l)
  /\ (snd (drop_zeros l) = []
      \/ exists d r, snd (drop_zeros l) = d :: r /\ d <> 0%N).
Proof.
  induction l as [|d l [IH1 IH2]]; [now split; [|left]|].
  cbn [drop_zeros]. destruct (N.eqb d 0) eqn:E.
  - apply N.eqb_eq in E. subst d.
    destruct (drop_zeros l) as [n r]. cbn [fst snd repeat app] in *.
    split; [now f_equal|exact IH2].
  - apply N.eqb_neq in E. cbn [fst snd repeat app].
    split; [reflexivity|]. right. now exists d, l.
Qed.

(** Whatever digits are read, the number built from them is well formed. *)
Lemma normalize_ok (neg : bool) (ds : list N) (p : Z) :
  small ds -> number_ok (normalize neg ds p) = true.
Proof.
  intros Hs. unfold normalize.
  destruct (drop_zeros_spec ds) as [E1 H1].
  destruct (drop_zeros ds) as [lead ds']. cbn [fst snd] in *.
  assert (Hs' : small ds').
  { rewrite E1 in Hs. apply Forall_app in Hs. tauto. }
  unfold strip_zeros.
  destruct (drop_zeros_spec (rev ds')) as [E2 H2].
  destruct (drop_zeros (rev ds')) as [trail t]. cbn [fst snd] in *.
  assert (E3 : ds' = rev t ++ repeat 0%N trail).
  { rewrite <- (rev_involutive ds'), E2, rev_app_distr, rev_repeat.
    reflexivity. }
  destruct (rev t) as [|d sig] eqn:Esig; [reflexivity|].
  unfold number_ok. cbn [digits].
  assert (Hd : d <> 0%N).
  { destruct H1 as [H1|(d' & r' & H1 & Hd')].
    - rewrite H1 in E3. discriminate.
    - rewrite H1 in E3. cbn [app] in E3. congruence. }
  assert (Hlast : last (d :: sig) 0%N <> 0%N).
  { destruct H2 as [H2|(d' & r' & H2 & Hd')].
    - rewrite H2 in Esig. discriminate.
    - rewrite <- Esig, H2. cbn [rev]. now rewrite last_last. }
  assert (Hsmall : small (d :: sig)).
  { rewrite E3 in Hs'. apply Forall_app in Hs'. tauto. }
  apply N.eqb_neq in Hd, Hlast. rewrite Hd, Hlast. cbn [negb andb].
  apply forallb_forall. intros c Hc. apply N.ltb_lt.
  unfold small in Hsmall. rewrite Forall_forall in Hsmall. now apply Hsmall.
Qed.

Lemma span_digits_small (s : jsstring) : small (fst (span_digits s)).
Proof.
  induction s as [|c r IH]; [constructor|].
  cbn [span_digits]. destruct (is_digit c) eqn:E; [|constructor].
  destruct (span_digits r) as [ds rest]. cbn [fst] in *.
  constructor; [|exact IH].
  unfold is_digit in E. rewrite andb_true_iff, !N.leb_le in E.
  unfold digit_val. lia.
Qed.

(** Every number read from a text is well formed. *)
Lemma parse_number_ok (s rest : jsstring) (x : number) :
  parse_number s = Some (x, rest) -> number_ok x = true.
Proof.
  unfold parse_number. destruct (parse_sign s) as [neg s1].
  destruct (parse_int_part s1) as [[ipart s2]|] eqn:Ei; [|discriminate].
  destruct (parse_fraction s2) as [[fpart s3]|] eqn:Ef; [|discriminate].
  destruct (parse_exponent s3) as [[e s4]|]; [|discriminate].
  intros E. injection E as <- _. apply normalize_ok.
  apply Forall_app. split.
  - unfold parse_int_part in Ei. destruct s1 as [|c r]; [discriminate|].
    destruct (N.eqb c 48).
    + injection Ei as <- _. constructor; [lia|constructor].
    + destruct (is_digit c); [|discriminate].
      pose proof (span_digits_small (c :: r)) as Hs.
      assert (E : span_digits (c :: r) = (ipart, s2)) by congruence.
      now rewrite E in Hs.
  - unfold parse_fraction in Ef. destruct s2 as [|c r].
    + injection Ef as <- _. constructor.
    + destruct (N.eqb c 46).
      * pose proof (span_digits_small r) as Hs.
        destruct (span_digits r) as [[|d ds] rest']; [discriminate|].
        injection Ef as <- _. exact Hs.
      * injection Ef as <- _. constructor.
Qed.


(** A key enumerated before [k0] is also before whatever comes after
    [k0]. *)
Lemma precedes_before (k k0 k' : jsstring) :
  precedes k k0 = true -> precedes k' k0 = false -> precedes k' k = false.
Proof.
  unfold precedes.
  destruct (array_index k) as [i|], (array_index k0) as [j|],
           (array_index k') as [m|]; try congruence; try reflexivity.
  rewrite N.ltb_lt, !N.ltb_ge. lia.
Qed.

Lemma precedes_asym (k k0 : jsstring) :
  precedes k k0 = true -> precedes k0 k = false.
Proof.
  unfold precedes.
  destruct (array_index k) as [i|], (array_index k0) as [j|];
    try congruence; try reflexivity.
  rewrite N.ltb_lt, N.ltb_ge. lia.
Qed.

Lemma map_fst_replace_key (k : jsstring) (v : value)
      (o : list (jsstring * value)) :
  map fst (replace_key k v o) = map fst o.
Proof.
  induction o as [|[k0 v0] o IH]; [reflexivity|].
  cbn [replace_key]. destruct (JS.eqb k0 k); cbn [map fst]; congruence.
Qed.

Lemma In_add_key (k : jsstring) (v : value) (o : list (jsstring * value))
      (x : jsstring * value) :
  In x (add_key k v o) <-> x = (k, v) \/ In x o.
Proof.
  induction o as [|[k0 v0] o IH]; cbn [add_key In]; [intuition|].
  destruct (precedes k k0); cbn [In]; rewrite ?IH; intuition.
Qed.

(** A new key is put where the enumeration order wants it. *)
Lemma keys_ok_add_key (k : jsstring) (v : value)
      (o : list (jsstring * value)) :
  keys_ok (map fst o) = true -> has_key k o = false ->
  keys_ok (map fst (add_key k v o)) = true.
Proof.
  induction o as [|[k0 v0] o IH]; intros Hok Hnew; [reflexivity|].
  cbn [has_key] in Hnew. apply orb_false_iff in Hnew.
  destruct Hnew as [Hk0 Hnew].
  cbn [map fst keys_ok] in Hok. apply andb_true_iff in Hok.
  destruct Hok as [Hfirst Hrest].
  rewrite forallb_forall in Hfirst.
  cbn [add_key]. destruct (precedes k k0) eqn:Hp.
  - cbn [map fst keys_ok forallb]. rewrite !andb_true_iff.
    assert (Hin : forall k', In k' (map fst o) -> k <> k').
    { intros k' Hk' <-.
      clear - Hnew Hk'. induction o as [|[k1 v1] o IH]; [contradiction|].
      cbn [has_key] in Hnew. apply orb_false_iff in Hnew.
      destruct Hnew as [H1 H2]. destruct Hk' as [E|Hk'].
      - cbn [fst] in E. subst k1. now rewrite JSFacts.eqb_refl in H1.
      - now apply IH. }
    repeat split.
    + apply negb_true_iff, JSFacts.eqb_neq.
      apply JSFacts.eqb_neq in Hk0. congruence.
    + now rewrite (precedes_asym _ _ Hp).
    + apply forallb_forall. intros k' Hk'.
      pose proof (Hfirst k' Hk') as Hb.
      apply andb_true_iff in Hb. destruct Hb as [_ Hb].
      apply negb_true_iff in Hb.
      rewrite (precedes_before _ _ _ Hp Hb). cbn [negb]. rewrite andb_true_r.
      apply negb_true_iff, JSFacts.eqb_neq. now apply Hin.
    + apply forallb_forall. exact Hfirst.
    + exact Hrest.
  - cbn [map fst keys_ok]. rewrite (IH Hrest Hnew), andb_true_r.
    apply forallb_forall. intros k' Hk'.
    apply in_map_iff in Hk'. destruct Hk' as ([k1 v1] & <- & Hin).
    apply In_add_key in Hin. destruct Hin as [E|Hin].
    + injection E as -> ->. cbn [fst]. now rewrite Hk0, Hp.
    + apply Hfirst. apply in_map_iff. now exists (k1, v1).
Qed.

Lemma set_property_ok (o : list (jsstring * value)) (k : jsstring)
      (v : value) :
  keys_ok (map fst o) = true ->
  forallb (fun kv => value_ok (snd kv)) o = true ->
  value_ok v = true ->
  keys_ok (map fst (set_property o k v)) = true
  /\ forallb (fun kv => value_ok (snd kv)) (set_property o k v) = true.
Proof.
  intros Hkeys Hvals Hv. unfold set_property.
  destruct (has_key k o) eqn:Hhas.
  - split; [now rewrite map_fst_replace_key|].
    clear Hkeys Hhas. induction o as [|[k0 v0] o IH]; [reflexivity|].
    cbn [forallb snd] in Hvals. apply andb_true_iff in Hvals.
    destruct Hvals as [H0 Hvals].
    cbn [replace_key]. destruct (JS.eqb k0 k); cbn [forallb snd].
    + now rewrite Hv, Hvals.
    + now rewrite H0, IH.
  - split; [now apply keys_ok_add_key|].
    apply forallb_forall. intros x Hx. apply In_add_key in Hx.
    destruct Hx as [->|Hx]; [exact Hv|].
    rewrite forallb_forall in Hvals. now apply Hvals.
Qed.

(** Whatever the parser returns is a value of the model. *)
Lemma parse_value_ok (f : nat) :
  (forall s v r, parse_value f s = Some (v, r) -> value_ok v = true)
  /\ (forall s l r, parse_elements f s = Some (l, r) ->
                    forallb value_ok l = true)
  /\ (forall acc s o r,
        parse_members f acc s = Some (o, r) ->
        keys_ok (map fst acc) = true ->
        forallb (fun kv => value_ok (snd kv)) acc = true ->
        keys_ok (map fst o) = true
        /\ forallb (fun kv => value_ok (snd kv)) o = true).
Proof.
  induction f as [|f (IHv & IHe & IHm)];
    [repeat split; intros; discriminate|].
  split; [|split].
  - intros s v r. cbn [parse_value].
    destruct (skip_ws s) as [|c t]; [discriminate|].
    destruct (N.eqb c 123).
    { destruct (skip_ws t) as [|c' t']; [discriminate|].
      destruct (N.eqb c' 125); [intros E; now injection E as <- _|].
      destruct (parse_members f [] (c' :: t')) as [[o rest]|] eqn:Em;
        [|discriminate].
      intros E. injection E as <- _.
      destruct (IHm _ _ _ _ Em eq_refl eq_refl) as [H1 H2].
      cbn [value_ok]. now rewrite H1, H2. }
    destruct (N.eqb c 91).
    { destruct (skip_ws t) as [|c' t']; [discriminate|].
      destruct (N.eqb c' 93); [intros E; now injection E as <- _|].
      destruct (parse_elements f (c' :: t')) as [[l rest]|] eqn:Ee;
        [|discriminate].
      intros E. injection E as <- _. cbn [value_ok]. exact (IHe _ _ _ Ee). }
    destruct (N.eqb c 34).
    { destruct (parse_string t) as [[str rest]|]; [|discriminate].
      intros E. now injection E as <- _. }
    destruct (N.eqb c 110).
    { destruct (expect (lit "ull") t); [|discriminate].
      intros E. now injection E as <- _. }
    destruct (N.eqb c 116).
    { destruct (expect (lit "rue") t); [|discriminate].
      intros E. now injection E as <- _. }
    destruct (N.eqb c 102).
    { destruct (expect (lit "alse") t); [|discriminate].
      intros E. now injection E as <- _. }
    destruct (parse_number (c :: t)) as [[x rest]|] eqn:En; [|discriminate].
    intros E. injection E as <- _. cbn [value_ok].
    exact (parse_number_ok _ _ _ En).
  - intros s l r. cbn [parse_elements].
    destruct (parse_value f s) as [[v t]|] eqn:Ev; [|discriminate].
    destruct (skip_ws t) as [|c t']; [discriminate|].
    destruct (N.eqb c 44).
    { destruct (parse_elements f t') as [[l' rest]|] eqn:Ee; [|discriminate].
      intros E. injection E as <- _. cbn [forallb].
      now rewrite (IHv _ _ _ Ev), (IHe _ _ _ Ee). }
    destruct (N.eqb c 93); [|discriminate].
    intros E. injection E as <- _. cbn [forallb].
    now rewrite (IHv _ _ _ Ev).
  - intros acc s o r. cbn [parse_members].
    destruct (skip_ws s) as [|c t]; [discriminate|].
    destruct (N.eqb c 34); [|discriminate].
    destruct (parse_string t) as [[k r1]|]; [|discriminate].
    destruct (skip_ws r1) as [|c1 r2]; [discriminate|].
    destruct (N.eqb c1 58); [|discriminate].
    destruct (parse_value f r2) as [[v r3]|] eqn:Ev; [|discriminate].
    destruct (skip_ws r3) as [|c3 r4]; [discriminate|].
    intros E Hkeys Hvals.
    destruct (set_property_ok acc k v Hkeys Hvals (IHv _ _ _ Ev)) as [H1 H2].
    destruct (N.eqb c3 44); [exact (IHm _ _ _ _ E H1 H2)|].
    destruct (N.eqb c3 125); [|discriminate].
    injection E as <- _. now split.
Qed.

(** [JSON.parse] returns values of the model only. *)
Lemma parse_ok (text : jsstring) (v : value) :
  JSON.parse text = Some v -> value_ok v = true.
Proof.
  unfold JSON.parse.
  destruct (parse_value (2 * List.length text + 2) text) as [[v' rest]|] eqn:E;
    [|discriminate].
  destruct (skip_ws rest); [|discriminate].
  intros H. injection H as <-.
  exact (proj1 (parse_value_ok _) _ _ _ E).
Qed.

End ParsedFacts.

(* ================================================================= *)
(** * [JSON.parse] and its fuel *)

Module FuelFacts.

Lemma skip_ws_length (s : jsstring) : List.length (skip_ws s) <= List.length s.
Proof.
  induction s as [|c r IH]; [reflexivity|].
  cbn [skip_ws]. destruct (is_ws c); cbn [List.length]; lia.
Qed.

Lemma skip_ws_cons (s : jsstring) (c : char) (t : jsstring) :
  skip_ws s = c :: t -> List.length t < List.length s.
Proof.
  intros E. pose proof (skip_ws_length s) as H. rewrite E in H.
  cbn [List.length] in H. lia.
Qed.

Lemma expect_length (p s r : jsstring) :
  expect p s = Some r -> List.length r <= List.length s.
Proof.
  revert s. induction p as [|a p IH]; intros [|b s]; cbn [expect];
    try discriminate.
  - intros E. injection E as <-. lia.
  - intros E. injection E as <-. lia.
  - destruct (char_eqb a b); [|discriminate].
    intros E. apply IH in E. cbn [List.length]. lia.
Qed.

Lemma span_digits_length (s : jsstring) :
  List.length (snd (span_digits s)) <= List.length s.
Proof.
  induction s as [|c r IH]; [reflexivity|].
  cbn [span_digits]. destruct (is_digit c); [|reflexivity].
  destruct (span_digits r) as [ds rest]. cbn [snd List.length] in *. lia.
Qed.

Lemma parse_string_length (s k r : jsstring) :
  parse_string s = Some (k, r) -> List.length r < List.length s.
Proof.
  remember (List.length s) as n eqn:Hn. revert s k r Hn.
  induction n as [n IH] using lt_wf_ind. intros s k r Hn.
  assert (Hrec : forall c t k' r',
             List.length t < n ->
             cons_result c (parse_string t) = Some (k', r') ->
             List.length r' < List.length t).
  { intros c t k' r' Ht E. unfold cons_result in E.
    destruct (parse_string t) as [[k0 r0]|] eqn:Et; [|discriminate].
    injection E as _ <-. exact (IH _ Ht t k0 r0 eq_refl Et). }
  destruct s as [|c t]; [discriminate|]. cbn [parse_string].
  subst n. cbn [List.length] in *.
  destruct (N.eqb c 34); [intros E; injection E as _ <-; lia|].
  destruct (N.eqb c 92).
  - destruct t as [|e r1]; [discriminate|].
    destruct (N.eqb e 117).
    + destruct r1 as [|h1 [|h2 [|h3 [|h4 r2]]]]; try discriminate.
      destruct (hex4 h1 h2 h3 h4); [|discriminate].
      intros E. apply Hrec in E; cbn [List.length] in *; lia.
    + destruct (simple_escape e); [|discriminate].
      intros E. apply Hrec in E; cbn [List.length] in *; lia.
  - destruct (N.ltb c 32); [discriminate|].
    intros E. apply Hrec in E; lia.
Qed.

Lemma parse_number_length (s r : jsstring) (x : number) :
  parse_number s = Some (x, r) -> List.length r < List.length s.
Proof.
  unfold parse_number.
  destruct (parse_sign s) as [neg s1] eqn:Es.
  assert (H1 : List.length s1 <= List.length s).
  { unfold parse_sign in Es. destruct s as [|c t].
    - injection Es as _ <-. lia.
    - destruct (N.eqb c 45); injection Es as _ <-; cbn [List.length]; lia. }
  destruct (parse_int_part s1) as [[ipart s2]|] eqn:Ei; [|discriminate].
  assert (H2 : List.length s2 < List.length s1).
  { unfold parse_int_part in Ei. destruct s1 as [|c t]; [discriminate|].
    destruct (N.eqb c 48); [injection Ei as _ <-; cbn [List.length]; lia|].
    destruct (is_digit c) eqn:Ec; [|discriminate].
    assert (E : span_digits (c :: t) = (ipart, s2)) by congruence.
    cbn [span_digits] in E. rewrite Ec in E.
    pose proof (span_digits_length t) as Ht.
    destruct (span_digits t) as [ds rest]. injection E as _ <-.
    cbn [snd List.length] in *. lia. }
  destruct (parse_fraction s2) as [[fpart s3]|] eqn:Ef; [|discriminate].
  assert (H3 : List.length s3 <= List.length s2).
  { unfold parse_fraction in Ef. destruct s2 as [|c t].
    - injection Ef as _ <-. lia.
    - destruct (N.eqb c 46).
      + pose proof (span_digits_length t) as Ht.
        destruct (span_digits t) as [[|d ds] rest]; [discriminate|].
        injection Ef as _ <-. cbn [snd List.length] in *. lia.
      + injection Ef as _ <-. lia. }
  destruct (parse_exponent s3) as [[e s4]|] eqn:Ee; [|discriminate].
  assert (H4 : List.length s4 <= List.length s3).
  { unfold parse_exponent in Ee. destruct s3 as [|c t].
    - injection Ee as _ <-. lia.
    - destruct (N.eqb c 101 || N.eqb c 69)%bool.
      + assert (Hsign : forall t',
                   List.length t' <= List.length t ->
                   match span_digits t' with
                   | ([], _) => None
                   | (d :: ds, rest) =>
                     Some (Z.of_N (N_of_digits (d :: ds)), rest)
                   end = Some (e, s4) \/
                   match span_digits t' with
                   | ([], _) => None
                   | (d :: ds, rest) =>
                     Some ((- Z.of_N (N_of_digits (d :: ds)))%Z, rest)
                   end = Some (e, s4) ->
                   List.length s4 <= List.length (c :: t)).
        { intros t' Ht' E. pose proof (span_digits_length t') as Hl.
          destruct (span_digits t') as [[|d ds] rest];
            [destruct E; discriminate|].
          cbn [snd List.length] in *.
          destruct E as [E|E]; injection E as _ <-; lia. }
        destruct t as [|c' t'].
        * cbn in Ee. discriminate.
        * destruct (N.eqb c' 45).
          { apply (Hsign t'); [cbn [List.length]; lia|]. right.
            destruct (span_digits t') as [[|d ds] rest]; exact Ee. }
          destruct (N.eqb c' 43).
          { apply (Hsign t'); [cbn [List.length]; lia|]. left.
            destruct (span_digits t') as [[|d ds] rest]; exact Ee. }
          apply (Hsign (c' :: t')); [lia|]. left.
          destruct (span_digits (c' :: t')) as [[|d ds] rest]; exact Ee.
      + injection Ee as _ <-. lia. }
  intros E. injection E as _ <-. lia.
Qed.


(** Whatever is read, the text that remains is shorter. *)
Lemma parse_value_length (f : nat) :
  (forall s v r, parse_value f s = Some (v, r) ->
                 List.length r < List.length s)
  /\ (forall s l r, parse_elements f s = Some (l, r) ->
                    List.length r < List.length s)
  /\ (forall acc s o r, parse_members f acc s = Some (o, r) ->
                        List.length r < List.length s).
Proof.
  induction f as [|f (IHv & IHe & IHm)];
    [repeat split; intros; discriminate|].
  split; [|split].
  - intros s v r. cbn [parse_value].
    destruct (skip_ws s) as [|c t] eqn:Es; [discriminate|].
    pose proof (skip_ws_cons s c t Es) as Hs.
    destruct (N.eqb c 123).
    { destruct (skip_ws t) as [|c' t'] eqn:Et; [discriminate|].
      pose proof (skip_ws_cons t c' t' Et) as Ht.
      destruct (N.eqb c' 125); [intros E; injection E as _ <-; lia|].
      destruct (parse_members f [] (c' :: t')) as [[o rest]|] eqn:Em;
        [|discriminate].
      intros E. injection E as _ <-. apply IHm in Em.
      cbn [List.length] in Em. lia. }
    destruct (N.eqb c 91).
    { destruct (skip_ws t) as [|c' t'] eqn:Et; [discriminate|].
      pose proof (skip_ws_cons t c' t' Et) as Ht.
      destruct (N.eqb c' 93); [intros E; injection E as _ <-; lia|].
      destruct (parse_elements f (c' :: t')) as [[l rest]|] eqn:Ee;
        [|discriminate].
      intros E. injection E as _ <-. apply IHe in Ee.
      cbn [List.length] in Ee. lia. }
    destruct (N.eqb c 34).
    { destruct (parse_string t) as [[str rest]|] eqn:Ek; [|discriminate].
      intros E. injection E as _ <-. apply parse_string_length in Ek. lia. }
    destruct (N.eqb c 110).
    { destruct (expect (lit "ull") t) as [rest|] eqn:Ex; [|discriminate].
      intros E. injection E as _ <-. apply expect_length in Ex. lia. }
    destruct (N.eqb c 116).
    { destruct (expect (lit "rue") t) as [rest|] eqn:Ex; [|discriminate].
      intros E. injection E as _ <-. apply expect_length in Ex. lia. }
    destruct (N.eqb c 102).
    { destruct (expect (lit "alse") t) as [rest|] eqn:Ex; [|discriminate].
      intros E. injection E as _ <-. apply expect_length in Ex. lia. }
    destruct (parse_number (c :: t)) as [[x rest]|] eqn:En; [|discriminate].
    intros E. injection E as _ <-. apply parse_number_length in En.
    cbn [List.length] in En. lia.
  - intros s l r. cbn [parse_elements].
    destruct (parse_value f s) as [[v t]|] eqn:Ev; [|discriminate].
    apply IHv in Ev.
    destruct (skip_ws t) as [|c t'] eqn:Et; [discriminate|].
    pose proof (skip_ws_cons t c t' Et) as Ht.
    destruct (N.eqb c 44).
    { destruct (parse_elements f t') as [[l' rest]|] eqn:Ee; [|discriminate].
      intros E. injection E as _ <-. apply IHe in Ee. lia. }
    destruct (N.eqb c 93); [|discriminate].
    intros E. injection E as _ <-. lia.
  - intros acc s o r. cbn [parse_members].
    destruct (skip_ws s) as [|c t] eqn:Es; [discriminate|].
    pose proof (skip_ws_cons s c t Es) as Hs.
    destruct (N.eqb c 34); [|discriminate].
    destruct (parse_string t) as [[k r1]|] eqn:Ek; [|discriminate].
    apply parse_string_length in Ek.
    destruct (skip_ws r1) as [|c1 r2] eqn:E1; [discriminate|].
    pose proof (skip_ws_cons r1 c1 r2 E1) as H1.
    destruct (N.eqb c1 58); [|discriminate].
    destruct (parse_value f r2) as [[v r3]|] eqn:Ev; [|discriminate].
    apply IHv in Ev.
    destruct (skip_ws r3) as [|c3 r4] eqn:E3; [discriminate|].
    pose proof (skip_ws_cons r3 c3 r4 E3) as H3.
    destruct (N.eqb c3 44); [intros E; apply IHm in E; lia|].
    destruct (N.eqb c3 125); [|discriminate].
    intros E. injection E as _ <-. lia.
Qed.

(** Above twice the length of the text, the fuel does not matter. *)
Lemma parse_value_stable (f : nat) :
  (forall s f', 2 * List.length s + 1 <= f -> f <= f' ->
                parse_value f' s = parse_value f s)
  /\ (forall s f', 2 * List.length s + 2 <= f -> f <= f' ->
                   parse_elements f' s = parse_elements f s)
  /\ (forall acc s f', 2 * List.length s + 2 <= f -> f <= f' ->
                       parse_members f' acc s = parse_members f acc s).
Proof.
  induction f as [|f (IHv & IHe & IHm)]; [repeat split; intros; lia|].
  split; [|split].
  - intros s [|f'] Hs Hf; [lia|]. cbn [parse_value].
    destruct (skip_ws s) as [|c t] eqn:Es; [reflexivity|].
    pose proof (skip_ws_cons s c t Es) as Hlen.
    destruct (skip_ws t) as [|c' t'] eqn:Et; [reflexivity|].
    pose proof (skip_ws_cons t c' t' Et) as Hlen'.
    rewrite (IHm [] (c' :: t') f'), (IHe (c' :: t') f');
      cbn [List.length]; try lia. reflexivity.
  - intros s [|f'] Hs Hf; [lia|]. cbn [parse_elements].
    rewrite (IHv s f') by lia.
    destruct (parse_value f s) as [[v t]|] eqn:Ev; [|reflexivity].
    apply (proj1 (parse_value_length f)) in Ev.
    destruct (skip_ws t) as [|c t'] eqn:Et; [reflexivity|].
    pose proof (skip_ws_cons t c t' Et) as Hlen.
    rewrite (IHe t' f') by lia. reflexivity.
  - intros acc s [|f'] Hs Hf; [lia|]. cbn [parse_members].
    destruct (skip_ws s) as [|c t] eqn:Es; [reflexivity|].
    pose proof (skip_ws_cons s c t Es) as Hlen.
    destruct (N.eqb c 34); [|reflexivity].
    destruct (parse_string t) as [[k r1]|] eqn:Ek; [|reflexivity].
    apply parse_string_length in Ek.
    destruct (skip_ws r1) as [|c1 r2] eqn:E1; [reflexivity|].
    pose proof (skip_ws_cons r1 c1 r2 E1) as H1.
    destruct (N.eqb c1 58); [|reflexivity].
    rewrite (IHv r2 f') by lia.
    destruct (parse_value f r2) as [[v r3]|] eqn:Ev; [|reflexivity].
    apply (proj1 (parse_value_length f)) in Ev.
    destruct (skip_ws r3) as [|c3 r4] eqn:E3; [reflexivity|].
    pose proof (skip_ws_cons r3 c3 r4 E3) as H3.
    rewrite (IHm (set_property acc k v) r4 f') by lia. reflexivity.
Qed.

(** The answer of [JSON.parse] is the answer with any larger fuel: [None]
    is a text that is not JSON, never a lack of fuel. *)
Lemma parse_fuel_enough (text : jsstring) (fuel : nat) :
  2 * List.length text + 2 <= fuel ->
  parse_value fuel text = parse_value (2 * List.length text + 2) text.
Proof.
  intros H. apply (proj1 (parse_value_stable _)); lia.
Qed.

End FuelFacts.

(* ================================================================= *)
(** * Settling calls *)

Module HandlerFacts.

Lemma nth_error_last {X} (l : list X) (x : X) :
  nth_error (l ++ [x]) (List.length l) = Some x.
Proof. induction l as [|y l IH]; [reflexivity|exact IH]. Qed.

Lemma remove_nth_last {X} (l : list X) (x : X) :
  remove_nth (List.length l) (l ++ [x]) = l.
Proof. induction l as [|y l IH]; [reflexivity|]. cbn. now rewrite IH. Qed.

(** The call sent last settles: the function awaiting it runs on, from
    the world without that call. *)
Lemma settled_last {S} (st : S) (pend : list (Pending S)) (lg : list Obs)
      (p : Pending S) (rep : Reply) (k : Proc S unit) :
  resume p rep = Some k ->
  settled (List.length pend) rep
    {| state := st; pending := pend ++ [p]; log := lg |}
  = exec false k {| state := st; pending := pend; log := lg |}.
Proof.
  intros Hk. unfold settled. cbn [pending state log].
  now rewrite nth_error_last, remove_nth_last, Hk.
Qed.

End HandlerFacts.

(* ================================================================= *)
(** * The search page *)

Module HomeFacts.
Import JSFacts HandlerFacts Home.

Section Claims.
Variable BACKEND_URL : jsstring.

Local Abbreviation search_request := (Home.search_request BACKEND_URL).

Lemma handleSearch_blank (st : State) :
  blank (query st) = true ->
  handleSearch BACKEND_URL st = toast_error "Digite algo para buscar".
Proof.
  intros H. unfold handleSearch. now rewrite truthy_trim, H.
Qed.

Lemma handleSearch_unselected (st : State) :
  blank (query st) = false -> selectedSources st = [] ->
  handleSearch BACKEND_URL st = toast_error "Selecione ao menos uma fonte".
Proof.
  intros H E. unfold handleSearch. now rewrite truthy_trim, H, E.
Qed.

Lemma handleSearch_sends (st : State) (w : World State) :
  blank (query st) = false -> selectedSources st <> [] ->
  exists k,
    exec false (handleSearch BACKEND_URL st) w
    = suspend (search_request st) (WaitResults (search_request st) k)
        {| state := setHasSearched true (setSearching true (state w));
           pending := pending w; log := log w |}.
Proof.
  intros H E. unfold handleSearch. rewrite truthy_trim, H.
  destruct (selectedSources st) as [|s l] eqn:Es; [congruence|].
  cbn [negb List.length Nat.eqb]. rewrite <- Es.
  eexists. reflexivity.
Qed.

(** C1.  A blank query or an empty selection produces one local
    notification and nothing else: no call is sent, no call is left
    pending, the state is untouched.  Otherwise one call is sent, POST
    /search, whose body is the object with the trimmed query under
    [query], the content type under [type] and the selected ids under
    [source_ids]; the in-flight flag and the searched flag are raised and
    the rest of the state is as it was. *)
Theorem search_preconditions (st : State) (w : World State) :
  (blank (query st) = true ->
   exec false (handleSearch BACKEND_URL st) w
   = observe (Toasted Error "Digite algo para buscar") w)
  /\ (blank (query st) = false -> selectedSources st = [] ->
      exec false (handleSearch BACKEND_URL st) w
      = observe (Toasted Error "Selecione ao menos uma fonte") w)
  /\ (blank (query st) = false -> selectedSources st <> [] ->
      let request :=
        {| method := POST;
           url := BACKEND_URL ++ lit "/api" ++ lit "/search";
           body := Some (JObject
                           [(lit "query", JString (trim (query st)));
                            (lit "type", JString (contentType st));
                            (lit "source_ids",
                             JArray (map JString (selectedSources st)))]) |} in
      let w' := exec false (handleSearch BACKEND_URL st) w in
      (exists k,
          w' = suspend (search_request st) (WaitResults (search_request st) k)
                 {| state := setHasSearched true
                               (setSearching true (state w));
                    pending := pending w; log := log w |}
          /\ pending w' = pending w ++ [WaitResults request k])
      /\ log w' = log w ++ [Sent request]
      /\ searching (state w') = true
      /\ hasSearched (state w') = true
      /\ query (state w') = query (state w)
      /\ contentType (state w') = contentType (state w)
      /\ sources (state w') = sources (state w)
      /\ selectedSources (state w') = selectedSources (state w)
      /\ results (state w') = results (state w)).
Proof.
  split; [|split].
  - intros H. now rewrite handleSearch_blank.
  - intros H E. now rewrite handleSearch_unselected.
  - intros H E request w'.
    destruct (handleSearch_sends st w H E) as [k Hk].
    subst w'. rewrite Hk. split.
    + exists k. split; [reflexivity|].
      unfold suspend. cbn [pending]. unfold request, Home.search_request,
        search_body, API. now rewrite <- !app_assoc.
    + unfold suspend. cbn [state log]. unfold request, Home.search_request,
        search_body, API. rewrite <- !app_assoc. repeat split.
Qed.

(** A click on a source row applies the toggle to the current selection. *)
Lemma source_clicked (sourceId : Id) (w : World State) :
  step BACKEND_URL (SourceClicked sourceId) w
  = {| state := setSelectedSources (toggled sourceId) (state w);
       pending := pending w; log := log w |}.
Proof. reflexivity. Qed.

(** The search button does nothing while a search is in flight. *)
Lemma button_disabled (w : World State) :
  searching (state w) = true -> step BACKEND_URL ButtonClicked w = w.
Proof. intros H. unfold step, on_event. now rewrite H. Qed.

(** The Enter key runs [handleSearch] whatever the in-flight flag says. *)
Lemma enter_ignores_flag (w : World State) :
  blank (query (state w)) = false -> selectedSources (state w) <> [] ->
  exists k,
    step BACKEND_URL (InputKeyPressed (lit "Enter")) w
    = suspend (search_request (state w))
        (WaitResults (search_request (state w)) k)
        {| state := setHasSearched true (setSearching true (state w));
           pending := pending w; log := log w |}.
Proof.
  intros H E.
  destruct (handleSearch_sends (state w) w H E) as [k Hk].
  exists k. unfold step, on_event, handleKeyPress.
  change (JS.eqb (lit "Enter") (lit "Enter")) with true.
  cbv iota. unfold call. cbn [exec]. exact Hk.
Qed.

(** C6.  Selecting another content type stores it and sends
    GET /sources/by-type/{type} for it; when that call resolves, the
    source list is the data returned and the selection is the ids of
    all of them. *)
Theorem content_type_reload (v : jsstring) (w : World State) :
  v <> contentType (state w) ->
  let request :=
    {| method := GET;
       url := API BACKEND_URL ++ lit "/sources/by-type/" ++ v;
       body := None |} in
  let w1 := step BACKEND_URL (TypeSelected v) w in
  contentType (state w1) = v
  /\ log w1 = log w ++ [Sent request]
  /\ exists k,
      pending w1 = pending w ++ [WaitSources request k]
      /\ forall data,
          let w2 := settled (List.length (pending w))
                      (SourcesReply (Resolved data)) w1 in
          sources (state w2) = data
          /\ selectedSources (state w2) = map id data
          /\ contentType (state w2) = v
          /\ pending w2 = pending w
          /\ log w2 = log w1.
Proof.
  intros Hv request w1.
  assert (E : w1 = suspend request
                     (WaitSources request
                        (fun o =>
                           try_catch
                             (bind (settle o) (fun data =>
                                bind (set (setSources data)) (fun _ =>
                                  set (setSelectedSources
                                         (fun _ => map id data)))))
                             (fun error =>
                                bind (console_error "Error loading sources:"
                                                    error)
                                     (fun _ =>
                                        toast_error
                                          "Erro ao carregar fontes"))))
                     {| state := setContentType v (state w);
                        pending := pending w; log := log w |}).
  { unfold w1, step, on_event.
    apply eqb_neq in Hv. rewrite Hv. reflexivity. }
  rewrite E. repeat split.
  eexists. split; [reflexivity|].
  intros data w2. unfold w2.
  unfold suspend. cbn [state pending log].
  erewrite settled_last by reflexivity.
  repeat split.
Qed.

(** C3.  With a search in flight the button is dead, but pressing Enter
    in the input sends the search call again: two POST /search calls
    are then pending, neither settled. *)
Theorem enter_key_resubmits :
  let w := run BACKEND_URL Sample.searching in
  let w' := step BACKEND_URL (InputKeyPressed (lit "Enter")) w in
  searching (state w) = true
  /\ map request_of (pending w) = [Sample.zelda_request BACKEND_URL]
  /\ step BACKEND_URL ButtonClicked w = w
  /\ log w' = log w ++ [Sent (Sample.zelda_request BACKEND_URL)]
  /\ map request_of (pending w')
     = [Sample.zelda_request BACKEND_URL;
        Sample.zelda_request BACKEND_URL].
Proof. repeat split. Qed.
End Claims.

(** C10.  On a duplicate-free selection, one toggle inverts the
    membership of the id, keeps the membership of every other id and
    keeps the list duplicate-free; a second toggle restores every
    membership. *)
Theorem toggle_membership (sourceId : Id) (prev : list Id) :
  NoDup prev ->
  (In sourceId (toggled sourceId prev) <-> ~ In sourceId prev)
  /\ (forall other, other <> sourceId ->
        (In other (toggled sourceId prev) <-> In other prev))
  /\ NoDup (toggled sourceId prev)
  /\ (forall x, In x (toggled sourceId (toggled sourceId prev)) <-> In x prev)
  /\ (In sourceId prev ->
      toggled sourceId prev
      = filter (fun id => negb (JS.eqb id sourceId)) prev)
  /\ (~ In sourceId prev -> toggled sourceId prev = prev ++ [sourceId]).
Proof.
  intros Hnd.
  assert (Hinc : forall l, includes sourceId l = true <-> In sourceId l).
  { intros l. unfold includes. rewrite existsb_exists. split.
    - intros (x & Hx & E). apply eqb_eq in E. now subst.
    - intros H. exists sourceId. split; [exact H|apply eqb_refl]. }
  assert (Hfilter : forall l x,
             In x (filter (fun id => negb (JS.eqb id sourceId)) l)
             <-> In x l /\ x <> sourceId).
  { intros l x. rewrite filter_In, negb_true_iff, eqb_neq. tauto. }
  assert (Hmem : forall l x,
             In x (toggled sourceId l)
             <-> (x = sourceId /\ ~ In sourceId l)
                 \/ (x <> sourceId /\ In x l)).
  { intros l x. unfold toggled.
    destruct (includes sourceId l) eqn:E.
    - apply Hinc in E. rewrite Hfilter.
      destruct (JS.eq_dec x sourceId) as [->|N]; tauto.
    - assert (~ In sourceId l) by (rewrite <- Hinc; congruence).
      rewrite in_app_iff. cbn [In].
      destruct (JS.eq_dec x sourceId) as [->|N]; [tauto|].
      split; [intros [?|[?|[]]]; [tauto|congruence]|tauto]. }
  split; [|split; [|split; [|split; [|split]]]].
  - rewrite Hmem. intuition congruence.
  - intros other Hother. rewrite Hmem. intuition congruence.
  - unfold toggled. destruct (includes sourceId prev) eqn:E.
    + now apply NoDup_filter.
    + apply NoDup_app; [exact Hnd|repeat constructor; intros []|].
      intros x Hx [<-|[]]. apply Hinc in Hx. congruence.
  - intros x. rewrite Hmem, (Hmem prev x), (Hmem prev sourceId).
    destruct (JS.eq_dec x sourceId) as [->|N];
      destruct (in_dec JS.eq_dec sourceId prev) as [I|I];
      intuition congruence.
  - intros H. unfold toggled. apply Hinc in H. now rewrite H.
  - intros H. unfold toggled.
    destruct (includes sourceId prev) eqn:E; [|reflexivity].
    apply Hinc in E. contradiction.
Qed.

(** The second toggle may put the id at another place. *)
Example toggle_twice_reorders :
  toggled (lit "s1") (toggled (lit "s1") [lit "s1"; lit "s2"])
  = [lit "s2"; lit "s1"].
Proof. reflexivity. Qed.

Lemma toggle_membership_witness :
  NoDup [lit "s1"; lit "s2"]
  /\ NoDup (toggled (lit "s1") [lit "s1"; lit "s2"]).
Proof.
  assert (H : NoDup [lit "s1"; lit "s2"]).
  { constructor; [|constructor; [|constructor]]; cbn.
    - intros [E|[]]. discriminate E.
    - intros []. }
  split; [exact H|].
  exact (proj1 (proj2 (proj2 (toggle_membership (lit "s1") _ H)))).
Defined.

Lemma search_preconditions_witness :
  blank (query (setQuery (lit "   ") initial)) = true
  /\ exec false
       (handleSearch Sample.backend (setQuery (lit "   ") initial))
       (mount Sample.backend)
     = observe (Toasted Error "Digite algo para buscar")
               (mount Sample.backend).
Proof.
  split; [reflexivity|].
  apply (proj1 (search_preconditions Sample.backend _ _)). reflexivity.
Defined.

Lemma content_type_reload_witness :
  lit "movie" <> contentType (state (mount Sample.backend))
  /\ contentType
       (state (step Sample.backend (TypeSelected (lit "movie"))
                    (mount Sample.backend)))
     = lit "movie".
Proof.
  assert (H : lit "movie" <> contentType (state (mount Sample.backend)))
    by (cbn; discriminate).
  split; [exact H|].
  exact (proj1 (content_type_reload Sample.backend (lit "movie") _ H)).
Defined.

End HomeFacts.

(* ================================================================= *)
(** * The administration page *)

Module AdminFacts.
Import JSFacts HandlerFacts ParseFacts Admin.

Section Claims.
Variable BACKEND_URL : jsstring.

Local Abbreviation list_request := (Admin.list_request BACKEND_URL).
Local Abbreviation seed_request := (Admin.seed_request BACKEND_URL).
Local Abbreviation update_request := (Admin.update_request BACKEND_URL).
Local Abbreviation delete_request := (Admin.delete_request BACKEND_URL).
Local Abbreviation toggle_request := (Admin.toggle_request BACKEND_URL).
Local Abbreviation submit_request := (Admin.submit_request BACKEND_URL).
Local Abbreviation is_seed := (Admin.is_seed BACKEND_URL).
Local Abbreviation seeds := (Admin.seeds BACKEND_URL).
Local Abbreviation Seedless := (Admin.Seedless BACKEND_URL).
Local Abbreviation seedless_pending := (Admin.seedless_pending BACKEND_URL).

(** [loadSources] sends GET /sources and waits. *)
Lemma loadSources_sends (w : World State) :
  exists k,
    exec false (loadSources BACKEND_URL) w
    = suspend list_request (WaitSources list_request k) w
    /\ (forall data, k (Resolved data)
                     = bind (set (setSources data))
                            (fun _ => set (setLoading false)))
    /\ (forall e, k (Rejected e)
                  = bind (console_error "Error loading sources:" e)
                      (fun _ => bind (toast_error "Erro ao carregar fontes")
                                  (fun _ => set (setLoading false)))).
Proof. eexists. repeat split. Qed.

(** C7.  When GET /sources fails the list is not assigned: the sources
    shown, the dialog and the draft stay as they were, the error is
    logged and a notification is shown, and the loading flag is cleared.
    On success the list is the data returned and the loading flag is
    cleared too. *)
Theorem list_failure_keeps_sources (w : World State) (e : Exn) :
  let request :=
    {| method := GET; url := BACKEND_URL ++ lit "/api" ++ lit "/sources";
       body := None |} in
  let w1 := exec false (loadSources BACKEND_URL) w in
  let failed := settled (List.length (pending w))
                  (SourcesReply (Rejected e)) w1 in
  log w1 = log w ++ [Sent request]
  /\ state w1 = state w
  /\ state failed = setLoading false (state w)
  /\ loading (state failed) = false
  /\ sources (state failed) = sources (state w)
  /\ dialogOpen (state failed) = dialogOpen (state w)
  /\ editingSource (state failed) = editingSource (state w)
  /\ formData (state failed) = formData (state w)
  /\ log failed = log w1 ++ [Logged "Error loading sources:" e;
                             Toasted Error "Erro ao carregar fontes"]
  /\ pending failed = pending w
  /\ forall data,
      let loaded := settled (List.length (pending w))
                      (SourcesReply (Resolved data)) w1 in
      state loaded = setLoading false (setSources data (state w))
      /\ loading (state loaded) = false
      /\ sources (state loaded) = data
      /\ log loaded = log w1
      /\ pending loaded = pending w.
Proof.
  intros request w1 failed.
  destruct (loadSources_sends w) as (k & E & Hok & Herr).
  unfold failed, w1. rewrite E. unfold suspend. cbn [state pending log].
  erewrite settled_last by reflexivity. rewrite Herr.
  cbn [exec bind console_error toast_error set observe state pending log].
  split; [unfold request, Admin.list_request, API;
          now rewrite <- !app_assoc|].
  split; [reflexivity|]. split; [reflexivity|].
  split; [reflexivity|]. split; [reflexivity|].
  split; [reflexivity|]. split; [reflexivity|].
  split; [reflexivity|]. split; [now rewrite <- app_assoc|].
  split; [reflexivity|].
  intros data.
  erewrite settled_last by reflexivity. rewrite Hok.
  repeat split.
Qed.

(** C8.  A dismissed confirmation ends [handleDelete]: nothing is sent
    and the state is untouched.  The DELETE call follows a confirmed
    dialog. *)
Theorem delete_needs_confirmation (sourceId : Id) (w : World State) :
  step BACKEND_URL (DeleteClicked sourceId false) w
  = observe (Asked "Tem certeza que deseja excluir esta fonte?" false) w
  /\ exists k,
      step BACKEND_URL (DeleteClicked sourceId true) w
      = suspend (delete_request sourceId)
          (WaitDone (delete_request sourceId) k)
          (observe (Asked "Tem certeza que deseja excluir esta fonte?" true)
                   w).
Proof. split; [reflexivity|]. eexists. reflexivity. Qed.

(** [handleToggleEnabled] sends the update and waits. *)
Lemma handleToggleEnabled_sends (source : Source) (w : World State) :
  exists k,
    exec false (handleToggleEnabled BACKEND_URL source) w
    = suspend (toggle_request source)
        (WaitDone (toggle_request source) k) w
    /\ k (Resolved tt) = call (loadSources BACKEND_URL)
    /\ (forall e, k (Rejected e)
                  = bind (console_error "Error toggling source:" e)
                      (fun _ => toast_error "Erro ao atualizar fonte")).
Proof. eexists. repeat split. Qed.

(** C5.  The switch of a source row sends PUT /sources/{id} with a body
    that holds the negated [enabled] flag and nothing else; when the
    call resolves, GET /sources is sent and the list shown is replaced
    by what it returns. *)
Theorem toggle_enabled_only (source : Source) (w : World State) :
  let update :=
    {| method := PUT;
       url := API BACKEND_URL ++ lit "/sources/" ++ id source;
       body := Some (JObject [(lit "enabled",
                               JBool (negb (Api.enabled source)))]) |} in
  let w1 := step BACKEND_URL (SwitchToggled source) w in
  state w1 = state w
  /\ log w1 = log w ++ [Sent update]
  /\ exists k,
      pending w1 = pending w ++ [WaitDone update k]
      /\ let w2 := settled (List.length (pending w))
                     (DoneReply (Resolved tt)) w1 in
         state w2 = state w
         /\ log w2 = log w1 ++ [Sent list_request]
         /\ exists k2,
             pending w2 = pending w ++ [WaitSources list_request k2]
             /\ forall data,
                 let w3 := settled (List.length (pending w))
                             (SourcesReply (Resolved data)) w2 in
                 sources (state w3) = data
                 /\ loading (state w3) = false
                 /\ log w3 = log w2.
Proof.
  intros update w1.
  destruct (handleToggleEnabled_sends source w) as (k & E & Hok & _).
  assert (E1 : w1 = suspend update (WaitDone update k) w).
  { unfold w1, step, on_event, call. cbn [exec]. exact E. }
  rewrite E1. unfold suspend at 1 2 3. cbn [state pending log].
  split; [reflexivity|]. split; [reflexivity|].
  exists k. split; [reflexivity|].
  unfold suspend. cbn [state pending log].
  erewrite settled_last by reflexivity. rewrite Hok.
  unfold call. cbn [exec].
  destruct (loadSources_sends
              {| state := state w; pending := pending w;
                 log := log w ++ [Sent update] |})
    as (k2 & E2 & Hok2 & _).
  rewrite E2. unfold suspend. cbn [state pending log].
  split; [reflexivity|]. split; [reflexivity|].
  exists k2. split; [reflexivity|].
  intros data.
  erewrite settled_last by reflexivity. rewrite Hok2.
  repeat split.
Qed.

Lemma handleSubmit_invalid (w : World State) :
  JSON.parse (config (formData (state w))) = None ->
  step BACKEND_URL SaveClicked w
  = observe (Toasted Error "Configuração JSON inválida") w.
Proof.
  intros H. unfold step, on_event, call, handleSubmit. cbn [exec].
  rewrite H. reflexivity.
Qed.

Lemma handleSubmit_valid (w : World State) (configObj : JSON.value) :
  JSON.parse (config (formData (state w))) = Some configObj ->
  exists k,
    step BACKEND_URL SaveClicked w
    = suspend (submit_request (state w) configObj)
        (WaitDone (submit_request (state w) configObj) k) w.
Proof.
  intros H.
  unfold step, on_event, call, handleSubmit, submit_request. cbn [exec].
  rewrite H. destruct (editingSource (state w)); eexists; reflexivity.
Qed.

(** C2.  When the config text does not parse, Save shows the validation
    notification and does nothing else: no call is sent and the dialog
    and the form are as they were.  When it parses, the call is sent,
    PUT for an edited source and POST for a new one, and its body holds
    the parsed value under [config]. *)
Theorem config_validation (w : World State) :
  (JSON.parse (config (formData (state w))) = None ->
   step BACKEND_URL SaveClicked w
   = observe (Toasted Error "Configuração JSON inválida") w)
  /\ (forall configObj,
        JSON.parse (config (formData (state w))) = Some configObj ->
        body (submit_request (state w) configObj)
        = Some (JObject
                  [(lit "name", JString (name (formData (state w))));
                   (lit "type", JString (type (formData (state w))));
                   (lit "url_base", JString (url_base (formData (state w))));
                   (lit "search_method",
                    JString (search_method (formData (state w))));
                   (lit "config", configObj);
                   (lit "enabled", JBool (enabled (formData (state w))))])
        /\ method (submit_request (state w) configObj)
           = match editingSource (state w) with
             | Some _ => PUT
             | None => POST
             end
        /\ exists k,
            step BACKEND_URL SaveClicked w
            = suspend (submit_request (state w) configObj)
                (WaitDone (submit_request (state w) configObj) k) w).
Proof.
  split.
  - apply handleSubmit_invalid.
  - intros configObj H. split; [|split].
    + unfold Admin.submit_request. now destruct (editingSource (state w)).
    + unfold Admin.submit_request. now destruct (editingSource (state w)).
    + now apply handleSubmit_valid.
Qed.



Lemma seeds_app (l : list Obs) (o : Obs) :
  seeds (l ++ [o]) = seeds l + (if is_seed o then 1 else 0).
Proof.
  unfold seeds. rewrite filter_app, length_app. cbn [filter].
  now destruct (is_seed o).
Qed.

Lemma seeds_quiet (l : list Obs) (o : Obs) :
  is_seed o = false -> seeds (l ++ [o]) = seeds l.
Proof. intros H. rewrite seeds_app, H. lia. Qed.

(** Running a seedless program sends no seed call and leaves only
    seedless programs waiting. *)
Lemma exec_seedless {S : Type} (p : Proc S unit) :
  Seedless p ->
  forall answer w,
    Forall seedless_pending (pending w) ->
    seeds (log (exec answer p w)) = seeds (log w)
    /\ Forall seedless_pending (pending (exec answer p w)).
Proof.
  induction 1 as [a|e|k m n _ IH|m e n _ IH|f n _ IH|m k _ IH
                  |r k Hr Hk _|r k Hr Hk _|r k Hr Hk _|p n _ IHp _ IHn];
    intros answer w Hw; cbn [exec].
  - now split.
  - now split.
  - destruct (IH answer (observe (Toasted k m) w) Hw) as [E F].
    split; [|exact F]. rewrite E. now apply seeds_quiet.
  - destruct (IH answer (observe (Logged m e) w) Hw) as [E F].
    split; [|exact F]. rewrite E. now apply seeds_quiet.
  - exact (IH answer {| state := f (state w); pending := pending w;
                        log := log w |} Hw).
  - destruct (IH answer answer (observe (Asked m answer) w) Hw) as [E F].
    split; [|exact F]. rewrite E. now apply seeds_quiet.
  - split; [now apply seeds_quiet|].
    apply Forall_app. split; [exact Hw|]. constructor; [|constructor].
    intros [o|o|o] k0 E; cbn in E; try discriminate.
    injection E as <-. apply Hk.
  - split; [now apply seeds_quiet|].
    apply Forall_app. split; [exact Hw|]. constructor; [|constructor].
    intros [o|o|o] k0 E; cbn in E; try discriminate.
    injection E as <-. apply Hk.
  - split; [now apply seeds_quiet|].
    apply Forall_app. split; [exact Hw|]. constructor; [|constructor].
    intros [o|o|o] k0 E; cbn in E; try discriminate.
    injection E as <-. apply Hk.
  - destruct (IHp answer w Hw) as [E F].
    destruct (IHn answer (exec answer p w) F) as [E' F'].
    split; [congruence|exact F'].
Qed.

Lemma Forall_remove_nth {X} (P : X -> Prop) (i : nat) (l : list X) :
  Forall P l -> Forall P (remove_nth i l).
Proof.
  intros H. revert i.
  induction H as [|x l Hx Hl IH]; intros [|i]; cbn;
    [constructor|constructor|exact Hl|constructor; [exact Hx|apply IH]].
Qed.

Lemma settled_seedless {S : Type} (i : nat) (rep : Reply) (w : World S) :
  Forall seedless_pending (pending w) ->
  seeds (log (settled i rep w)) = seeds (log w)
  /\ Forall seedless_pending (pending (settled i rep w)).
Proof.
  intros Hw. unfold settled.
  destruct (nth_error (pending w) i) as [p|] eqn:Ep; [|now split].
  destruct (resume p rep) as [k|] eqn:Ek; [|now split].
  assert (Hp : seedless_pending p).
  { rewrite Forall_forall in Hw. apply Hw. eapply nth_error_In, Ep. }
  apply (exec_seedless k (Hp rep k Ek) false
           {| state := state w; pending := remove_nth i (pending w);
              log := log w |}).
  now apply Forall_remove_nth.
Qed.

Lemma eqb_app_l (p a b : jsstring) : JS.eqb (p ++ a) (p ++ b) = JS.eqb a b.
Proof.
  induction p as [|c p IH]; [reflexivity|].
  cbn [app JS.eqb]. unfold char_eqb. now rewrite N.eqb_refl, IH.
Qed.

Lemma loadSources_seedless : Seedless (loadSources BACKEND_URL).
Proof.
  unfold loadSources. cbn.
  constructor; [reflexivity|]. intros [data|e]; cbn; repeat constructor.
Qed.

Lemma on_event_seedless (ev : Event) (st : State) :
  Seedless (on_event BACKEND_URL ev st).
Proof.
  pose proof loadSources_seedless as Hload.
  destruct ev as [open|f| |source|sourceId answer|source|i rep];
    cbn [on_event].
  - destruct open; cbn; repeat constructor.
  - repeat constructor.
  - unfold call, handleSubmit. constructor; [|constructor].
    destruct (JSON.parse (config (formData st))) as [configObj|];
      [|cbn; repeat constructor].
    destruct (editingSource st) as [editing|]; cbn -[loadSources].
    + constructor; [reflexivity|].
      intros [[]|e]; cbn -[loadSources];
        repeat (first [exact Hload|constructor]).
    + constructor.
      * cbn. unfold API. now rewrite eqb_app_l.
      * intros [[]|e]; cbn -[loadSources];
        repeat (first [exact Hload|constructor]).
  - cbn. repeat constructor.
  - unfold call, handleDelete. constructor; [|constructor].
    cbn -[loadSources].
    constructor. intros [|]; cbn -[loadSources]; [|constructor].
    constructor; [reflexivity|].
    intros [[]|e]; cbn -[loadSources];
        repeat (first [exact Hload|constructor]).
  - unfold call, handleToggleEnabled. constructor; [|constructor].
    cbn -[loadSources].
    constructor; [reflexivity|].
    intros [[]|e]; cbn -[loadSources];
        repeat (first [exact Hload|constructor]).
  - constructor.
Qed.

(** Along every run of the page, POST /seed has been sent once. *)
Lemma seed_sent_once (evs : list Event) :
  seeds (log (run BACKEND_URL evs)) = 1.
Proof.
  assert (Hmount : seeds (log (mount BACKEND_URL)) = 1
                   /\ Forall seedless_pending (pending (mount BACKEND_URL))).
  { split.
    - cbn. unfold seeds. cbn [filter is_seed method url].
      unfold API. rewrite JSFacts.eqb_refl. reflexivity.
    - cbn. repeat constructor.
      + intros [o|o|o] k E; cbn in E; try discriminate.
        injection E as <-. destruct o; cbn; repeat constructor.
      + intros [o|o|o] k E; cbn in E; try discriminate.
        injection E as <-. destruct o as [[]|e]; cbn; repeat constructor. }
  unfold run. generalize dependent (mount BACKEND_URL).
  induction evs as [|ev evs IH]; intros w [Hs Hp]; [exact Hs|].
  cbn [fold_left]. apply IH.
  assert (Hev : forall answer,
             seeds (log (exec answer (on_event BACKEND_URL ev (state w)) w))
             = seeds (log w)
             /\ Forall seedless_pending
                  (pending (exec answer
                              (on_event BACKEND_URL ev (state w)) w))).
  { intros answer. apply exec_seedless; [apply on_event_seedless|exact Hp]. }
  destruct ev; cbn [step];
    try (destruct (Hev false) as [E F]; split; [congruence|exact F]).
  - destruct (Hev answer) as [E F]. split; [congruence|exact F].
  - destruct (settled_seedless i rep w Hp) as [E F].
    split; [congruence|exact F].
Qed.
End Claims.

Example pretty_printed_config :
  JSON.stringify (JObject [(lit "a", JNumber (of_Z 1))]) 2
  = lit "{" ++ [10%N] ++ lit "  " ++ [34%N] ++ lit "a" ++ [34%N]
      ++ lit ": 1" ++ [10%N] ++ lit "}".
Proof. reflexivity. Qed.

Lemma config_validation_witness :
  JSON.parse (config (formData (state Sample.broken_form))) = None
  /\ step Sample.backend SaveClicked Sample.broken_form
     = observe (Toasted Error "Configuração JSON inválida")
               Sample.broken_form.
Proof.
  split; [reflexivity|].
  apply (proj1 (config_validation Sample.backend Sample.broken_form)).
  reflexivity.
Defined.


End AdminFacts.

(* ================================================================= *)
(** * Programs within bounds *)

Module FrameFacts.
Import Frame HandlerFacts.

Section Frame.
Context {S : Type}.
Variable writes : (S -> S) -> Prop.
Variable sends : Request -> Prop.

Local Abbreviation kept := (Frame.kept writes).

(** Running a program within the bounds keeps what the allowed updates
    keep, leaves only such programs waiting, and adds only allowed
    observations to the log. *)
Lemma exec_within (p : Proc S unit) :
  Within writes sends p ->
  forall answer w,
    Forall (within_pending writes sends) (pending w) ->
    (forall Q, kept Q -> Q (state w) -> Q (state (exec answer p w)))
    /\ Forall (within_pending writes sends) (pending (exec answer p w))
    /\ exists extra,
        log (exec answer p w) = log w ++ extra
        /\ Forall (allowed sends) extra.
Proof.
  induction 1 as [a|e|k m n _ IH|m e n _ IH|f n Hf _ IH|m k _ IH
                  |r k Hr Hk _|r k Hr Hk _|r k Hr Hk _|p n _ IHp _ IHn];
    intros answer w Hw; cbn [exec].
  - repeat split; auto. exists []. now rewrite app_nil_r.
  - repeat split; auto. exists []. now rewrite app_nil_r.
  - destruct (IH answer (observe (Toasted k m) w) Hw)
      as (HQ & HP & extra & E & Hx).
    repeat split; auto. exists (Toasted k m :: extra).
    split; [rewrite E; cbn; now rewrite <- app_assoc|].
    constructor; [exact I|exact Hx].
  - destruct (IH answer (observe (Logged m e) w) Hw)
      as (HQ & HP & extra & E & Hx).
    repeat split; auto. exists (Logged m e :: extra).
    split; [rewrite E; cbn; now rewrite <- app_assoc|].
    constructor; [exact I|exact Hx].
  - destruct (IH answer {| state := f (state w); pending := pending w;
                           log := log w |} Hw)
      as (HQ & HP & extra & E & Hx).
    repeat split; auto.
    + intros Q HQk HQw. apply HQ; [exact HQk|]. cbn. now apply HQk.
    + now exists extra.
  - destruct (IH answer answer (observe (Asked m answer) w) Hw)
      as (HQ & HP & extra & E & Hx).
    repeat split; auto. exists (Asked m answer :: extra).
    split; [rewrite E; cbn; now rewrite <- app_assoc|].
    constructor; [exact I|exact Hx].
  - repeat split; auto.
    + apply Forall_app. split; [exact Hw|]. constructor; [|constructor].
      intros [o|o|o] k0 E; cbn in E; try discriminate.
      injection E as <-. apply Hk.
    + exists [Sent r]. split; [reflexivity|]. now constructor.
  - repeat split; auto.
    + apply Forall_app. split; [exact Hw|]. constructor; [|constructor].
      intros [o|o|o] k0 E; cbn in E; try discriminate.
      injection E as <-. apply Hk.
    + exists [Sent r]. split; [reflexivity|]. now constructor.
  - repeat split; auto.
    + apply Forall_app. split; [exact Hw|]. constructor; [|constructor].
      intros [o|o|o] k0 E; cbn in E; try discriminate.
      injection E as <-. apply Hk.
    + exists [Sent r]. split; [reflexivity|]. now constructor.
  - destruct (IHp answer w Hw) as (HQ1 & HP1 & x1 & E1 & Hx1).
    destruct (IHn answer (exec answer p w) HP1) as (HQ2 & HP2 & x2 & E2 & Hx2).
    split; [|split].
    + intros Q HQk HQw. apply HQ2; [exact HQk|]. now apply HQ1.
    + exact HP2.
    + exists (x1 ++ x2). split; [rewrite E2, E1; now rewrite <- app_assoc|].
      apply Forall_app. now split.
Qed.

Lemma Forall_remove (P : Pending S -> Prop) (i : nat) (l : list (Pending S)) :
  Forall P l -> Forall P (remove_nth i l).
Proof.
  intros H. revert i.
  induction H as [|x l Hx Hl IH]; intros [|i]; cbn;
    [constructor|constructor|exact Hl|constructor; [exact Hx|apply IH]].
Qed.

(** The same when a pending call settles. *)
Lemma settled_within (i : nat) (rep : Reply) (w : World S) :
  Forall (within_pending writes sends) (pending w) ->
  (forall Q, kept Q -> Q (state w) -> Q (state (settled i rep w)))
  /\ Forall (within_pending writes sends) (pending (settled i rep w))
  /\ exists extra,
      log (settled i rep w) = log w ++ extra
      /\ Forall (allowed sends) extra.
Proof.
  intros Hw. unfold settled.
  assert (Hsame : (forall Q, kept Q -> Q (state w) -> Q (state w))
                  /\ Forall (within_pending writes sends) (pending w)
                  /\ exists extra, log w = log w ++ extra
                                   /\ Forall (allowed sends) extra).
  { repeat split; auto. exists []. now rewrite app_nil_r. }
  destruct (nth_error (pending w) i) as [p|] eqn:Ep; [|exact Hsame].
  destruct (resume p rep) as [k|] eqn:Ek; [|exact Hsame].
  assert (Hp : within_pending writes sends p).
  { rewrite Forall_forall in Hw. apply Hw. eapply nth_error_In, Ep. }
  apply (exec_within k (Hp rep k Ek) false
           {| state := state w; pending := remove_nth i (pending w);
              log := log w |}).
  now apply Forall_remove.
Qed.
End Frame.

End FrameFacts.

(* ================================================================= *)
(** * What [trim] returns *)

Module TrimFacts.
Import JSFacts.

(** A string that starts and ends with a visible character. *)
Lemma trimStart_split (s : jsstring) :
  exists pre, s = pre ++ trimStart s /\ blank pre = true.
Proof.
  induction s as [|c r (pre & E & B)]; [now exists []|].
  cbn [trimStart]. destruct (is_whitespace c) eqn:Hc.
  - exists (c :: pre). split; [cbn [app]; now f_equal|].
    unfold blank in *. cbn [forallb]. now rewrite Hc, B.
  - now exists [].
Qed.

Lemma trimStart_visible (c : char) (r : jsstring) :
  is_whitespace c = false -> trimStart (c :: r) = c :: r.
Proof. intros H. cbn. now rewrite H. Qed.

(** What is left of a string that is not blank: it is not empty, it
    starts and ends with a visible character, and trimming it again
    changes nothing. *)
Lemma trim_visible (s : jsstring) :
  blank s = false ->
  exists c r,
    trim s = c :: r
    /\ is_whitespace c = false
    /\ is_whitespace (last (c :: r) c) = false
    /\ trim (c :: r) = c :: r.
Proof.
  intros Hs. unfold trim at 1.
  destruct (trimStart_head s) as [[_ B]|(c & r & E & Hc)]; [congruence|].
  rewrite E. unfold trimEnd.
  destruct (trimStart_split (rev (c :: r))) as (pre & Epre & Bpre).
  destruct (trimStart_head (rev (c :: r)))
    as [[_ B]|(d & y & Ey & Hd)].
  { rewrite blank_rev in B. cbn in B. rewrite Hc in B. discriminate. }
  rewrite Ey in *.
  assert (Et : c :: r = rev (d :: y) ++ rev pre).
  { rewrite <- rev_app_distr, <- Epre. now rewrite rev_involutive. }
  destruct (rev (d :: y)) as [|c' r'] eqn:Er.
  { apply (f_equal (@rev char)) in Er. rewrite rev_involutive in Er.
    discriminate. }
  cbn [app] in Et. injection Et as <- Et.
  assert (Elast : last (c :: r') c = d).
  { rewrite <- Er. cbn [rev]. apply last_last. }
  exists c, r'. repeat split; try assumption.
  - now rewrite Elast.
  - unfold trim, trimEnd. rewrite (trimStart_visible c r' Hc).
    rewrite <- Er, rev_involutive, (trimStart_visible d y Hd).
    reflexivity.
Qed.

End TrimFacts.

(* ================================================================= *)
(** * The search page: settled calls and runs *)

Module HomeMore.
Import JSFacts TrimFacts HandlerFacts FrameFacts Frame Home HomeShape.

(** A pending call settles: the function awaiting it runs on. *)
Lemma settled_at {S} (w : World S) (i : nat) (p : Pending S) (rep : Reply)
      (k : Proc S unit) :
  nth_error (pending w) i = Some p -> resume p rep = Some k ->
  settled i rep w
  = exec false k {| state := state w; pending := remove_nth i (pending w);
                    log := log w |}.
Proof. intros Hp Hk. unfold settled. now rewrite Hp, Hk. Qed.

Section Page.
Variable BACKEND_URL : jsstring.

Local Abbreviation search_request := (Home.search_request BACKEND_URL).

(** What [handleSearch] leaves waiting, and what that does when the
    call settles. *)
Lemma handleSearch_waits (st : State) (w : World State) :
  blank (query st) = false -> selectedSources st <> [] ->
  exists k,
    exec false (handleSearch BACKEND_URL st) w
    = suspend (search_request st) (WaitResults (search_request st) k)
        {| state := setHasSearched true (setSearching true (state w));
           pending := pending w; log := log w |}
    /\ (forall data u,
          exec false (k (Resolved data)) u
          = {| state := setSearching false (setResults data (state u));
               pending := pending u;
               log := log u
                      ++ (if forallb
                               (fun r => Nat.eqb (List.length (items r)) 0)
                               data
                          then [Toasted Info "Nenhum resultado encontrado"]
                          else []) |})
    /\ (forall e u,
          exec false (k (Rejected e)) u
          = {| state := setSearching false (state u);
               pending := pending u;
               log := log u ++ [Logged "Search error:" e;
                                Toasted Error "Erro ao realizar busca"] |}).
Proof.
  intros H E. unfold handleSearch. rewrite truthy_trim, H.
  destruct (selectedSources st) as [|s l] eqn:Es; [congruence|].
  cbn [negb List.length Nat.eqb]. rewrite <- Es.
  eexists. split; [reflexivity|]. split.
  - intros data u. cbn.
    destruct (forallb (fun r => Nat.eqb (List.length (items r)) 0) data);
      cbn; [reflexivity|]. now rewrite app_nil_r.
  - intros e u. cbn. now rewrite <- app_assoc.
Qed.

(** X1.  When a search call resolves, whatever the page has become in the
    meantime, the results are replaced by the data, the in-flight flag is
    cleared and nothing else changes in the state; the page tells the
    user that nothing was found exactly when every group has no item. *)
Theorem search_resolved (st : State) (w : World State) :
  blank (query st) = false -> selectedSources st <> [] ->
  exists k,
    pending (exec false (handleSearch BACKEND_URL st) w)
    = pending w ++ [WaitResults (search_request st) k]
    /\ forall u i data,
        nth_error (pending u) i = Some (WaitResults (search_request st) k) ->
        settled i (ResultsReply (Resolved data)) u
        = {| state := setSearching false (setResults data (state u));
             pending := remove_nth i (pending u);
             log := log u
                    ++ (if forallb
                             (fun r => Nat.eqb (List.length (items r)) 0)
                             data
                        then [Toasted Info "Nenhum resultado encontrado"]
                        else []) |}
        /\ results (state (settled i (ResultsReply (Resolved data)) u)) = data
        /\ searching (state (settled i (ResultsReply (Resolved data)) u))
           = false
        /\ query (state (settled i (ResultsReply (Resolved data)) u))
           = query (state u)
        /\ contentType (state (settled i (ResultsReply (Resolved data)) u))
           = contentType (state u)
        /\ sources (state (settled i (ResultsReply (Resolved data)) u))
           = sources (state u)
        /\ selectedSources
             (state (settled i (ResultsReply (Resolved data)) u))
           = selectedSources (state u)
        /\ hasSearched (state (settled i (ResultsReply (Resolved data)) u))
           = hasSearched (state u).
Proof.
  intros H E. destruct (handleSearch_waits st w H E) as (k & Ek & Hok & _).
  exists k. split; [now rewrite Ek|].
  intros u i data Hi.
  rewrite (settled_at u i _ (ResultsReply (Resolved data)) _ Hi eq_refl).
  rewrite Hok. repeat split.
Qed.

(** X2.  When a search call is rejected the results shown stay as they
    are: the error goes to the console, one error notification is shown
    and the in-flight flag is cleared. *)
Theorem search_rejected (st : State) (w : World State) :
  blank (query st) = false -> selectedSources st <> [] ->
  exists k,
    pending (exec false (handleSearch BACKEND_URL st) w)
    = pending w ++ [WaitResults (search_request st) k]
    /\ forall u i e,
        nth_error (pending u) i = Some (WaitResults (search_request st) k) ->
        settled i (ResultsReply (Rejected e)) u
        = {| state := setSearching false (state u);
             pending := remove_nth i (pending u);
             log := log u ++ [Logged "Search error:" e;
                              Toasted Error "Erro ao realizar busca"] |}
        /\ results (state (settled i (ResultsReply (Rejected e)) u))
           = results (state u)
        /\ searching (state (settled i (ResultsReply (Rejected e)) u))
           = false
        /\ query (state (settled i (ResultsReply (Rejected e)) u))
           = query (state u)
        /\ contentType (state (settled i (ResultsReply (Rejected e)) u))
           = contentType (state u)
        /\ sources (state (settled i (ResultsReply (Rejected e)) u))
           = sources (state u)
        /\ selectedSources (state (settled i (ResultsReply (Rejected e)) u))
           = selectedSources (state u)
        /\ hasSearched (state (settled i (ResultsReply (Rejected e)) u))
           = hasSearched (state u).
Proof.
  intros H E. destruct (handleSearch_waits st w H E) as (k & Ek & _ & Herr).
  exists k. split; [now rewrite Ek|].
  intros u i e Hi.
  rewrite (settled_at u i _ (ResultsReply (Rejected e)) _ Hi eq_refl).
  rewrite Herr. repeat split.
Qed.

(** What [loadSources] leaves waiting. *)
Lemma loadSources_waits (st : State) (w : World State) :
  let request :=
    {| method := GET;
       url := API BACKEND_URL ++ lit "/sources/by-type/" ++ contentType st;
       body := None |} in
  exists k,
    exec false (loadSources BACKEND_URL st) w
    = suspend request (WaitSources request k) w
    /\ (forall data u,
          exec false (k (Resolved data)) u
          = {| state := setSelectedSources (fun _ => map id data)
                          (setSources data (state u));
               pending := pending u; log := log u |})
    /\ (forall e u,
          exec false (k (Rejected e)) u
          = {| state := state u; pending := pending u;
               log := log u ++ [Logged "Error loading sources:" e;
                                Toasted Error "Erro ao carregar fontes"] |}).
Proof.
  intros request. eexists. split; [reflexivity|]. split.
  - reflexivity.
  - intros e u. cbn. unfold observe. cbn [state pending log].
    now rewrite <- app_assoc.
Qed.

(** X3.  When the source list of the search page cannot be loaded, the
    sources shown and the selection stay as they were: the error goes to
    the console and one error notification is shown. *)
Theorem sources_rejected (st : State) (w : World State) :
  let request :=
    {| method := GET;
       url := API BACKEND_URL ++ lit "/sources/by-type/" ++ contentType st;
       body := None |} in
  exists k,
    pending (exec false (loadSources BACKEND_URL st) w)
    = pending w ++ [WaitSources request k]
    /\ forall u i e,
        nth_error (pending u) i = Some (WaitSources request k) ->
        settled i (SourcesReply (Rejected e)) u
        = {| state := state u;
             pending := remove_nth i (pending u);
             log := log u ++ [Logged "Error loading sources:" e;
                              Toasted Error "Erro ao carregar fontes"] |}.
Proof.
  intros request.
  destruct (loadSources_waits st w) as (k & Ek & _ & Herr).
  exists k. split; [now rewrite Ek|].
  intros u i e Hi.
  rewrite (settled_at u i _ (SourcesReply (Rejected e)) _ Hi eq_refl).
  apply Herr.
Qed.

(** X4.  Nothing is cancelled: a source list that arrives after the
    content type was changed again still replaces the list and the
    selection, so the sources shown can belong to a type that is no
    longer the selected one. *)
Theorem late_reload_overwrites (v1 v2 : jsstring)
        (data1 data2 : list Source) :
  v1 <> lit "game" -> v2 <> v1 ->
  let w := run BACKEND_URL
             [TypeSelected v1; TypeSelected v2;
              Settled 2 (SourcesReply (Resolved data2));
              Settled 1 (SourcesReply (Resolved data1))] in
  contentType (state w) = v2
  /\ sources (state w) = data1
  /\ selectedSources (state w) = map id data1
  /\ map request_of (pending w)
     = [{| method := GET;
           url := API BACKEND_URL ++ lit "/sources/by-type/" ++ lit "game";
           body := None |}].
Proof.
  intros H1 H2. apply eqb_neq in H1, H2.
  unfold run, mount. cbn [fold_left step on_event].
  cbn [exec call loadSources get_sources bind try_catch suspend state
       pending log contentType initial set setContentType app].
  rewrite H1.
  cbn [exec call loadSources get_sources bind try_catch suspend state
       pending log contentType initial set setContentType app].
  rewrite H2.
  cbn. repeat split.
Qed.

(* ----------------------------------------------------------------- *)
(** ** The in-flight flag *)

Lemma existsb_remove (i : nat) (l : list (Pending State)) (p : Pending State) :
  nth_error l i = Some p -> is_search p = false ->
  existsb is_search (remove_nth i l) = existsb is_search l.
Proof.
  revert i. induction l as [|x l IH]; intros [|i] Hp Hs; cbn in *;
    try discriminate.
  - injection Hp as ->. now rewrite Hs.
  - now rewrite (IH i Hp Hs).
Qed.

Local Abbreviation settles_flag := (HomeShape.settles_flag BACKEND_URL).
Local Abbreviation flag_backed := (HomeShape.flag_backed BACKEND_URL).

Lemma handleSearch_backed (w : World State) :
  flag_backed w ->
  flag_backed (exec false (handleSearch BACKEND_URL (state w)) w).
Proof.
  intros [Hflag Hpend].
  destruct (blank (query (state w))) eqn:Hb.
  { rewrite (HomeFacts.handleSearch_blank _ _ Hb). now split. }
  destruct (selectedSources (state w)) as [|s l] eqn:Hs.
  { rewrite (HomeFacts.handleSearch_unselected _ _ Hb Hs). now split. }
  destruct (handleSearch_waits (state w) w Hb) as (k & Ek & Hok & Herr);
    [congruence|].
  rewrite Ek. unfold suspend. cbn [state pending log]. split.
  - intros _. cbn [state pending log]. rewrite existsb_app. cbn.
    apply orb_true_r.
  - apply Forall_app. split; [exact Hpend|]. constructor; [|constructor].
    split; [reflexivity|]. split; [reflexivity|].
    intros [data|e] u; [rewrite Hok|rewrite Herr]; now split.
Qed.

Lemma step_backed (ev : Event) (w : World State) :
  flag_backed w -> flag_backed (step BACKEND_URL ev w).
Proof.
  intros Hw. pose proof Hw as [Hflag Hpend].
  destruct ev as [v|key| |v|sourceId|i rep]; cbn [step on_event].
  - now split.
  - unfold handleKeyPress. destruct (JS.eqb key (lit "Enter")); [|exact Hw].
    unfold call. cbn [exec]. now apply handleSearch_backed.
  - destruct (searching (state w)); [exact Hw|].
    unfold call. cbn [exec]. now apply handleSearch_backed.
  - cbn [bind set exec].
    destruct (JS.eqb v (contentType (state w))); [now split|].
    unfold call. cbn [exec].
    destruct (loadSources_waits (setContentType v (state w))
                {| state := setContentType v (state w);
                   pending := pending w; log := log w |})
      as (k & Ek & Hok & Herr).
    rewrite Ek. unfold suspend. cbn [state pending log]. split.
    + cbn [state pending log]. intros H.
      rewrite existsb_app, (Hflag H). reflexivity.
    + apply Forall_app. split; [exact Hpend|]. constructor; [|constructor].
      intros [data|e] u; [rewrite Hok|rewrite Herr]; now split.
  - now split.
  - unfold settled.
    destruct (nth_error (pending w) i) as [p|] eqn:Ep; [|exact Hw].
    assert (Hp : settles_flag p).
    { rewrite Forall_forall in Hpend. apply Hpend.
      eapply nth_error_In, Ep. }
    destruct p as [r k|r k|r k], rep as [o|o|o]; cbn [resume];
      try exact Hw; try contradiction.
    + destruct (Hp o {| state := state w;
                        pending := remove_nth i (pending w);
                        log := log w |}) as [Hs Hq].
      cbn [state pending] in Hs, Hq. split.
      * rewrite Hs, Hq. intros H.
        rewrite (existsb_remove i _ _ Ep eq_refl). now apply Hflag.
      * rewrite Hq. now apply Forall_remove.
    + destruct Hp as (_ & _ & Hp).
      destruct (Hp o {| state := state w;
                        pending := remove_nth i (pending w);
                        log := log w |}) as [Hs Hq].
      cbn [state pending] in Hs, Hq. split.
      * rewrite Hs. discriminate.
      * rewrite Hq. now apply Forall_remove.
Qed.

Lemma run_backed (evs : list Event) : flag_backed (run BACKEND_URL evs).
Proof.
  unfold run.
  assert (Hm : flag_backed (mount BACKEND_URL)).
  { split; [discriminate|]. cbn. constructor; [|constructor].
    intros [data|e] u; now split. }
  generalize dependent (mount BACKEND_URL).
  induction evs as [|ev evs IH]; intros w Hw; [exact Hw|].
  cbn [fold_left]. apply IH. now apply step_backed.
Qed.

Lemma existsb_is_search (l : list (Pending State)) :
  existsb is_search l = true ->
  exists i r k, nth_error l i = Some (WaitResults r k).
Proof.
  induction l as [|p l IH]; [discriminate|].
  destruct p as [r k|r k|r k]; cbn [existsb is_search orb].
  - intros H. destruct (IH H) as (i & r' & k' & E). now exists (S i), r', k'.
  - intros _. now exists 0%nat, r, k.
  - intros H. destruct (IH H) as (i & r' & k' & E). now exists (S i), r', k'.
Qed.

(** X5.  The search button is never left disabled with nothing in
    flight: along every run of the page, while the in-flight flag is set
    a POST /search call is pending, and the function waiting for it
    clears the flag when the call settles, resolved or rejected, now or
    in any later state of the page. *)
Theorem flag_means_pending (evs : list Event) :
  searching (state (run BACKEND_URL evs)) = true ->
  exists i r k,
    nth_error (pending (run BACKEND_URL evs)) i = Some (WaitResults r k)
    /\ method r = POST
    /\ url r = BACKEND_URL ++ lit "/api" ++ lit "/search"
    /\ (forall o,
          searching
            (state (settled i (ResultsReply o) (run BACKEND_URL evs)))
          = false)
    /\ (forall o u, searching (state (exec false (k o) u)) = false).
Proof.
  intros H. destruct (run_backed evs) as [Hflag Hpend].
  destruct (existsb_is_search _ (Hflag H)) as (i & r & k & E).
  assert (Hp : settles_flag (WaitResults r k)).
  { rewrite Forall_forall in Hpend. apply Hpend. eapply nth_error_In, E. }
  destruct Hp as (Hm & Hu & Hk).
  exists i, r, k. split; [exact E|]. split; [exact Hm|].
  split; [rewrite Hu; unfold API; now rewrite <- app_assoc|].
  split.
  - intros o.
    rewrite (settled_at _ i _ (ResultsReply o) _ E eq_refl). apply Hk.
  - intros o u. apply Hk.
Qed.

(* ----------------------------------------------------------------- *)
(** ** What the page writes and sends *)

Local Abbreviation home_call := (HomeShape.home_call BACKEND_URL).
Local Abbreviation home_bounded := (HomeShape.home_bounded BACKEND_URL).

Lemma loadSources_within (st : State) :
  Within keeps_results_shown home_call (loadSources BACKEND_URL st).
Proof.
  unfold loadSources. cbn. constructor.
  - left. repeat split. now exists (contentType st).
  - intros [data|e]; cbn; repeat constructor; now intros ? ?.
Qed.

Lemma handleSearch_within (st : State) :
  Within keeps_results_shown home_call (handleSearch BACKEND_URL st).
Proof.
  unfold handleSearch. rewrite truthy_trim, negb_involutive.
  destruct (blank (query st)) eqn:Hb; [repeat constructor|].
  destruct (selectedSources st) as [|s l] eqn:Hs; [repeat constructor|].
  cbn [List.length Nat.eqb]. rewrite <- Hs.
  cbn. constructor; [now intros ? ?|]. constructor; [now intros ? ?|].
  constructor.
  - right. split; [reflexivity|]. split; [reflexivity|].
    destruct (trim_visible (query st) Hb) as (c & q & E & Hc).
    exists c, q, (contentType st), (selectedSources st).
    cbn [body]. unfold search_body. rewrite E.
    split; [reflexivity|]. split; [exact Hc|]. rewrite Hs. discriminate.
  - intros [data|e]; cbn.
    + constructor; [now intros ? ?|].
      destruct (forallb (fun r => Nat.eqb (List.length (items r)) 0) data);
        cbn; repeat constructor; now intros ? ?.
    + repeat constructor. now intros ? ?.
Qed.

Lemma on_event_within (ev : Event) (st : State) :
  Within keeps_results_shown home_call (on_event BACKEND_URL ev st).
Proof.
  pose proof loadSources_within as Hload.
  pose proof handleSearch_within as Hsearch.
  destruct ev as [v|key| |v|sourceId|i rep]; cbn [on_event].
  - repeat constructor. now intros ? ?.
  - unfold handleKeyPress, call.
    destruct (JS.eqb key (lit "Enter")); repeat (first [apply Hsearch|constructor]).
  - unfold call.
    destruct (searching st); repeat (first [apply Hsearch|constructor]).
  - cbn [bind set]. constructor; [now intros ? ?|].
    unfold call.
    destruct (JS.eqb v (contentType st)); repeat (first [apply Hload|constructor]).
  - repeat constructor. now intros ? ?.
  - constructor.
Qed.

Lemma step_bounded (ev : Event) (w : World State) :
  home_bounded w ->
  home_bounded (step BACKEND_URL ev w)
  /\ (hasSearched (state w) = true ->
      hasSearched (state (step BACKEND_URL ev w)) = true).
Proof.
  intros [Hp Hl].
  assert (Hkept : Frame.kept keeps_results_shown
                    (fun st => hasSearched st = true))
    by (intros f st Hf; apply Hf).
  assert (Hgen : forall w',
             (forall Q, Frame.kept keeps_results_shown Q ->
                        Q (state w) -> Q (state w'))
             /\ Forall (within_pending keeps_results_shown home_call)
                       (pending w')
             /\ (exists extra, log w' = log w ++ extra
                               /\ Forall (allowed home_call) extra) ->
             home_bounded w'
             /\ (hasSearched (state w) = true ->
                 hasSearched (state w') = true)).
  { intros w' (HQ & HP & extra & E & Hx). split; [split|].
    - exact HP.
    - rewrite E. apply Forall_app. now split.
    - apply (HQ _ Hkept). }
  apply Hgen.
  destruct ev as [v|key| |v|sourceId|i rep]; cbn [step];
    try (apply exec_within; [apply on_event_within|exact Hp]).
  now apply settled_within.
Qed.

Lemma run_bounded (evs : list Event) : home_bounded (run BACKEND_URL evs).
Proof.
  unfold run.
  assert (Hm : home_bounded (mount BACKEND_URL)).
  { split.
    - cbn. constructor; [|constructor].
      intros [o|o|o] k E; cbn in E; try discriminate.
      injection E as <-. destruct o; cbn; repeat constructor; now intros ? ?.
    - cbn. constructor; [|constructor].
      left. repeat split. now exists (lit "game"). }
  generalize dependent (mount BACKEND_URL).
  induction evs as [|ev evs IH]; intros w Hw; [exact Hw|].
  cbn [fold_left]. apply IH. now apply step_bounded.
Qed.

(** X6.  The search page only reads: along every run, every call it has
    sent is GET /sources/by-type/{type} without a body or POST /search
    with a query, a type and source ids.  It never sends PUT or DELETE
    and never writes a source. *)
Theorem search_page_calls (evs : list Event) (r : Request) :
  In (Sent r) (log (run BACKEND_URL evs)) ->
  (method r = GET /\ body r = None
   /\ exists t, url r = API BACKEND_URL ++ lit "/sources/by-type/" ++ t)
  \/ (method r = POST /\ url r = API BACKEND_URL ++ lit "/search"
      /\ exists q t ids, body r = Some (search_body q t ids)).
Proof.
  intros H. destruct (run_bounded evs) as [_ Hl].
  rewrite Forall_forall in Hl.
  destruct (Hl _ H) as [Hget|(Hm & Hu & c & q & t & ids & Hb & _)];
    [now left|right].
  split; [exact Hm|]. split; [exact Hu|]. now exists (c :: q), t, ids.
Qed.

(** X7.  Once a search has been started the results section stays on the
    page: no later event, failed search or reload hides it again. *)
Theorem results_stay_shown (evs more : list Event) :
  hasSearched (state (run BACKEND_URL evs)) = true ->
  hasSearched (state (run BACKEND_URL (evs ++ more))) = true.
Proof.
  unfold run. rewrite fold_left_app.
  fold (run BACKEND_URL evs).
  pose proof (run_bounded evs) as Hb.
  generalize dependent (run BACKEND_URL evs).
  induction more as [|ev more IH]; intros w Hw H; [exact H|].
  cbn [fold_left]. destruct (step_bounded ev w Hw) as [Hb' Hs].
  apply IH; [exact Hb'|now apply Hs].
Qed.

(** X8.  Along every run of the page, every POST it has sent goes to
    /search with a body that is the object of a query, a type and source
    ids, in which the query is not empty and has no whitespace at either
    end (trimming it again changes nothing) and at least one source id
    is given. *)
Theorem sent_query_trimmed (evs : list Event) (r : Request) :
  In (Sent r) (log (run BACKEND_URL evs)) -> method r = POST ->
  url r = BACKEND_URL ++ lit "/api" ++ lit "/search"
  /\ exists c q t ids,
      body r = Some (JObject
                       [(lit "query", JString (c :: q));
                        (lit "type", JString t);
                        (lit "source_ids", JArray (map JString ids))])
      /\ is_whitespace c = false
      /\ is_whitespace (last (c :: q) c) = false
      /\ trim (c :: q) = c :: q
      /\ ids <> [].
Proof.
  intros H Hpost. destruct (run_bounded evs) as [_ Hl].
  rewrite Forall_forall in Hl.
  destruct (Hl _ H) as [(Hm & _)|(_ & Hu & c & q & t & ids & Hb & Hc & Hi)];
    [congruence|].
  split; [rewrite Hu; unfold API; now rewrite <- app_assoc|].
  exists c, q, t, ids. destruct Hc as (H1 & H2 & H3). now repeat split.
Qed.
End Page.

Lemma search_resolved_witness :
  blank (query Scenario.typed) = false
  /\ selectedSources Scenario.typed <> []
  /\ settled 1 (ResultsReply (Resolved [])) Scenario.searched
     = {| state := setSearching false
                     (setResults [] (state Scenario.searched));
          pending := remove_nth 1 (pending Scenario.searched);
          log := log Scenario.searched
                 ++ [Toasted Info "Nenhum resultado encontrado"] |}.
Proof.
  assert (H : blank (query Scenario.typed) = false) by reflexivity.
  assert (E : selectedSources Scenario.typed <> []) by (cbn; discriminate).
  split; [exact H|]. split; [exact E|].
  destruct (search_resolved Sample.backend Scenario.typed
              (mount Sample.backend) H E) as (k & Ek & Hk).
  apply (Hk Scenario.searched 1%nat []).
  unfold Scenario.searched. rewrite Ek. reflexivity.
Defined.

Lemma search_rejected_witness :
  blank (query Scenario.typed) = false
  /\ selectedSources Scenario.typed <> []
  /\ settled 1 (ResultsReply (Rejected Scenario.network_error))
       Scenario.searched
     = {| state := setSearching false (state Scenario.searched);
          pending := remove_nth 1 (pending Scenario.searched);
          log := log Scenario.searched
                 ++ [Logged "Search error:" Scenario.network_error;
                     Toasted Error "Erro ao realizar busca"] |}.
Proof.
  assert (H : blank (query Scenario.typed) = false) by reflexivity.
  assert (E : selectedSources Scenario.typed <> []) by (cbn; discriminate).
  split; [exact H|]. split; [exact E|].
  destruct (search_rejected Sample.backend Scenario.typed
              (mount Sample.backend) H E) as (k & Ek & Hk).
  apply (Hk Scenario.searched 1%nat).
  unfold Scenario.searched. rewrite Ek. reflexivity.
Defined.

Lemma sources_rejected_witness :
  settled 0 (SourcesReply (Rejected Scenario.network_error))
    (mount Sample.backend)
  = {| state := state (mount Sample.backend);
       pending := remove_nth 0 (pending (mount Sample.backend));
       log := log (mount Sample.backend)
              ++ [Logged "Error loading sources:" Scenario.network_error;
                  Toasted Error "Erro ao carregar fontes"] |}.
Proof.
  destruct (sources_rejected Sample.backend initial
              {| state := initial; pending := []; log := [] |})
    as (k & Ek & Hk).
  apply (Hk (mount Sample.backend) 0%nat).
  change (pending (mount Sample.backend))
    with (pending (exec false (loadSources Sample.backend initial)
                     {| state := initial; pending := []; log := [] |})).
  rewrite Ek. reflexivity.
Defined.

Lemma late_reload_overwrites_witness :
  lit "movie" <> lit "game" /\ lit "book" <> lit "movie"
  /\ sources
       (state (run Sample.backend
                 [TypeSelected (lit "movie"); TypeSelected (lit "book");
                  Settled 2 (SourcesReply (Resolved []));
                  Settled 1 (SourcesReply (Resolved [Sample.steam]))]))
     = [Sample.steam].
Proof.
  assert (H1 : lit "movie" <> lit "game") by (cbn; discriminate).
  assert (H2 : lit "book" <> lit "movie") by (cbn; discriminate).
  split; [exact H1|]. split; [exact H2|].
  exact (proj1 (proj2 (late_reload_overwrites Sample.backend _ _
                         [Sample.steam] [] H1 H2))).
Defined.

Lemma flag_means_pending_witness :
  searching (state (run Sample.backend Sample.searching)) = true
  /\ exists i r k,
      nth_error (pending (run Sample.backend Sample.searching)) i
      = Some (WaitResults r k)
      /\ method r = POST
      /\ url r = Sample.backend ++ lit "/api" ++ lit "/search"
      /\ (forall o,
            searching
              (state (settled i (ResultsReply o)
                        (run Sample.backend Sample.searching)))
            = false)
      /\ (forall o u, searching (state (exec false (k o) u)) = false).
Proof.
  split; [reflexivity|].
  apply (flag_means_pending Sample.backend Sample.searching). reflexivity.
Defined.

Lemma sent_query_trimmed_witness :
  In (Sent (Sample.zelda_request Sample.backend))
     (log (run Sample.backend Sample.searching))
  /\ method (Sample.zelda_request Sample.backend) = POST
  /\ exists c q t ids,
      body (Sample.zelda_request Sample.backend)
      = Some (JObject
                [(lit "query", JString (c :: q));
                 (lit "type", JString t);
                 (lit "source_ids", JArray (map JString ids))])
      /\ is_whitespace c = false
      /\ is_whitespace (last (c :: q) c) = false
      /\ trim (c :: q) = c :: q
      /\ ids <> [].
Proof.
  assert (H : In (Sent (Sample.zelda_request Sample.backend))
                 (log (run Sample.backend Sample.searching)))
    by (right; left; reflexivity).
  split; [exact H|]. split; [reflexivity|].
  exact (proj2 (sent_query_trimmed Sample.backend Sample.searching _ H
                  eq_refl)).
Defined.

Lemma search_page_calls_witness :
  In (Sent (Sample.zelda_request Sample.backend))
     (log (run Sample.backend Sample.searching))
  /\ ((method (Sample.zelda_request Sample.backend) = GET
       /\ body (Sample.zelda_request Sample.backend) = None
       /\ exists t,
           url (Sample.zelda_request Sample.backend)
           = API Sample.backend ++ lit "/sources/by-type/" ++ t)
      \/ (method (Sample.zelda_request Sample.backend) = POST
          /\ url (Sample.zelda_request Sample.backend)
             = API Sample.backend ++ lit "/search"
          /\ exists q t ids,
              body (Sample.zelda_request Sample.backend)
              = Some (search_body q t ids))).
Proof.
  assert (H : In (Sent (Sample.zelda_request Sample.backend))
                 (log (run Sample.backend Sample.searching)))
    by (right; left; reflexivity).
  split; [exact H|].
  exact (search_page_calls Sample.backend Sample.searching _ H).
Defined.

Lemma results_stay_shown_witness :
  hasSearched (state (run Sample.backend Sample.searching)) = true
  /\ hasSearched
       (state (run Sample.backend
                 (Sample.searching ++ Scenario.failed_search)))
     = true.
Proof.
  split; [reflexivity|].
  apply (results_stay_shown Sample.backend Sample.searching
           Scenario.failed_search).
  reflexivity.
Defined.

End HomeMore.

(* ================================================================= *)
(** * The administration page: settled calls and runs *)

Module AdminMore.
Import JSFacts HandlerFacts FrameFacts Frame ParseFacts ParsedFacts.
Import HomeMore Admin AdminShape.

Section Page.
Variable BACKEND_URL : jsstring.

Local Abbreviation list_request := (Admin.list_request BACKEND_URL).
Local Abbreviation create_request := (Admin.create_request BACKEND_URL).
Local Abbreviation delete_request := (Admin.delete_request BACKEND_URL).
Local Abbreviation toggle_request := (Admin.toggle_request BACKEND_URL).
Local Abbreviation submit_request := (Admin.submit_request BACKEND_URL).

(** What [handleSubmit] leaves waiting, and what that does when the call
    settles. *)
Lemma handleSubmit_waits (w : World State) (configObj : JSON.value) :
  JSON.parse (config (formData (state w))) = Some configObj ->
  exists k,
    step BACKEND_URL SaveClicked w
    = suspend (submit_request (state w) configObj)
        (WaitDone (submit_request (state w) configObj) k) w
    /\ (forall u,
          exec false (k (Resolved tt)) u
          = exec false (loadSources BACKEND_URL)
              {| state := setFormData emptyForm
                            (setEditingSource None
                               (setDialogOpen false (state u)));
                 pending := pending u;
                 log := log u
                        ++ [Toasted Success
                              (match editingSource (state w) with
                               | Some _ => "Fonte atualizada com sucesso"
                               | None => "Fonte criada com sucesso"
                               end)] |})
    /\ (forall e u,
          exec false (k (Rejected e)) u
          = {| state := state u; pending := pending u;
               log := log u ++ [Logged "Error saving source:" e;
                                Toasted Error "Erro ao salvar fonte"] |}).
Proof.
  intros H.
  unfold step, on_event, call, handleSubmit, Admin.submit_request.
  cbn [exec]. rewrite H.
  destruct (editingSource (state w)); eexists; (split; [reflexivity|]);
    (split; [reflexivity|]); intros e u; cbn; unfold observe;
    cbn [state pending log]; now rewrite <- app_assoc.
Qed.

(** X9.  When the save call resolves, whatever the page has become in
    the meantime: one success notification is shown, worded for an
    update or a creation as the dialog was when Save was clicked, the
    dialog is closed, the draft is reset, no source is being edited any
    more, and the list is reloaded. *)
Theorem save_resolved (w : World State) (configObj : JSON.value) :
  JSON.parse (config (formData (state w))) = Some configObj ->
  exists k,
    pending (step BACKEND_URL SaveClicked w)
    = pending w ++ [WaitDone (submit_request (state w) configObj) k]
    /\ forall u i,
        nth_error (pending u) i
        = Some (WaitDone (submit_request (state w) configObj) k) ->
        let closed :=
          {| state := setFormData emptyForm
                        (setEditingSource None
                           (setDialogOpen false (state u)));
             pending := remove_nth i (pending u);
             log := log u
                    ++ [Toasted Success
                          (match editingSource (state w) with
                           | Some _ => "Fonte atualizada com sucesso"
                           | None => "Fonte criada com sucesso"
                           end)] |} in
        settled i (DoneReply (Resolved tt)) u
        = exec false (loadSources BACKEND_URL) closed
        /\ state (settled i (DoneReply (Resolved tt)) u) = state closed
        /\ log (settled i (DoneReply (Resolved tt)) u)
           = log closed ++ [Sent list_request]
        /\ dialogOpen (state (settled i (DoneReply (Resolved tt)) u)) = false
        /\ editingSource (state (settled i (DoneReply (Resolved tt)) u))
           = None
        /\ formData (state (settled i (DoneReply (Resolved tt)) u))
           = emptyForm
        /\ sources (state (settled i (DoneReply (Resolved tt)) u))
           = sources (state u)
        /\ loading (state (settled i (DoneReply (Resolved tt)) u))
           = loading (state u).
Proof.
  intros H. destruct (handleSubmit_waits w configObj H) as (k & Ek & Hok & _).
  exists k. split; [now rewrite Ek|].
  intros u i Hi closed.
  rewrite (settled_at u i _ (DoneReply (Resolved tt)) _ Hi eq_refl).
  rewrite Hok. repeat split.
Qed.

(** X10.  When the save call is rejected the dialog stays open with the
    draft as the user left it: the error goes to the console, one error
    notification is shown, and the list is not reloaded. *)
Theorem save_rejected (w : World State) (configObj : JSON.value) :
  JSON.parse (config (formData (state w))) = Some configObj ->
  exists k,
    pending (step BACKEND_URL SaveClicked w)
    = pending w ++ [WaitDone (submit_request (state w) configObj) k]
    /\ forall u i e,
        nth_error (pending u) i
        = Some (WaitDone (submit_request (state w) configObj) k) ->
        settled i (DoneReply (Rejected e)) u
        = {| state := state u;
             pending := remove_nth i (pending u);
             log := log u ++ [Logged "Error saving source:" e;
                              Toasted Error "Erro ao salvar fonte"] |}.
Proof.
  intros H. destruct (handleSubmit_waits w configObj H) as (k & Ek & _ & Herr).
  exists k. split; [now rewrite Ek|].
  intros u i e Hi.
  rewrite (settled_at u i _ (DoneReply (Rejected e)) _ Hi eq_refl).
  apply Herr.
Qed.

(** X11.  After a confirmed delete: when the call resolves, one success
    notification is shown and the list is reloaded; when it is rejected,
    the error goes to the console, one error notification is shown and
    nothing is reloaded.  The list shown is not touched in either case
    before a reload resolves. *)
Theorem delete_outcome (sourceId : Id) (w : World State) :
  exists k,
    pending (step BACKEND_URL (DeleteClicked sourceId true) w)
    = pending w ++ [WaitDone (delete_request sourceId) k]
    /\ forall u i,
        nth_error (pending u) i
        = Some (WaitDone (delete_request sourceId) k) ->
        settled i (DoneReply (Resolved tt)) u
        = exec false (loadSources BACKEND_URL)
            {| state := state u;
               pending := remove_nth i (pending u);
               log := log u
                      ++ [Toasted Success "Fonte excluída com sucesso"] |}
        /\ state (settled i (DoneReply (Resolved tt)) u) = state u
        /\ log (settled i (DoneReply (Resolved tt)) u)
           = log u ++ [Toasted Success "Fonte excluída com sucesso";
                       Sent list_request]
        /\ forall e,
            settled i (DoneReply (Rejected e)) u
            = {| state := state u;
                 pending := remove_nth i (pending u);
                 log := log u ++ [Logged "Error deleting source:" e;
                                  Toasted Error "Erro ao excluir fonte"] |}.
Proof.
  eexists. split; [reflexivity|].
  intros u i Hi.
  rewrite (settled_at u i _ (DoneReply (Resolved tt)) _ Hi eq_refl).
  split; [reflexivity|]. split; [reflexivity|].
  split; [cbn; now rewrite <- app_assoc|].
  intros e.
  rewrite (settled_at u i _ (DoneReply (Rejected e)) _ Hi eq_refl).
  cbn. unfold observe. cbn [state pending log]. now rewrite <- app_assoc.
Qed.

(** X12.  When the update sent by a switch is rejected, the row keeps
    the value it had: the list is neither changed nor reloaded, the
    error goes to the console and one error notification is shown. *)
Theorem toggle_rejected (source : Source) (w : World State) :
  exists k,
    pending (step BACKEND_URL (SwitchToggled source) w)
    = pending w ++ [WaitDone (toggle_request source) k]
    /\ forall u i e,
        nth_error (pending u) i
        = Some (WaitDone (toggle_request source) k) ->
        settled i (DoneReply (Rejected e)) u
        = {| state := state u;
             pending := remove_nth i (pending u);
             log := log u ++ [Logged "Error toggling source:" e;
                              Toasted Error "Erro ao atualizar fonte"] |}.
Proof.
  eexists. split; [reflexivity|].
  intros u i e Hi.
  rewrite (settled_at u i _ (DoneReply (Rejected e)) _ Hi eq_refl).
  cbn. unfold observe. cbn [state pending log]. now rewrite <- app_assoc.
Qed.

(** X13.  Closing the dialog discards an edit: after Edit, Cancel and
    the add button, the draft is the empty one, no source is being
    edited, and Save creates a source (POST /sources with the default
    draft, whose config is the empty object) instead of updating the one
    that was opened. *)
Theorem cancel_discards_edit (source : Source) (w : World State) :
  let reopened :=
    step BACKEND_URL (DialogToggled true)
      (step BACKEND_URL (DialogToggled false)
         (step BACKEND_URL (EditClicked source) w)) in
  let request := create_request (draft_body emptyForm (JObject [])) in
  formData (state reopened) = emptyForm
  /\ editingSource (state reopened) = None
  /\ dialogOpen (state reopened) = true
  /\ exists k,
      step BACKEND_URL SaveClicked reopened
      = suspend request (WaitDone request k) reopened.
Proof. repeat split. eexists. reflexivity. Qed.


(* ----------------------------------------------------------------- *)
(** ** What the page writes and sends *)

Lemma deletes_confirmed_app (prev : option Obs) (l extra : list Obs) :
  deletes_confirmed prev (l ++ extra)
  = (deletes_confirmed prev l
     && deletes_confirmed (last_seen prev l) extra)%bool.
Proof.
  revert prev. induction l as [|o l IH]; intros prev; [reflexivity|].
  cbn [app deletes_confirmed last_seen]. rewrite IH. apply andb_assoc.
Qed.

Lemma deletes_confirmed_none (prev : option Obs) (extra : list Obs) :
  Forall (allowed not_delete) extra -> deletes_confirmed prev extra = true.
Proof.
  intros H. revert prev. induction H as [|o l Ho _ IH]; intros prev;
    [reflexivity|].
  cbn [deletes_confirmed]. rewrite IH, andb_true_r.
  destruct o as [| | |r]; try reflexivity.
  cbn in Ho. unfold not_delete in Ho. cbn.
  destruct (method r); (reflexivity || contradiction).
Qed.

Lemma admin_loadSources_within :
  Within keeps_loaded not_delete (loadSources BACKEND_URL).
Proof.
  unfold loadSources. cbn. constructor; [discriminate|].
  intros [data|e]; cbn; repeat constructor; now intros ? ?.
Qed.

Lemma admin_on_event_within (ev : Event) (st : State) :
  (forall sourceId answer, ev <> DeleteClicked sourceId answer) ->
  Within keeps_loaded not_delete (on_event BACKEND_URL ev st).
Proof.
  pose proof admin_loadSources_within as Hload.
  assert (Hset : forall f, (forall x, loading (f x) = loading x) ->
                           keeps_loaded f)
    by (intros f Hf x Hx; now rewrite Hf).
  intros Hev.
  destruct ev as [open|f| |source|sourceId answer|source|i rep];
    cbn [on_event].
  - destruct open; cbn; repeat constructor; now intros ? ?.
  - repeat constructor. now intros ? ?.
  - unfold call, handleSubmit. constructor; [|constructor].
    destruct (JSON.parse (config (formData st))) as [configObj|];
      [|cbn; repeat constructor].
    destruct (editingSource st) as [editing|]; cbn -[loadSources];
      (constructor; [discriminate|]);
      intros [[]|e]; cbn -[loadSources];
      repeat (first [exact Hload|constructor|now intros ? ?]).
  - cbn. repeat constructor; now intros ? ?.
  - now elim (Hev sourceId answer).
  - unfold call, handleToggleEnabled. constructor; [|constructor].
    cbn -[loadSources]. constructor; [discriminate|].
    intros [[]|e]; cbn -[loadSources];
      repeat (first [exact Hload|constructor]).
  - constructor.
Qed.

Lemma admin_step_bounded (ev : Event) (w : World State) :
  admin_bounded w ->
  admin_bounded (step BACKEND_URL ev w)
  /\ (loading (state w) = false ->
      loading (state (step BACKEND_URL ev w)) = false).
Proof.
  intros [Hp Hl].
  assert (Hkept : Frame.kept keeps_loaded (fun st => loading st = false))
    by (intros f st Hf; apply Hf).
  assert (Hgen : forall w',
             (forall Q, Frame.kept keeps_loaded Q ->
                        Q (state w) -> Q (state w'))
             /\ Forall (within_pending keeps_loaded not_delete) (pending w')
             /\ (exists extra, log w' = log w ++ extra
                               /\ Forall (allowed not_delete) extra) ->
             admin_bounded w'
             /\ (loading (state w) = false -> loading (state w') = false)).
  { intros w' (HQ & HP & extra & E & Hx). split; [split|].
    - exact HP.
    - rewrite E, deletes_confirmed_app, Hl.
      now rewrite deletes_confirmed_none.
    - apply (HQ _ Hkept). }
  destruct ev as [open|f| |source|sourceId answer|source|i rep];
    try (apply Hgen; cbn [step]; apply exec_within;
         [apply admin_on_event_within; discriminate|exact Hp]).
  - (* the delete button *)
    cbn [step on_event]. unfold call, handleDelete. destruct answer.
    + cbn. split; [split|auto].
      * apply Forall_app. split; [exact Hp|]. constructor; [|constructor].
        intros [o|o|o] k E; cbn in E; try discriminate.
        injection E as <-. destruct o as [[]|e]; cbn -[loadSources];
          repeat (first [exact admin_loadSources_within|constructor]).
      * unfold suspend, observe. cbn [state pending log].
        rewrite <- app_assoc, deletes_confirmed_app, Hl.
        cbn. destruct (log w); reflexivity.
    + cbn. split; [split|auto]; [exact Hp|].
      unfold observe. cbn [state pending log].
      rewrite deletes_confirmed_app, Hl. reflexivity.
  - apply Hgen. cbn [step]. now apply settled_within.
Qed.

Lemma admin_run_bounded (evs : list Event) :
  admin_bounded (run BACKEND_URL evs).
Proof.
  unfold run.
  assert (Hm : admin_bounded (mount BACKEND_URL)).
  { split; [|reflexivity].
    cbn. repeat constructor.
    - intros [o|o|o] k E; cbn in E; try discriminate.
      injection E as <-. destruct o; cbn; repeat constructor; now intros ? ?.
    - intros [o|o|o] k E; cbn in E; try discriminate.
      injection E as <-. destruct o as [[]|e]; cbn; repeat constructor. }
  generalize dependent (mount BACKEND_URL).
  induction evs as [|ev evs IH]; intros w Hw; [exact Hw|].
  cbn [fold_left]. apply IH. now apply admin_step_bounded.
Qed.

(** X15.  Along every run of the page, every DELETE call it has sent
    comes right after a confirmation dialog that the user accepted. *)
Theorem deletes_were_confirmed (evs : list Event) :
  deletes_confirmed None (log (run BACKEND_URL evs)) = true.
Proof. exact (proj2 (admin_run_bounded evs)). Qed.

(** X16.  The loading placeholder never comes back: once a list call has
    settled and cleared the loading flag, no later event, save, delete,
    toggle or reload sets it again. *)
Theorem loading_never_returns (evs more : list Event) :
  loading (state (run BACKEND_URL evs)) = false ->
  loading (state (run BACKEND_URL (evs ++ more))) = false.
Proof.
  unfold run. rewrite fold_left_app.
  fold (run BACKEND_URL evs).
  pose proof (admin_run_bounded evs) as Hb.
  generalize dependent (run BACKEND_URL evs).
  induction more as [|ev more IH]; intros w Hw H; [exact H|].
  cbn [fold_left]. destruct (admin_step_bounded ev w Hw) as [Hb' Hs].
  apply IH; [exact Hb'|now apply Hs].
Qed.
End Page.

Lemma save_resolved_witness :
  JSON.parse (config (formData (state (mount Sample.backend))))
  = Some (JObject [])
  /\ state (settled 2 (DoneReply (Resolved tt)) Scenario.saving)
     = setFormData emptyForm
         (setEditingSource None
            (setDialogOpen false (state Scenario.saving)))
  /\ log (settled 2 (DoneReply (Resolved tt)) Scenario.saving)
     = (log Scenario.saving ++ [Toasted Success "Fonte criada com sucesso"])
       ++ [Sent (list_request Sample.backend)].
Proof.
  assert (H : JSON.parse (config (formData (state (mount Sample.backend))))
              = Some (JObject [])) by reflexivity.
  split; [exact H|].
  destruct (save_resolved Sample.backend (mount Sample.backend) _ H)
    as (k & Ek & Hk).
  assert (Hi : nth_error (pending Scenario.saving) 2
               = Some (WaitDone
                         (submit_request Sample.backend
                            (state (mount Sample.backend)) (JObject [])) k))
    by (unfold Scenario.saving; rewrite Ek; reflexivity).
  destruct (Hk Scenario.saving 2%nat Hi) as (_ & Hs & Hl & _).
  split; [exact Hs|exact Hl].
Defined.

Lemma save_rejected_witness :
  JSON.parse (config (formData (state (mount Sample.backend))))
  = Some (JObject [])
  /\ settled 2 (DoneReply (Rejected Scenario.network_error)) Scenario.saving
     = {| state := state Scenario.saving;
          pending := remove_nth 2 (pending Scenario.saving);
          log := log Scenario.saving
                 ++ [Logged "Error saving source:" Scenario.network_error;
                     Toasted Error "Erro ao salvar fonte"] |}.
Proof.
  assert (H : JSON.parse (config (formData (state (mount Sample.backend))))
              = Some (JObject [])) by reflexivity.
  split; [exact H|].
  destruct (save_rejected Sample.backend (mount Sample.backend) _ H)
    as (k & Ek & Hk).
  apply (Hk Scenario.saving 2%nat).
  unfold Scenario.saving. rewrite Ek. reflexivity.
Defined.

Lemma delete_outcome_witness :
  state (settled 2 (DoneReply (Resolved tt)) Scenario.deleting)
  = state Scenario.deleting
  /\ log (settled 2 (DoneReply (Resolved tt)) Scenario.deleting)
     = log Scenario.deleting
       ++ [Toasted Success "Fonte excluída com sucesso";
           Sent (list_request Sample.backend)].
Proof.
  destruct (delete_outcome Sample.backend (lit "s1") (mount Sample.backend))
    as (k & Ek & Hk).
  assert (Hi : nth_error (pending Scenario.deleting) 2
               = Some (WaitDone (delete_request Sample.backend (lit "s1")) k))
    by (unfold Scenario.deleting; rewrite Ek; reflexivity).
  destruct (Hk Scenario.deleting 2%nat Hi) as (_ & Hs & Hl & _).
  split; [exact Hs|exact Hl].
Defined.

Lemma toggle_rejected_witness :
  settled 2 (DoneReply (Rejected Scenario.network_error)) Scenario.switching
  = {| state := state Scenario.switching;
       pending := remove_nth 2 (pending Scenario.switching);
       log := log Scenario.switching
              ++ [Logged "Error toggling source:" Scenario.network_error;
                  Toasted Error "Erro ao atualizar fonte"] |}.
Proof.
  destruct (toggle_rejected Sample.backend Sample.steam (mount Sample.backend))
    as (k & Ek & Hk).
  apply (Hk Scenario.switching 2%nat).
  unfold Scenario.switching. rewrite Ek. reflexivity.
Defined.


Lemma loading_never_returns_witness :
  loading (state (run Sample.backend Scenario.listed)) = false
  /\ loading
       (state (run Sample.backend
                 (Scenario.listed
                  ++ [EditClicked Sample.steam; SaveClicked])))
     = false.
Proof.
  split; [reflexivity|].
  apply (loading_never_returns Sample.backend Scenario.listed).
  reflexivity.
Defined.

End AdminMore.

(* ================================================================= *)
(** * The results section *)

Module HomeViewFacts.
Import JSFacts NumberFacts HandlerFacts HomeMore Home HomeView.

(** A printed natural number is read back from its digits. *)
Lemma N_toString_inj (n m : N) (rest rest' : jsstring) :
  no_digit_ahead rest -> no_digit_ahead rest' ->
  N_toString n ++ rest = N_toString m ++ rest' -> n = m /\ rest = rest'.
Proof.
  intros Hr Hr' E. apply (f_equal span_digits) in E.
  rewrite !span_digits_N_toString in E by assumption.
  injection E as Ed Er. split; [|exact Er].
  apply (f_equal N_of_digits) in Ed. now rewrite !N_of_digits_of_N in Ed.
Qed.

(** The two indices are read back from an id built from them. *)
Lemma indexed_id_inj (prefix : jsstring) (i j i' j' : N) :
  prefix ++ N_toString i ++ lit "-" ++ N_toString j
  = prefix ++ N_toString i' ++ lit "-" ++ N_toString j' ->
  i = i' /\ j = j'.
Proof.
  intros E. apply app_inv_head in E.
  apply N_toString_inj in E; [|reflexivity|reflexivity].
  destruct E as [Ei E]. split; [exact Ei|].
  injection E as E.
  rewrite <- (List.app_nil_r (N_toString j)) in E.
  rewrite <- (List.app_nil_r (N_toString j')) in E.
  now apply N_toString_inj in E.
Qed.

Lemma In_map_from {A B : Type} (f : A -> N -> B) (l : list A) :
  forall i y, In y (map_from f i l) ->
              exists a n, (i <= n)%N /\ In a l /\ y = f a n.
Proof.
  induction l as [|x r IH]; intros i y H; [contradiction|].
  destruct H as [<-|H].
  - exists x, i. repeat split; [lia|now left].
  - destruct (IH _ _ H) as (a & n & Hn & Ha & ->).
    exists a, n. repeat split; [lia|now right].
Qed.

Lemma length_map_from {A B : Type} (f : A -> N -> B) (l : list A) :
  forall i, List.length (map_from f i l) = List.length l.
Proof. induction l as [|x r IH]; intros i; cbn; [reflexivity|now rewrite IH]. Qed.

(** The cards of the group at index [idx]. *)
Lemma cards_in_group (r : SearchResult) (idx : N) :
  cards_in (group r idx) = map_indexed (card idx) (items r).
Proof.
  unfold cards_in, group. cbn.
  destruct (items r) as [|it its]; [|reflexivity].
  cbn. now destruct (negb (failed r)).
Qed.

Section Ids.
Variable key : Card -> jsstring.
Variable prefix : jsstring.
Hypothesis key_card :
  forall idx item itemIdx,
    key (card idx item itemIdx)
    = prefix ++ N_toString idx ++ lit "-" ++ N_toString itemIdx.

Lemma NoDup_cards (idx : N) (its : list ResultItem) :
  forall j, NoDup (map key (map_from (card idx) j its)).
Proof.
  induction its as [|it its IH]; intros j; cbn; constructor; [|apply IH].
  intros H. apply in_map_iff in H. destruct H as (c & E & H).
  apply In_map_from in H. destruct H as (a & n & Hn & _ & ->).
  rewrite !key_card in E. apply indexed_id_inj in E. lia.
Qed.

Lemma NoDup_groups (l : list SearchResult) :
  forall i, NoDup (map key (all_cards (map_from group i l))).
Proof.
  induction l as [|r l IH]; intros i; [constructor|].
  cbn [map_from]. unfold all_cards. cbn [flat_map]. rewrite map_app.
  apply NoDup_app.
  - rewrite cards_in_group. apply NoDup_cards.
  - apply IH.
  - intros x Hx Hy.
    rewrite cards_in_group in Hx.
    apply in_map_iff in Hx. destruct Hx as (c & <- & Hc).
    apply In_map_from in Hc. destruct Hc as (a & n & _ & _ & ->).
    apply in_map_iff in Hy. destruct Hy as (c & E & Hc).
    apply in_flat_map in Hc. destruct Hc as (g & Hg & Hc).
    apply In_map_from in Hg. destruct Hg as (r' & i' & Hi' & _ & ->).
    rewrite cards_in_group in Hc.
    apply In_map_from in Hc. destruct Hc as (a' & n' & _ & _ & ->).
    rewrite !key_card in E. apply indexed_id_inj in E. lia.
Qed.

End Ids.

(** X17.  In the results section no two cards carry the same test id, and
    no two "Ver/Comprar" buttons do: an id names one item of one group. *)
Theorem test_ids_distinct (results : list SearchResult) :
  NoDup (map card_testid (all_cards (groups results)))
  /\ NoDup (map button_testid (all_cards (groups results))).
Proof.
  split.
  - apply (NoDup_groups card_testid (lit "result-card-")). reflexivity.
  - apply (NoDup_groups button_testid (lit "view-button-")). reflexivity.
Qed.

(** X18.  Every group of the results section shows as many cards as the
    count in its heading says; a group with no card shows either the
    error banner or the notice that nothing was found, never both and
    never neither, and a group with cards never shows the notice. *)
Theorem group_outcome (results : list SearchResult) :
  Forall (fun g =>
            counter g = List.length (cards_in g)
            /\ match body g with
               | Grid cards => cards <> []
               | NoneFound => banner g = None
               | Blank => banner g <> None
               end)
         (groups results).
Proof.
  unfold groups, map_indexed. generalize 0%N.
  induction results as [|r l IH]; intros i; constructor; [|apply IH].
  split.
  - rewrite cards_in_group. unfold map_indexed.
    now rewrite length_map_from.
  - unfold group. cbn. destruct (items r) as [|it its]; cbn.
    + unfold failed. destruct (error r) as [[|c e]|]; cbn; congruence.
    + discriminate.
Qed.

Lemma no_card_iff_no_item (l : list SearchResult) :
  forall i,
    is_nil (all_cards (map_from group i l))
    = forallb (fun r => Nat.eqb (List.length (items r)) 0) l.
Proof.
  induction l as [|r l IH]; intros i; [reflexivity|].
  cbn [map_from forallb]. unfold all_cards. cbn [flat_map].
  rewrite cards_in_group. destruct (items r) as [|it its]; [|reflexivity].
  cbn. apply IH.
Qed.

Section Page.
Variable BACKEND_URL : jsstring.

(** X19.  When a search call resolves, the page tells the user that
    nothing was found exactly when the results it now holds make a
    results section without a single card. *)
Theorem notice_iff_no_card (st : State) (w : World State) :
  blank (query st) = false -> selectedSources st <> [] ->
  exists k,
    pending (exec false (handleSearch BACKEND_URL st) w)
    = pending w ++ [WaitResults (search_request BACKEND_URL st) k]
    /\ forall u i data,
        nth_error (pending u) i
        = Some (WaitResults (search_request BACKEND_URL st) k) ->
        let u' := settled i (ResultsReply (Resolved data)) u in
        results (state u') = data
        /\ log u'
           = log u
             ++ (if is_nil (all_cards (groups (results (state u'))))
                 then [Toasted Info "Nenhum resultado encontrado"]
                 else []).
Proof.
  intros H E. destruct (handleSearch_waits BACKEND_URL st w H E)
    as (k & Ek & Hok & _).
  exists k. split; [now rewrite Ek|].
  intros u i data Hi u'. subst u'.
  rewrite (settled_at u i _ (ResultsReply (Resolved data)) _ Hi eq_refl).
  rewrite Hok. cbn [state log results setSearching setResults].
  split; [reflexivity|].
  unfold groups, map_indexed. now rewrite no_card_iff_no_item.
Qed.

End Page.

Lemma notice_iff_no_card_witness :
  blank (query Scenario.typed) = false
  /\ selectedSources Scenario.typed <> []
  /\ log (settled 1 (ResultsReply (Resolved [])) Scenario.searched)
     = log Scenario.searched ++ [Toasted Info "Nenhum resultado encontrado"].
Proof.
  assert (H : blank (query Scenario.typed) = false) by reflexivity.
  assert (E : selectedSources Scenario.typed <> []) by (cbn; discriminate).
  split; [exact H|]. split; [exact E|].
  destruct (notice_iff_no_card Sample.backend Scenario.typed
              (mount Sample.backend) H E) as (k & Ek & Hk).
  assert (Hi : nth_error (pending Scenario.searched) 1
               = Some (WaitResults
                         (search_request Sample.backend Scenario.typed) k))
    by (unfold Scenario.searched; rewrite Ek; reflexivity).
  exact (proj2 (Hk Scenario.searched 1%nat [] Hi)).
Defined.

End HomeViewFacts.
